(** * binwen serializers: fields, validators pipeline and schemas

    A shallow embedding of [binwen/serializers/fields.py],
    [binwen/serializers/serializers.py], [binwen/exceptions.py] and of the
    choice helpers of [binwen/utils/functional.py], with the properties
    of the validation engine proved over it.

    Conventions of the embedding.
    - A Python [str] is a Rocq [string]; a character is a code point below
      256 (the Latin-1 range of Unicode).
    - Python exceptions are results: a call either returns, raises
      [ValidationError] (carrying its [details]), raises
      [SkipFieldException], or lets another exception escape.
    - The [empty] sentinel of fields.py is not a member of the value
      universe: a field input is either [Absent] (the sentinel) or
      [Present v].
    - Floats, the date and time fields (which rest on the pendulum library)
      and user classes are outside the value universe. *)

From Stdlib Require Import ZArith NArith List String Ascii Bool Lia.
From Stdlib Require Import Decimal DecimalString DecimalZ.
Import ListNotations.

#[local] Open Scope string_scope.
#[local] Open Scope Z_scope.

(* ===================================================================== *)
(** * Python builtins used by the serializers *)
(* ===================================================================== *)

Module Py.

(** ** Characters and whitespace *)

Definition code (c : ascii) : N := N_of_ascii c.

(** [str.isspace] on one character, the set used by [str.strip] and by
    the regular expression class [\s] on [str] patterns: TAB..CR, the
    separators FS..US, the space, NEL and the no-break space. *)
Definition is_space (c : ascii) : bool :=
  let n := code c in
  ((9 <=? n) && (n <=? 13) || (28 <=? n) && (n <=? 32)
   || (n =? 133) || (n =? 160))%N.

(** The whitespace that [int] skips around a literal: as [is_space] but
    without the separators FS..US. *)
Definition is_int_space (c : ascii) : bool :=
  let n := code c in
  ((9 <=? n) && (n <=? 13) || (n =? 32) || (n =? 133) || (n =? 160))%N.

Definition is_digit (c : ascii) : bool :=
  let n := code c in ((48 <=? n) && (n <=? 57))%N.

(** ** [str.strip] *)

Section Strip.
Variable sp : ascii -> bool.

Fixpoint lstrip_by (s : string) : string :=
  match s with
  | EmptyString => EmptyString
  | String c r => if sp c then lstrip_by r else s
  end.

Fixpoint rstrip_by (s : string) : string :=
  match s with
  | EmptyString => EmptyString
  | String c r =>
      match rstrip_by r with
      | EmptyString => if sp c then EmptyString else String c EmptyString
      | r' => String c r'
      end
  end.

Definition strip_by (s : string) : string := rstrip_by (lstrip_by s).
End Strip.

(** [s.strip()] *)
Definition strip (s : string) : string := strip_by is_space s.

(** ** [str(n)] and [int(s)] on integers *)

(** [str(n)] for an [int]: decimal digits, a leading minus sign for
    negative numbers. The bound that an interpreter may put on the number
    of digits of this conversion is not modelled. *)
Definition str_of_int (n : Z) : string :=
  NilZero.string_of_int (Z.to_int n).

(** The digits of an [int] literal (Python 3.6 and later): one or more
    decimal digits, single underscores allowed between two digits. [after_digit] tells whether the
    previous character was a digit; the result is the digit sequence with
    the underscores removed. *)
Fixpoint literal_digits (after_digit : bool) (s : string) : option string :=
  match s with
  | EmptyString => if after_digit then Some EmptyString else None
  | String c r =>
      if is_digit c then option_map (String c) (literal_digits true r)
      else if (Ascii.eqb c "_" && after_digit)%bool then
        match r with
        | EmptyString => None
        | String c' _ => if is_digit c' then literal_digits false r else None
        end
      else None
  end.

Definition int_of_digits (s : string) : option Z :=
  match literal_digits false s with
  | Some ds => option_map Z.of_uint (NilZero.uint_of_string ds)
  | None => None
  end.

(** [int(s)] for a [str] [s], base 10: whitespace around the literal is
    skipped, one sign may come first. [None] stands for [ValueError]. *)
Definition int_of_str (s : string) : option Z :=
  match strip_by is_int_space s with
  | EmptyString => None
  | String c r =>
      if Ascii.eqb c "+" then int_of_digits r
      else if Ascii.eqb c "-" then option_map Z.opp (int_of_digits r)
      else int_of_digits (String c r)
  end.

(** The number that a sequence of decimal digits denotes, most
    significant digit first. *)
Definition digit_value (c : ascii) : Z := Z.of_N (code c) - 48.

Fixpoint decimal_from (acc : Z) (s : string) : Z :=
  match s with
  | EmptyString => acc
  | String c r => decimal_from (10 * acc + digit_value c) r
  end.

Definition decimal_value (s : string) : Z := decimal_from 0 s.

Fixpoint all_digits (s : string) : bool :=
  match s with
  | EmptyString => true
  | String c r => is_digit c && all_digits r
  end.

(** [n] times the character [c] *)
Fixpoint repeat_char (c : ascii) (n : nat) : string :=
  match n with
  | O => EmptyString
  | S n' => String c (repeat_char c n')
  end.

(** ** The regular expression [\.0*\s*$] of [IntegerField] *)

Fixpoint all_space (s : string) : bool :=
  match s with
  | EmptyString => true
  | String c r => is_space c && all_space r
  end.

(** [0*\s*$] matched at the start of [s] *)
Fixpoint zeros_then_space (s : string) : bool :=
  match s with
  | EmptyString => true
  | String c r =>
      if Ascii.eqb c "0" then zeros_then_space r else all_space s
  end.

(** [re.compile(r'\.0*\s*$').sub('', s)]: the leftmost dot followed only by
    zeros and then whitespace up to the end is cut off with all that
    follows it. *)
Fixpoint re_decimal_sub (s : string) : string :=
  match s with
  | EmptyString => EmptyString
  | String c r =>
      if (Ascii.eqb c "." && zeros_then_space r)%bool then EmptyString
      else String c (re_decimal_sub r)
  end.

(** ** The value universe *)

(** Decoded request data and validated values: [None], [bool], [int],
    [str], [list] and [dict] with [str] keys (a [dict] keeps the order in
    which its keys were first inserted). *)
#[warnings="-register-all"]
Inductive value : Type :=
| VNone
| VBool (b : bool)
| VInt (n : Z)
| VStr (s : string)
| VList (l : list value)
| VDict (d : list (string * value)).

(** What a field is handed: the [empty] sentinel of fields.py, or a
    value. *)
Inductive input : Type :=
| Absent
| Present (v : value).

(** ** [repr] and [str] *)

Definition hex_digit (n : N) : ascii :=
  ascii_of_N (if (n <? 10)%N then 48 + n else 87 + n).

Definition quote : ascii := ascii_of_N 39.
Definition dquote : ascii := ascii_of_N 34.
Definition backslash : ascii := ascii_of_N 92.

Fixpoint contains (c : ascii) (s : string) : bool :=
  match s with
  | EmptyString => false
  | String c' r => Ascii.eqb c c' || contains c r
  end.

(** Characters that [repr] prints as they are. *)
Definition is_printable (c : ascii) : bool :=
  let n := code c in
  ((32 <=? n) && (n <=? 126) || (161 <=? n) && negb (n =? 173))%N.

Definition repr_char (q c : ascii) : string :=
  let n := code c in
  if (Ascii.eqb c q || Ascii.eqb c backslash)%bool then
    String backslash (String c EmptyString)
  else if (n =? 9)%N then String backslash "t"
  else if (n =? 10)%N then String backslash "n"
  else if (n =? 13)%N then String backslash "r"
  else if is_printable c then String c EmptyString
  else String backslash
         (String "x" (String (hex_digit (n / 16)) (String (hex_digit (n mod 16)) EmptyString))).

Fixpoint repr_chars (q : ascii) (s : string) : string :=
  match s with
  | EmptyString => EmptyString
  | String c r => repr_char q c ++ repr_chars q r
  end.

(** [repr(s)] of a [str]: single quotes, unless the text holds a single
    quote and no double quote. *)
Definition repr_str (s : string) : string :=
  let q := if (contains quote s && negb (contains dquote s))%bool
           then dquote else quote in
  String q (repr_chars q s ++ String q EmptyString).

Fixpoint join (sep : string) (l : list string) : string :=
  match l with
  | [] => EmptyString
  | [x] => x
  | x :: r => x ++ sep ++ join sep r
  end.

Fixpoint repr (v : value) : string :=
  match v with
  | VNone => "None"
  | VBool true => "True"
  | VBool false => "False"
  | VInt n => str_of_int n
  | VStr s => repr_str s
  | VList l => "[" ++ join ", " (map repr l) ++ "]"
  | VDict d =>
      "{" ++ join ", " (map (fun kv => repr_str (fst kv) ++ ": " ++ repr (snd kv)) d)
          ++ "}"
  end.

(** [str(v)] *)
Definition str (v : value) : string :=
  match v with
  | VStr s => s
  | _ => repr v
  end.

(** [bool(v)] *)
Definition truthy (v : value) : bool :=
  match v with
  | VNone => false
  | VBool b => b
  | VInt n => negb (n =? 0)
  | VStr s => negb (String.eqb s EmptyString)
  | VList l => match l with [] => false | _ => true end
  | VDict d => match d with [] => false | _ => true end
  end.

(** [type(v).__name__] *)
Definition type_name (v : value) : string :=
  match v with
  | VNone => "NoneType"
  | VBool _ => "bool"
  | VInt _ => "int"
  | VStr _ => "str"
  | VList _ => "list"
  | VDict _ => "dict"
  end.

(** ** Hashable scalars, [==] on them and membership in a set literal *)

Inductive scalar : Type :=
| SNone
| SBool (b : bool)
| SInt (n : Z)
| SStr (s : string).

Definition of_scalar (k : scalar) : value :=
  match k with
  | SNone => VNone
  | SBool b => VBool b
  | SInt n => VInt n
  | SStr s => VStr s
  end.

(** [None] for the unhashable values, on which a set or dict lookup raises
    [TypeError]. *)
Definition to_scalar (v : value) : option scalar :=
  match v with
  | VNone => Some SNone
  | VBool b => Some (SBool b)
  | VInt n => Some (SInt n)
  | VStr s => Some (SStr s)
  | VList _ | VDict _ => None
  end.

(** [a == b] on scalars: a [bool] is the integer 0 or 1. *)
Definition scalar_eqb (a b : scalar) : bool :=
  match a, b with
  | SNone, SNone => true
  | SStr s, SStr t => String.eqb s t
  | SInt n, SInt m => n =? m
  | SInt n, SBool b | SBool b, SInt n => n =? (if b then 1 else 0)
  | SBool b, SBool c => Bool.eqb b c
  | _, _ => false
  end.

(** [v in S] for a set literal [S] of scalars. *)
Definition in_set (v : value) (S : list scalar) : option bool :=
  option_map (fun k => existsb (scalar_eqb k) S) (to_scalar v).

(** [len(v)]: [None] stands for [TypeError]. *)
Definition len (v : value) : option Z :=
  match v with
  | VStr s => Some (Z.of_nat (String.length s))
  | VList l => Some (Z.of_nat (List.length l))
  | VDict d => Some (Z.of_nat (List.length d))
  | _ => None
  end.

End Py.

(* ===================================================================== *)
(** * binwen/exceptions.py *)
(* ===================================================================== *)

Module Exceptions.
Import Py.

(** A key of an error mapping: a field name or a list index. *)
Inductive key : Type :=
| KName (s : string)
| KIndex (i : nat).

(** [RpcException.details] is a [str]. [RpcException.__init__] keeps a
    [str] message as it is and passes a [list] or [dict] message through
    [json_encode] first. The JSON text is kept symbolic: [JsonList l] is
    the text [json_encode] makes of the list of the strings [l], and
    [JsonDict m] the one it makes of the ordered mapping [m]. *)
#[warnings="-register-all"]
Inductive details : Type :=
| Text (s : string)
| JsonList (l : list details)
| JsonDict (m : list (key * details)).

(** [bool(details)]: a JSON text is never the empty string. *)
Definition details_truthy (d : details) : bool :=
  match d with
  | Text s => negb (String.eqb s EmptyString)
  | JsonList _ | JsonDict _ => true
  end.

Inductive exn : Type :=
| ValidationError (d : details)
| SkipFieldException
| TypeError
| ValueError
| KeyError
| AttributeError
| AssertionError
| NameError (name : string).

Inductive result (A : Type) : Type :=
| Return (a : A)
| Raise (e : exn).
Arguments Return {A} a.
Arguments Raise {A} e.

(** Calls that the properties below observe. *)
Inductive event : Type :=
| CallToInternalValue (data : value)
| CallValidator (i : nat) (v : value).

(** A computation: the calls it made, in order, and how it ended. *)
Definition M (A : Type) : Type := (list event * result A)%type.

Definition ret {A} (a : A) : M A := ([], Return a).
Definition raise {A} (e : exn) : M A := ([], Raise e).
Definition tell (ev : event) : M unit := ([ev], Return tt).
Definition lift {A} (r : result A) : M A := ([], r).

Definition bind {A B} (m : M A) (f : A -> M B) : M B :=
  match m with
  | (l, Return a) => let (l', r) := f a in ((l ++ l')%list, r)
  | (l, Raise e) => (l, Raise e)
  end.

(** The calls [l] followed by the computation [m]. *)
Definition after {A} (l : list event) (m : M A) : M A :=
  ((l ++ fst m)%list, snd m).

(** [try: m  except ValidationError as exc: on_error exc.details
    else: ok result]; any other exception escapes. *)
Definition try_validation {A B} (m : M A) (ok : A -> M B)
  (on_error : details -> M B) : M B :=
  match m with
  | (l, Return a) => after l (ok a)
  | (l, Raise (ValidationError d)) => after l (on_error d)
  | (l, Raise e) => (l, Raise e)
  end.

Definition key_eqb (a b : key) : bool :=
  match a, b with
  | KIndex i, KIndex j => Nat.eqb i j
  | KName s, KName t => String.eqb s t
  | _, _ => false
  end.

Definition calls {A} (m : M A) : list event := fst m.
Definition outcome {A} (m : M A) : result A := snd m.

End Exceptions.

Import Py Exceptions.

Declare Scope py_scope.
Delimit Scope py_scope with py.
Notation "x <- m ;; k" := (bind m (fun x => k))
  (at level 61, m at next level, right associativity) : py_scope.
Notation "m ;;; k" := (bind m (fun _ => k))
  (at level 61, right associativity) : py_scope.
#[local] Open Scope py_scope.

(* ===================================================================== *)
(** * Ordered dictionaries *)
(* ===================================================================== *)

(** [dict] and [OrderedDict] as association lists without repeated keys:
    assigning to a key that is present replaces its value in place, a new
    key goes to the end. *)
Module OrderedDict.
Section Ops.
Context {K V : Type} (eqb : K -> K -> bool).

(** [d.get(k)] *)
Fixpoint get (d : list (K * V)) (k : K) : option V :=
  match d with
  | [] => None
  | (k', v) :: r => if eqb k k' then Some v else get r k
  end.

(** [d[k] = v] *)
Fixpoint set (d : list (K * V)) (k : K) (v : V) : list (K * V) :=
  match d with
  | [] => [(k, v)]
  | (k', v') :: r => if eqb k k' then (k', v) :: r else (k', v') :: set r k v
  end.

(** [d.update(d')] *)
Definition update (d d' : list (K * V)) : list (K * V) :=
  fold_left (fun acc kv => set acc (fst kv) (snd kv)) d' d.

Definition keys (d : list (K * V)) : list K := map fst d.
End Ops.
End OrderedDict.

(* ===================================================================== *)
(** * binwen/utils/functional.py: the choice helpers *)
(* ===================================================================== *)

Module Functional.

(** One element of a [choices] argument: a single choice, a pair
    [(key, display)] whose display value is not a list or tuple, or a
    group [(key, sub_choices)]. Iterating a [dict] yields its keys, so a
    [dict] of choices is the list of its keys as single choices. *)
#[warnings="-register-all"]
Inductive choice : Type :=
| Single (k : scalar)
| Pair (k : scalar) (display : value)
| Group (k : scalar) (sub : list choice).

(** A value of the grouped dictionary: a display value or a sub-table. *)
#[warnings="-register-all"]
Inductive entry : Type :=
| Display (v : value)
| Nested (d : list (scalar * entry)).

Fixpoint choice_entry (c : choice) : scalar * entry :=
  match c with
  | Single k => (k, Display (of_scalar k))
  | Pair k v => (k, Display v)
  | Group k sub =>
      (k, Nested (fold_left
                    (fun ret c' => let (k', e) := choice_entry c' in
                                   OrderedDict.set scalar_eqb ret k' e)
                    sub []))
  end.

Definition to_choices_dict (choices : list choice) : list (scalar * entry) :=
  fold_left (fun ret c => let (k, e) := choice_entry c in
                          OrderedDict.set scalar_eqb ret k e)
            choices [].

(** One level of grouping is flattened; a display value that is itself a
    [dict] counts as a sub-table too. *)
Definition flatten_choices_dict (choices : list (scalar * entry))
  : list (scalar * entry) :=
  fold_left
    (fun ret kv =>
       match snd kv with
       | Nested d =>
           fold_left (fun ret' sk => OrderedDict.set scalar_eqb ret' (fst sk) (snd sk))
                     d ret
       | Display (VDict d) =>
           fold_left (fun ret' sk =>
                        OrderedDict.set scalar_eqb ret' (SStr (fst sk)) (Display (snd sk)))
                     d ret
       | Display v => OrderedDict.set scalar_eqb ret (fst kv) (Display v)
       end)
    choices [].

Definition choices_of_dict (d : list (scalar * value)) : list choice :=
  map (fun kv => Single (fst kv)) d.

End Functional.

(* ===================================================================== *)
(** * binwen/serializers/validators.py: the limit validators *)
(* ===================================================================== *)

Module Validators.

(** A validator is called with the converted value; it returns, raises
    [ValidationError] or lets something else escape. *)
Definition validator : Type := value -> result unit.

(** [a < b] and [a > b] between a value and an [int] limit; ordering a
    [str], [None], [list] or [dict] against an [int] raises [TypeError]. *)
Definition as_int (v : value) : option Z :=
  match v with
  | VInt n => Some n
  | VBool b => Some (if b then 1 else 0)
  | _ => None
  end.

(** [BaseValidator.__call__]: when [compare] holds the validator builds
    [ValidationError(self.message, params=params)]; [RpcException.__init__]
    forwards the keyword argument to [Exception.__init__], which takes
    none, so what is raised is [TypeError]. *)
Definition BaseValidator_call (clean : value -> option Z)
  (compare : Z -> Z -> bool) (limit_value : Z) : validator :=
  fun v =>
    match clean v with
    | None => Raise TypeError
    | Some cleaned =>
        if compare cleaned limit_value then Raise TypeError else Return tt
    end.

Definition MaxValueValidator : Z -> validator :=
  BaseValidator_call as_int Z.gtb.
Definition MinValueValidator : Z -> validator :=
  BaseValidator_call as_int Z.ltb.
Definition MinLengthValidator : Z -> validator :=
  BaseValidator_call len Z.ltb.
Definition MaxLengthValidator : Z -> validator :=
  BaseValidator_call len Z.gtb.

End Validators.

(* ===================================================================== *)
(** * binwen/serializers/fields.py *)
(* ===================================================================== *)

Module Fields.
Import Functional Validators.

(** ** Error messages *)

(** A message template of [str.format]: literal text and named
    replacement fields. *)
Inductive segment : Type :=
| Lit (s : string)
| Arg (name : string).

Definition template : Type := list segment.
Definition messages : Type := list (string * template).

(** [msg.format] with keyword arguments: a replacement field that is not
    among the keyword arguments raises [KeyError]; a value is inserted as
    its [str]. *)
Fixpoint format (t : template) (kwargs : list (string * value)) : result string :=
  match t with
  | [] => Return EmptyString
  | Lit s :: r =>
      match format r kwargs with
      | Return s' => Return (s ++ s')
      | Raise e => Raise e
      end
  | Arg name :: r =>
      match OrderedDict.get String.eqb kwargs name with
      | None => Raise KeyError
      | Some v =>
          match format r kwargs with
          | Return s' => Return (str v ++ s')
          | Raise e => Raise e
          end
      end
  end.

Definition Field_default_error_messages : messages :=
  [("required", [Lit "This field is required."]);
   ("null", [Lit "This field may not be null."])].

Definition BooleanField_default_error_messages : messages :=
  [("invalid", [Lit "Must be a valid boolean."])].

Definition CharField_default_error_messages : messages :=
  [("invalid", [Lit "Not a valid string."]);
   ("blank", [Lit "This field may not be blank."])].

Definition IntegerField_default_error_messages : messages :=
  [("invalid", [Lit "A valid integer is required."]);
   ("max_string_length", [Lit "String value too large."])].

Definition ChoiceField_default_error_messages : messages :=
  [("invalid_choice",
    [Lit (String dquote EmptyString); Arg "input";
     Lit (String dquote " is not a valid choice.")])].

Definition ListField_default_error_messages : messages :=
  [("not_a_list",
    [Lit ("Expected a list of items but got type " ++ String dquote EmptyString);
     Arg "input_type"; Lit (String dquote ".")]);
   ("empty", [Lit "This list may not be empty."])].

(** The loop of [Field.__init__] over the reversed MRO, followed by the
    [error_messages] argument. *)
Definition collect_messages (class_defaults user : messages) : messages :=
  OrderedDict.update String.eqb
    (OrderedDict.update String.eqb
       (OrderedDict.update String.eqb [] Field_default_error_messages)
       class_defaults)
    user.

(** [self.fail(key, ...)] *)
Definition fail {A} (error_messages : messages) (key : string)
  (kwargs : list (string * value)) : result A :=
  let msg := match OrderedDict.get String.eqb error_messages key with
             | Some t => t
             | None => [Lit "Invalid Argument"]
             end in
  match format msg kwargs with
  | Return message_string => Raise (ValidationError (Text message_string))
  | Raise e => Raise e
  end.

(** ** The field classes *)

(** The class of a field with the attributes its own [__init__] stores.
    The child of a [ListField] is given by its [run_validation] (which
    takes the [partial] flag of the root serializer first) and its
    [to_representation]. [UserField] is any other subclass, given by
    its two overridden methods ([SerializerMethodField] and
    [_UnvalidatedField] are of that kind). *)
Inductive FieldClass : Type :=
| BooleanField
| NullBooleanField
| CharField (allow_blank trim_whitespace : bool)
| IntegerField
| ChoiceField (choices : list choice) (allow_blank : bool)
| ListField (child_run_validation : bool -> input -> M value)
    (child_to_representation : value -> result value) (allow_empty : bool)
| UserField (to_internal_value to_representation : value -> result value).

(** A field after [__init__]. [default] is [None] for the [empty]
    sentinel; [source] is [None] until [bind] sets it. *)
Record Field : Type := mkField {
  cls : FieldClass;
  required : bool;
  allow_null : bool;
  default : option value;
  source : option string;
  validators : list validator;
  error_messages : messages
}.

(** The keyword arguments of [Field.__init__] that matter here. *)
Record kwargs : Type := mkKwargs {
  kw_required : bool;
  kw_allow_null : bool;
  kw_default : option value;
  kw_source : option string;
  kw_validators : list validator;
  kw_error_messages : messages
}.

Definition no_kwargs : kwargs :=
  {| kw_required := false; kw_allow_null := false; kw_default := None;
     kw_source := None; kw_validators := []; kw_error_messages := [] |}.

Definition Field_init (c : FieldClass) (class_defaults : messages)
  (extra_validators : list validator) (kw : kwargs) : Field :=
  {| cls := c;
     required := kw_required kw;
     allow_null := kw_allow_null kw;
     default := kw_default kw;
     source := kw_source kw;
     validators := (kw_validators kw ++ extra_validators)%list;
     error_messages := collect_messages class_defaults (kw_error_messages kw) |}.

Definition new_BooleanField (kw : kwargs) : Field :=
  Field_init BooleanField BooleanField_default_error_messages [] kw.

(** [NullBooleanField.__init__] forces [allow_null=True]. *)
Definition new_NullBooleanField (kw : kwargs) : Field :=
  Field_init NullBooleanField BooleanField_default_error_messages []
    {| kw_required := kw_required kw; kw_allow_null := true;
       kw_default := kw_default kw; kw_source := kw_source kw;
       kw_validators := kw_validators kw;
       kw_error_messages := kw_error_messages kw |}.

Definition optional_validator (mk : Z -> validator) (limit : option Z)
  : list validator :=
  match limit with
  | Some n => [mk n]
  | None => []
  end.

(** [CharField.__init__]: [min_length] and [max_length] become validators,
    in that order, after those given by the caller. *)
Definition new_CharField (allow_blank trim_whitespace : bool)
  (max_length min_length : option Z) (kw : kwargs) : Field :=
  Field_init (CharField allow_blank trim_whitespace)
    CharField_default_error_messages
    (optional_validator MinLengthValidator min_length
       ++ optional_validator MaxLengthValidator max_length)%list
    kw.

(** [IntegerField.__init__] *)
Definition new_IntegerField (max_value min_value : option Z) (kw : kwargs)
  : Field :=
  Field_init IntegerField IntegerField_default_error_messages
    (optional_validator MaxValueValidator max_value
       ++ optional_validator MinValueValidator min_value)%list
    kw.

Definition new_ChoiceField (choices : list choice) (allow_blank : bool)
  (kw : kwargs) : Field :=
  Field_init (ChoiceField choices allow_blank)
    ChoiceField_default_error_messages [] kw.

(** [SerializerMethodField]: the method of the parent serializer is the
    conversion in both directions, and the source is the wildcard. *)
Definition new_SerializerMethodField (method : value -> result value)
  (kw : kwargs) : Field :=
  Field_init (UserField method method) [] []
    {| kw_required := kw_required kw; kw_allow_null := kw_allow_null kw;
       kw_default := kw_default kw; kw_source := Some "*";
       kw_validators := kw_validators kw;
       kw_error_messages := kw_error_messages kw |}.

(** ** Methods of [Field] *)

Definition is_wildcard (f : Field) : bool :=
  match source f with
  | Some s => String.eqb s "*"
  | None => false
  end.

(** [Field.get_default]; [partial] is [getattr(self.root, 'partial',
    False)]. A callable default is outside the embedding. *)
Definition get_default (f : Field) (partial : bool) : result value :=
  match default f with
  | None => Raise SkipFieldException
  | Some d => if partial then Raise SkipFieldException else Return d
  end.

(** [Field.validate_empty_values] *)
Definition validate_empty_values (f : Field) (partial : bool) (data : input)
  : result (bool * value) :=
  match data with
  | Absent =>
      if partial then Raise SkipFieldException
      else if required f then fail (error_messages f) "required" []
      else match get_default f partial with
           | Return d => Return (true, d)
           | Raise e => Raise e
           end
  | Present VNone =>
      if negb (allow_null f) then fail (error_messages f) "null" []
      else if is_wildcard f then Return (false, VNone)
      else Return (true, VNone)
  | Present v => Return (false, v)
  end.

(** [Field.run_validators]: the loop from the [i]-th validator on, with
    the messages gathered so far. *)
Fixpoint run_validators_from (i : nat) (vs : list validator) (v : value)
  (errors : list details) : M unit :=
  match vs with
  | [] =>
      match errors with
      | [] => ret tt
      | _ => raise (ValidationError (JsonList errors))
      end
  | validator :: rest =>
      tell (CallValidator i v) ;;;
      match validator v with
      | Return _ => run_validators_from (S i) rest v errors
      | Raise (ValidationError d) =>
          run_validators_from (S i) rest v (errors ++ [d])%list
      | Raise e => raise e
      end
  end.

Definition run_validators (f : Field) (v : value) : M unit :=
  run_validators_from 0 (validators f) v [].

(** ** [to_internal_value] of the classes *)

(** The sets of [BooleanField] and [NullBooleanField]. The float [0.0] of
    the source sets equals the integer 0, so that it adds no member. *)
Definition BooleanField_TRUE_VALUES : list scalar :=
  [SStr "t"; SStr "T"; SStr "y"; SStr "Y"; SStr "yes"; SStr "YES";
   SStr "true"; SStr "True"; SStr "TRUE"; SStr "on"; SStr "On"; SStr "ON";
   SStr "1"; SInt 1; SBool true].

Definition BooleanField_FALSE_VALUES : list scalar :=
  [SStr "f"; SStr "F"; SStr "n"; SStr "N"; SStr "no"; SStr "NO";
   SStr "false"; SStr "False"; SStr "FALSE"; SStr "off"; SStr "Off";
   SStr "OFF"; SStr "0"; SInt 0; SBool false].

Definition BooleanField_NULL_VALUES : list scalar :=
  [SStr "null"; SStr "Null"; SStr "NULL"; SStr ""; SNone].

Definition NullBooleanField_TRUE_VALUES : list scalar :=
  [SStr "t"; SStr "T"; SStr "true"; SStr "True"; SStr "TRUE"; SStr "1";
   SInt 1; SBool true].

Definition NullBooleanField_FALSE_VALUES : list scalar :=
  [SStr "f"; SStr "F"; SStr "false"; SStr "False"; SStr "FALSE"; SStr "0";
   SInt 0; SBool false].

Definition NullBooleanField_NULL_VALUES : list scalar :=
  [SStr "n"; SStr "N"; SStr "null"; SStr "Null"; SStr "NULL"; SStr "";
   SNone].

(** The [TypeError] of a membership test on an unhashable value is caught
    and leads to [fail('invalid')] like a value in none of the sets. *)
Definition BooleanField_to_internal_value (f : Field) (data : value)
  : result value :=
  match in_set data BooleanField_TRUE_VALUES with
  | Some true => Return (VBool true)
  | Some false =>
      match in_set data BooleanField_FALSE_VALUES with
      | Some true => Return (VBool false)
      | Some false =>
          match in_set data BooleanField_NULL_VALUES with
          | Some true =>
              if allow_null f then Return VNone
              else fail (error_messages f) "invalid" []
          | _ => fail (error_messages f) "invalid" []
          end
      | None => fail (error_messages f) "invalid" []
      end
  | None => fail (error_messages f) "invalid" []
  end.

(** Here the [TypeError] of an unhashable value escapes. *)
Definition BooleanField_to_representation (f : Field) (v : value)
  : result value :=
  match in_set v BooleanField_TRUE_VALUES with
  | None => Raise TypeError
  | Some true => Return (VBool true)
  | Some false =>
      match in_set v BooleanField_FALSE_VALUES with
      | None => Raise TypeError
      | Some true => Return (VBool false)
      | Some false =>
          match in_set v BooleanField_NULL_VALUES with
          | None => Raise TypeError
          | Some inn =>
              if (inn && allow_null f)%bool then Return VNone
              else Return (VBool (truthy v))
          end
      end
  end.

Definition NullBooleanField_to_internal_value (f : Field) (data : value)
  : result value :=
  match in_set data NullBooleanField_TRUE_VALUES with
  | Some true => Return (VBool true)
  | Some false =>
      match in_set data NullBooleanField_FALSE_VALUES with
      | Some true => Return (VBool false)
      | Some false =>
          match in_set data NullBooleanField_NULL_VALUES with
          | Some true => Return VNone
          | _ => fail (error_messages f) "invalid" []
          end
      | None => fail (error_messages f) "invalid" []
      end
  | None => fail (error_messages f) "invalid" []
  end.

Definition NullBooleanField_to_representation (f : Field) (v : value)
  : result value :=
  match in_set v NullBooleanField_NULL_VALUES with
  | None => Raise TypeError
  | Some true => Return VNone
  | Some false =>
      match in_set v NullBooleanField_TRUE_VALUES with
      | None => Raise TypeError
      | Some true => Return (VBool true)
      | Some false =>
          match in_set v NullBooleanField_FALSE_VALUES with
          | None => Raise TypeError
          | Some true => Return (VBool false)
          | Some false => Return (VBool (truthy v))
          end
      end
  end.

(** [CharField.to_internal_value]: a [bool] and anything that is not a
    [str] or a number is refused. *)
Definition CharField_to_internal_value (f : Field) (trim_whitespace : bool)
  (data : value) : result value :=
  match data with
  | VStr _ | VInt _ =>
      let value := str data in
      Return (VStr (if trim_whitespace then strip value else value))
  | _ => fail (error_messages f) "invalid" []
  end.

Definition CharField_to_representation (trim_whitespace : bool) (v : value)
  : result value :=
  let value := str v in
  Return (VStr (if trim_whitespace then strip value else value)).

Definition IntegerField_MAX_STRING_LENGTH : nat := 1000.

(** [IntegerField.to_internal_value]; both [ValueError] and [TypeError]
    of [int] are turned into [fail('invalid')]. *)
Definition IntegerField_to_internal_value (f : Field) (data : value)
  : result value :=
  let too_long := match data with
                  | VStr s => Nat.ltb IntegerField_MAX_STRING_LENGTH (String.length s)
                  | _ => false
                  end in
  if too_long then fail (error_messages f) "max_string_length" []
  else match int_of_str (re_decimal_sub (str data)) with
       | Some n => Return (VInt n)
       | None => fail (error_messages f) "invalid" []
       end.

(** [int(value)]: the number itself, 0 or 1 for a [bool], the literal of
    a [str] or [ValueError], and [TypeError] for the rest. *)
Definition IntegerField_to_representation (v : value) : result value :=
  match v with
  | VInt n => Return (VInt n)
  | VBool b => Return (VInt (if b then 1 else 0))
  | VStr s =>
      match int_of_str s with
      | Some n => Return (VInt n)
      | None => Raise ValueError
      end
  | VNone | VList _ | VDict _ => Raise TypeError
  end.

(** [ChoiceField._set_choices]: the table from [str(key)] to [key] over
    the flattened choices. *)
Definition choice_strings_to_values (choices : list choice)
  : list (string * scalar) :=
  fold_left
    (fun table key => OrderedDict.set String.eqb table (str (of_scalar key)) key)
    (OrderedDict.keys (flatten_choices_dict (to_choices_dict choices)))
    [].

Definition is_empty_str (v : value) : bool :=
  match v with
  | VStr s => String.eqb s EmptyString
  | _ => false
  end.

Definition ChoiceField_to_internal_value (f : Field) (choices : list choice)
  (allow_blank : bool) (data : value) : result value :=
  if (is_empty_str data && allow_blank)%bool then Return (VStr EmptyString)
  else match OrderedDict.get String.eqb (choice_strings_to_values choices) (str data) with
       | Some key => Return (of_scalar key)
       | None => fail (error_messages f) "invalid_choice" [("input", data)]
       end.

Definition ChoiceField_to_representation (choices : list choice) (v : value)
  : result value :=
  match v with
  | VNone => Return v
  | _ =>
      if is_empty_str v then Return v
      else match OrderedDict.get String.eqb (choice_strings_to_values choices) (str v) with
           | Some key => Return (of_scalar key)
           | None => Return v
           end
  end.

(** ** [ListField] *)

(** [ListField.run_child_validation]: the items from index [idx] on, with
    the results and the index-keyed errors gathered so far. Only
    [ValidationError] is caught. *)
Fixpoint run_child_validation_from
  (child_run_validation : input -> M value) (idx : nat) (data : list value)
  (result : list value) (errors : list (key * details)) : M value :=
  match data with
  | [] =>
      match errors with
      | [] => ret (VList result)
      | _ => raise (ValidationError (JsonDict errors))
      end
  | item :: rest =>
      try_validation (child_run_validation (Present item))
        (fun v =>
           run_child_validation_from child_run_validation (S idx) rest
             (result ++ [v])%list errors)
        (fun d =>
           run_child_validation_from child_run_validation (S idx) rest
             result (OrderedDict.set key_eqb errors (KIndex idx) d))
  end.

Definition run_child_validation (child_run_validation : input -> M value)
  (data : list value) : M value :=
  run_child_validation_from child_run_validation 0 data [] [].

(** [ListField.to_internal_value]: a [str], a mapping and anything that
    cannot be iterated is refused. *)
Definition ListField_to_internal_value (f : Field)
  (child_run_validation : input -> M value) (allow_empty : bool)
  (data : value) : M value :=
  match data with
  | VList items =>
      if (negb allow_empty && Nat.eqb (List.length items) 0)%bool
      then lift (fail (error_messages f) "empty" [])
      else run_child_validation child_run_validation items
  | _ =>
      lift (fail (error_messages f) "not_a_list"
              [("input_type", VStr (type_name data))])
  end.

(** The list comprehension of [ListField.to_representation] over the
    items of an iterable. *)
Fixpoint represent_items (child_to_representation : value -> result value)
  (items : list value) : result (list value) :=
  match items with
  | [] => Return []
  | item :: rest =>
      let first := match item with
                   | VNone => Return VNone
                   | _ => child_to_representation item
                   end in
      match first with
      | Raise e => Raise e
      | Return r =>
          match represent_items child_to_representation rest with
          | Raise e => Raise e
          | Return rs => Return (r :: rs)
          end
      end
  end.

Fixpoint chars (s : string) : list value :=
  match s with
  | EmptyString => []
  | String c r => VStr (String c EmptyString) :: chars r
  end.

(** [iter(v)]: the items of a list, the characters of a [str], the keys
    of a [dict]; [None] stands for [TypeError]. *)
Definition iterate (v : value) : option (list value) :=
  match v with
  | VList l => Some l
  | VStr s => Some (chars s)
  | VDict d => Some (map (fun kv => VStr (fst kv)) d)
  | _ => None
  end.

Definition ListField_to_representation
  (child_to_representation : value -> result value) (data : value)
  : result value :=
  match iterate data with
  | None => Raise TypeError
  | Some items =>
      match represent_items child_to_representation items with
      | Return rs => Return (VList rs)
      | Raise e => Raise e
      end
  end.

(** ** Dispatch on the class *)

Definition to_internal_value (f : Field) (partial : bool) (data : value)
  : M value :=
  match cls f with
  | BooleanField => lift (BooleanField_to_internal_value f data)
  | NullBooleanField => lift (NullBooleanField_to_internal_value f data)
  | CharField _ trim_whitespace =>
      lift (CharField_to_internal_value f trim_whitespace data)
  | IntegerField => lift (IntegerField_to_internal_value f data)
  | ChoiceField choices allow_blank =>
      lift (ChoiceField_to_internal_value f choices allow_blank data)
  | ListField child _ allow_empty =>
      ListField_to_internal_value f (child partial) allow_empty data
  | UserField tiv _ => lift (tiv data)
  end.

Definition to_representation (f : Field) (v : value) : result value :=
  match cls f with
  | BooleanField => BooleanField_to_representation f v
  | NullBooleanField => NullBooleanField_to_representation f v
  | CharField _ trim_whitespace => CharField_to_representation trim_whitespace v
  | IntegerField => IntegerField_to_representation v
  | ChoiceField choices _ => ChoiceField_to_representation choices v
  | ListField _ child_to_representation _ =>
      ListField_to_representation child_to_representation v
  | UserField _ trep => trep v
  end.

(** [Field.run_validation] *)
Definition Field_run_validation (f : Field) (partial : bool) (data : input)
  : M value :=
  checked <- lift (validate_empty_values f partial data) ;;
  let (is_empty_value, data) := checked : bool * value in
  if is_empty_value then ret data
  else
    tell (CallToInternalValue data) ;;;
    value <- to_internal_value f partial data ;;
    run_validators f value ;;;
    ret value.

(** The test that opens [CharField.run_validation]: [data == ''], or, when
    whitespace is trimmed, [str(data).strip() == '']. The text of the
    [empty] sentinel is that of a bare [object], which is not blank. *)
Definition CharField_is_blank (trim_whitespace : bool) (data : input) : bool :=
  match data with
  | Absent => false
  | Present v =>
      (is_empty_str v
       || (trim_whitespace && String.eqb (strip (str v)) EmptyString))%bool
  end.

(** [CharField.run_validation] *)
Definition CharField_run_validation (f : Field)
  (allow_blank trim_whitespace : bool) (partial : bool) (data : input)
  : M value :=
  if CharField_is_blank trim_whitespace data then
    if negb allow_blank then lift (fail (error_messages f) "blank" [])
    else ret (VStr EmptyString)
  else Field_run_validation f partial data.

Definition run_validation (f : Field) (partial : bool) (data : input)
  : M value :=
  match cls f with
  | CharField allow_blank trim_whitespace =>
      CharField_run_validation f allow_blank trim_whitespace partial data
  | _ => Field_run_validation f partial data
  end.

(** [ListField.__init__]: the child's source is reset and the child is
    bound under the empty name; the length limits become validators. *)
Definition with_source (f : Field) (s : option string) : Field :=
  {| cls := cls f; required := required f; allow_null := allow_null f;
     default := default f; source := s; validators := validators f;
     error_messages := error_messages f |}.

Definition new_ListField (child : Field) (allow_empty : bool)
  (max_length min_length : option Z) (kw : kwargs) : Field :=
  let bound_child := with_source child (Some EmptyString) in
  Field_init
    (ListField (run_validation bound_child) (to_representation bound_child)
       allow_empty)
    ListField_default_error_messages
    (optional_validator MaxLengthValidator max_length
       ++ optional_validator MinLengthValidator min_length)%list
    kw.

(** [_UnvalidatedField], the default child of a [ListField]. *)
Definition UnvalidatedField : Field :=
  {| cls := UserField (fun data => Return data) (fun v => Return v);
     required := false; allow_null := true; default := None; source := None;
     validators := [];
     error_messages := collect_messages [] [] |}.

End Fields.

(* ===================================================================== *)
(** * binwen/serializers/serializers.py *)
(* ===================================================================== *)

Module Serializers.
Import Fields Validators.

(** ** [set_value] *)

(** The loop of [set_value] over [keys[:-1]] and the final assignment,
    on a non-empty key path. An intermediate value that is not a mapping
    cannot be assigned into: [TypeError]. *)
Fixpoint set_path (dictionary : list (string * value)) (key : string)
  (more : list string) (v : value) : result (list (string * value)) :=
  match more with
  | [] => Return (OrderedDict.set String.eqb dictionary key v)
  | key' :: more' =>
      let inner := match OrderedDict.get String.eqb dictionary key with
                   | None => Some []
                   | Some (VDict d) => Some d
                   | Some _ => None
                   end in
      match inner with
      | None => Raise TypeError
      | Some d =>
          match set_path d key' more' v with
          | Return d' =>
              Return (OrderedDict.set String.eqb dictionary key (VDict d'))
          | Raise e => Raise e
          end
      end
  end.

(** One element of the iterable that [dict.update] is given: it has to be
    a sequence of two items, the key and the value. A [str] of two
    characters and a mapping of two keys are such sequences; something
    that is no sequence raises [TypeError], a sequence of another length
    [ValueError], a key that is a [list] or a [dict] [TypeError]. A key
    that is [None], a [bool] or an [int] would give the tree a key that
    is not a [str], which the mappings of this universe cannot hold: that
    case is outside the model, and is answered like the unhashable key. *)
Definition update_pair (item : value) : result (string * value) :=
  match item with
  | VNone | VBool _ | VInt _ => Raise TypeError
  | VStr (String k (String v EmptyString)) =>
      Return (String k EmptyString, VStr (String v EmptyString))
  | VStr _ => Raise ValueError
  | VList [VStr key; v] => Return (key, v)
  | VList [_; _] => Raise TypeError
  | VList _ => Raise ValueError
  | VDict [(key, _); (key', _)] => Return (key, VStr key')
  | VDict _ => Raise ValueError
  end.

(** [dictionary.update(items)] for a list: the pairs are written one
    after the other, up to the first element that raises. *)
Fixpoint update_pairs (dictionary : list (string * value)) (items : list value)
  : result (list (string * value)) :=
  match items with
  | [] => Return dictionary
  | item :: rest =>
      match update_pair item with
      | Return (key, v) =>
          update_pairs (OrderedDict.set String.eqb dictionary key v) rest
      | Raise e => Raise e
      end
  end.

(** [set_value(dictionary, keys, value)]. With no keys the value is merged
    into the dictionary by [update]: a mapping by its keys, a list by its
    pairs; the empty [str] has no elements and changes nothing, any other
    [str] raises [ValueError] at its first character; [None], a [bool]
    and an [int] cannot be iterated. *)
Definition set_value (dictionary : list (string * value))
  (keys : list string) (v : value) : result (list (string * value)) :=
  match keys with
  | [] =>
      match v with
      | VDict d => Return (OrderedDict.update String.eqb dictionary d)
      | VList items => update_pairs dictionary items
      | VStr EmptyString => Return dictionary
      | VStr _ => Raise ValueError
      | VNone | VBool _ | VInt _ => Raise TypeError
      end
  | key :: more => set_path dictionary key more v
  end.

(** ** Binding *)

(** [s.split('.')] *)
Fixpoint split_dots (s : string) : list string :=
  match s with
  | EmptyString => [EmptyString]
  | String c r =>
      if Ascii.eqb c "." then EmptyString :: split_dots r
      else match split_dots r with
           | [] => [String c EmptyString]
           | first :: others => String c first :: others
           end
  end.

(** What a serializer needs of a declared field, whatever its class: the
    declared source, and [run_validation] as a function of the source
    that [bind] leaves in [self.source] and of the [partial] flag of the
    root serializer. *)
Record FieldObject : Type := mkFieldObject {
  obj_source : option string;
  obj_run_validation : string -> bool -> input -> M value
}.

Definition of_field (f : Field) : FieldObject :=
  {| obj_source := source f;
     obj_run_validation :=
       fun bound_source => run_validation (with_source f (Some bound_source)) |}.

Record BoundField : Type := mkBoundField {
  field_name : string;
  source_attrs : list string;
  bound_run_validation : bool -> input -> M value
}.

(** [Field.bind]: a source equal to the field name trips the assertion. *)
Definition bind_field (name : string) (o : FieldObject) : result BoundField :=
  let redundant := match obj_source o with
                   | Some s => String.eqb s name
                   | None => false
                   end in
  if redundant then Raise AssertionError
  else
    let src := match obj_source o with
               | Some s => s
               | None => name
               end in
    Return {| field_name := name;
              source_attrs := if String.eqb src "*" then [] else split_dots src;
              bound_run_validation := obj_run_validation o src |}.

(** [Field.get_value]: lookup by key in a mapping. Input that is not a
    mapping is read by [getattr] with the default [empty]; the model
    answers [Absent] for it, which is what the code gives unless the
    field name is an attribute of the builtin type of the input. *)
Definition get_value (name : string) (dictionary : value) : input :=
  match dictionary with
  | VDict d =>
      match OrderedDict.get String.eqb d name with
      | Some v => Present v
      | None => Absent
      end
  | _ => Absent
  end.

(** ** [BaseFormSerializer] and [Serializer] *)

(** A serializer: its declared fields in declaration order, the
    [clean_<field_name>] methods it defines, its [clean] method, its
    [partial] flag, and the attributes it has as a [Field] (of which the
    class tag is not used; its validators are those of [Meta]). *)
Record Serializer : Type := mkSerializer {
  base_fields : list (string * FieldObject);
  clean_method : string -> option (value -> result value);
  clean : value -> result value;
  partial : bool;
  as_field : Field
}.

(** The [fields] property: every declared field bound, in order. *)
Fixpoint bind_all (declared : list (string * FieldObject))
  : result (list BoundField) :=
  match declared with
  | [] => Return []
  | (fn, o) :: rest =>
      match bind_field fn o with
      | Raise e => Raise e
      | Return b =>
          match bind_all rest with
          | Raise e => Raise e
          | Return bs => Return (b :: bs)
          end
      end
  end.

Definition fields (s : Serializer) : result (list BoundField) :=
  bind_all (base_fields s).

(** What one turn of the loop of [to_internal_value] does with a field:
    [field.run_validation] and then the [clean_<field_name>] method, if
    there is one. *)
Definition validate_field (s : Serializer) (root_partial : bool)
  (data : value) (b : BoundField) : M value :=
  validated_value <- bound_run_validation b root_partial
                       (get_value (field_name b) data) ;;
  match clean_method s (field_name b) with
  | Some validate_method => lift (validate_method validated_value)
  | None => ret validated_value
  end.

(** The loop of [BaseFormSerializer.to_internal_value] from some field on,
    with the value tree and the error tree built so far. *)
Fixpoint to_internal_value_loop (s : Serializer) (root_partial : bool)
  (data : value) (bs : list BoundField)
  (ret_tree : list (string * value)) (errors : list (key * details))
  : M value :=
  match bs with
  | [] =>
      match errors with
      | [] => ret (VDict ret_tree)
      | _ => raise (ValidationError (JsonDict errors))
      end
  | b :: rest =>
      match validate_field s root_partial data b with
      | (l, Return validated_value) =>
          match set_value ret_tree (source_attrs b) validated_value with
          | Return ret_tree' =>
              after l (to_internal_value_loop s root_partial data rest
                         ret_tree' errors)
          | Raise e => (l, Raise e)
          end
      | (l, Raise (ValidationError d)) =>
          after l (to_internal_value_loop s root_partial data rest ret_tree
                     (OrderedDict.set key_eqb errors (KName (field_name b)) d))
      | (l, Raise SkipFieldException) =>
          after l (to_internal_value_loop s root_partial data rest ret_tree
                     errors)
      | (l, Raise e) => (l, Raise e)
      end
  end.

(** [BaseFormSerializer.to_internal_value] *)
Definition to_internal_value (s : Serializer) (root_partial : bool)
  (data : value) : M value :=
  bs <- lift (fields s) ;;
  to_internal_value_loop s root_partial data bs [] [].

(** [BaseFormSerializer.run_validation]; a [ValidationError] of the
    validators or of [clean] is raised again with the same details. *)
Definition run_validation_with (f : Field) (root_partial : bool)
  (to_internal : value -> M value) (clean_hook : value -> result value)
  (data : input) : M value :=
  checked <- lift (validate_empty_values f root_partial data) ;;
  let (is_empty_value, data) := checked : bool * value in
  if is_empty_value then ret data
  else
    tell (CallToInternalValue data) ;;;
    value <- to_internal data ;;
    run_validators f value ;;;
    lift (clean_hook value).

Definition run_validation (s : Serializer) (root_partial : bool)
  (data : input) : M value :=
  run_validation_with (as_field s) root_partial
    (to_internal_value s root_partial) (clean s) data.

(** A serializer used as a field of another one, or as a child. *)
Definition of_serializer (s : Serializer) : FieldObject :=
  {| obj_source := source (as_field s);
     obj_run_validation :=
       fun bound_source root_partial =>
         run_validation_with (with_source (as_field s) (Some bound_source))
           root_partial (to_internal_value s root_partial) (clean s) |}.

Definition Serializer_default_error_messages : messages :=
  [("invalid",
    [Lit "Invalid data. Expected a dictionary, but got "; Arg "datatype";
     Lit "."])].

(** A serializer class with the given fields and no hooks, instantiated
    with the given [partial] flag. *)
Definition new_Serializer (declared : list (string * FieldObject))
  (is_partial : bool) (kw : kwargs) : Serializer :=
  {| base_fields := declared;
     clean_method := fun _ => None;
     clean := fun ret_tree => Return ret_tree;
     partial := is_partial;
     as_field := Field_init (UserField (fun v => Return v) (fun v => Return v))
                   Serializer_default_error_messages [] kw |}.

(** ** [ListSerializer] *)

Definition ListSerializer_default_error_messages : messages :=
  [("not_a_list",
    [Lit ("Expected a list of items but got type " ++ String dquote EmptyString);
     Arg "input_type"; Lit (String dquote ".")]);
   ("empty", [Lit "This list may not be empty."])].

(** A list serializer: the [run_validation] of its bound child (a function
    of the [partial] flag of the root), [allow_empty], its own [partial]
    flag, whether it has a parent, its [clean] method and the attributes
    it has as a [Field]. *)
Record ListSerializer : Type := mkListSerializer {
  child_run_validation : bool -> input -> M value;
  allow_empty : bool;
  list_partial : bool;
  has_parent : bool;
  list_clean : value -> result value;
  list_as_field : Field
}.

(** The child as [ListSerializer.__init__] binds it, under the empty
    name. *)
Definition bound_child (o : FieldObject) : bool -> input -> M value :=
  obj_run_validation o (match obj_source o with
                        | Some s => s
                        | None => EmptyString
                        end).

(** The loop of [ListSerializer.to_internal_value]: the error of a failing
    item is appended to [errors], the result of a valid one to [ret];
    at the end [any(errors)] decides. *)
Fixpoint list_loop (child : input -> M value) (data : list value)
  (ret_list : list value) (errors : list details) : M value :=
  match data with
  | [] =>
      if existsb details_truthy errors
      then raise (ValidationError (JsonList errors))
      else ret (VList ret_list)
  | item :: rest =>
      try_validation (child (Present item))
        (fun validated => list_loop child rest (ret_list ++ [validated])%list errors)
        (fun d => list_loop child rest ret_list (errors ++ [d])%list)
  end.

Definition ListSerializer_to_internal_value (ls : ListSerializer)
  (root_partial : bool) (data : value) : M value :=
  match data with
  | VList items =>
      if (negb (allow_empty ls) && Nat.eqb (List.length items) 0)%bool then
        if (has_parent ls && list_partial ls)%bool
        then raise SkipFieldException
        else lift (fail (error_messages (list_as_field ls)) "empty" [])
      else list_loop (child_run_validation ls root_partial) items [] []
  | _ =>
      lift (fail (error_messages (list_as_field ls)) "not_a_list"
              [("input_type", VStr (type_name data))])
  end.

Definition ListSerializer_run_validation (ls : ListSerializer)
  (root_partial : bool) (data : input) : M value :=
  run_validation_with (list_as_field ls) root_partial
    (ListSerializer_to_internal_value ls root_partial) (list_clean ls) data.

(** ** [is_valid] *)

(** The attributes that [is_valid] sets on the instance: [None] when the
    attribute does not exist yet; [_errors] holds Python's [None] (here
    [Some None]) or the details of the failure. *)
Record attributes : Type := mkAttributes {
  _validated_data : option value;
  _errors : option (option details)
}.

Definition fresh : attributes :=
  {| _validated_data := None; _errors := None |}.

(** The first statement of both [is_valid] methods: run the validation
    unless [_validated_data] exists; [on_error] is what [_validated_data]
    becomes when the validation fails. An exception that is not a
    [ValidationError] escapes and leaves the attributes as they were. *)
Definition validate_once (run : M value) (on_error : value)
  (st : attributes) : attributes * M unit :=
  match _validated_data st with
  | Some _ => (st, ret tt)
  | None =>
      match run with
      | (l, Return v) =>
          ({| _validated_data := Some v; _errors := Some None |},
           (l, Return tt))
      | (l, Raise (ValidationError d)) =>
          ({| _validated_data := Some on_error; _errors := Some (Some d) |},
           (l, Return tt))
      | (l, Raise e) => (st, (l, Raise e))
      end
  end.

(** [BaseFormSerializer.is_valid(raise_exc)]; [run] is
    [self.run_validation(self._request_data)]. *)
Definition is_valid (run : M value) (raise_exc : bool) (st : attributes)
  : attributes * M bool :=
  let (st', m) := validate_once run (VDict []) st in
  (st',
   m ;;;
   match _errors st' with
   | None => raise AttributeError
   | Some None => ret true
   | Some (Some d) =>
       if details_truthy d then
         if raise_exc then raise (ValidationError d)
         else ret (negb (details_truthy d))
       else ret (negb (details_truthy d))
   end).

(** [ListSerializer.is_valid(raise_exception)]: its condition reads
    [self._errors and raise_exc], and no [raise_exc] is defined in the
    method, in the module or among the builtins, so looking it up raises
    [NameError]; [and] evaluates it only when [self._errors] is true. *)
Definition ListSerializer_is_valid (run : M value) (raise_exception : bool)
  (st : attributes) : attributes * M bool :=
  let (st', m) := validate_once run (VList []) st in
  (st',
   m ;;;
   match _errors st' with
   | None => raise AttributeError
   | Some None => ret true
   | Some (Some d) =>
       if details_truthy d then raise (NameError "raise_exc")
       else ret (negb (details_truthy d))
   end).

(** [self.run_validation(self._request_data)] on a serializer that has
    no parent: it is its own root, so the [partial] flag that its fields
    read is its own. *)
Definition validate_request (s : Serializer) (request_data : input)
  : M value :=
  run_validation s (partial s) request_data.

Definition ListSerializer_validate_request (ls : ListSerializer)
  (request_data : input) : M value :=
  ListSerializer_run_validation ls (list_partial ls) request_data.

End Serializers.

(* ===================================================================== *)
(** * Properties *)
(* ===================================================================== *)

Import Functional Validators Fields Serializers.

(** ** Concrete fields and schemas used in the statements *)

Definition required_kwargs : kwargs :=
  {| kw_required := true; kw_allow_null := false; kw_default := None;
     kw_source := None; kw_validators := []; kw_error_messages := [] |}.

(** [ChoiceField(choices={1: "First", 2: "Second"})] *)
Definition first_second_dict : Field :=
  new_ChoiceField
    (choices_of_dict [(SInt 1, VStr "First"); (SInt 2, VStr "Second")])
    false no_kwargs.

(** [ChoiceField(choices=[(1, "First"), (2, "Second")])] *)
Definition first_second_pairs : Field :=
  new_ChoiceField [Pair (SInt 1) (VStr "First"); Pair (SInt 2) (VStr "Second")]
    false no_kwargs.

(** The message of [invalid_choice] for the input text [s]. *)
Definition not_a_valid_choice (s : string) : string :=
  String dquote (s ++ String dquote " is not a valid choice.").

Definition required_message : string := "This field is required.".
Definition invalid_integer_message : string := "A valid integer is required.".

(** [IntegerField(required=True)] *)
Definition required_integer : Field :=
  new_IntegerField None None required_kwargs.

(** [ListField(child=IntegerField())] *)
Definition integer_list_field : Field :=
  new_ListField (new_IntegerField None None no_kwargs) true None None no_kwargs.

(** [class Ages(Serializer): age = IntegerField(required=True)] *)
Definition ages (is_partial : bool) : Serializer :=
  new_Serializer [("age", of_field required_integer)] is_partial no_kwargs.

(** [ListSerializer(child=Ages())] *)
Definition ages_list : ListSerializer :=
  {| child_run_validation := bound_child (of_serializer (ages false));
     allow_empty := true;
     list_partial := false;
     has_parent := false;
     list_clean := fun v => Return v;
     list_as_field := Field_init (UserField (fun v => Return v) (fun v => Return v))
                        ListSerializer_default_error_messages [] no_kwargs |}.

Definition three_ages : value :=
  VList [VDict [("age", VStr "x")]; VDict [("age", VStr "1")];
         VDict [("age", VStr "y")]].

(** [class Person(Serializer): name = CharField(required=True);
    age = IntegerField(required=True)] *)
Definition person (is_partial : bool) : Serializer :=
  new_Serializer
    [("name", of_field (new_CharField false true None None required_kwargs));
     ("age", of_field required_integer)]
    is_partial no_kwargs.

(** [CharField(max_length=1)] *)
Definition one_character : Field :=
  new_CharField false true (Some 1) None no_kwargs.

(** [class Entry(Serializer): a = CharField(max_length=1);
    b = IntegerField(required=True)] *)
Definition entry_schema : Serializer :=
  new_Serializer
    [("a", of_field one_character); ("b", of_field required_integer)]
    false no_kwargs.

(** [CharField(min_length=5, max_length=1)]: no text keeps both limits. *)
Definition impossible_length : Field :=
  new_CharField false true (Some 1) (Some 5) no_kwargs.

(** [IntegerField(allow_null=True, source='*')] *)
Definition nullable_wildcard_integer : Field :=
  new_IntegerField None None
    {| kw_required := false; kw_allow_null := true; kw_default := None;
       kw_source := Some "*"; kw_validators := []; kw_error_messages := [] |}.

(** [CharField(allow_blank=True, min_length=5)] *)
Definition blank_min_length : Field :=
  new_CharField true true None (Some 5) no_kwargs.

(** The steps of [Field.run_validation] that follow
    [validate_empty_values]. *)
Definition convert_and_validate (f : Field) (partial : bool) (data : value)
  : M value :=
  tell (CallToInternalValue data) ;;;
  value <- Fields.to_internal_value f partial data ;;
  run_validators f value ;;;
  ret value.

(** ** Vocabulary of the statements *)

(** The exceptions that the loops do not catch: anything but
    [ValidationError] (and, where noted, [SkipFieldException]). *)
Definition is_validation_error {A} (r : result A) : bool :=
  match r with
  | Raise (ValidationError _) => true
  | _ => false
  end.

Definition returns_or_fails {A} (r : result A) : bool :=
  match r with
  | Return _ | Raise (ValidationError _) => true
  | Raise _ => false
  end.

(** The details of a failure, as a list of at most one element. *)
Definition failure_details {A} (r : result A) : list details :=
  match r with
  | Raise (ValidationError d) => [d]
  | _ => []
  end.

(** The messages of the validators that fail on [v], in declaration
    order. *)
Definition validator_failures (vs : list validator) (v : value) : list details :=
  flat_map (fun validator => failure_details (validator v)) vs.

(** [CallValidator i v] for [i] from [from] to [from + n - 1]. *)
Definition validator_calls (from n : nat) (v : value) : list event :=
  map (fun i => CallValidator i v) (seq from n).

(** A validator that fails with the given message, and one that passes. *)
Definition failing (message : string) : validator :=
  fun _ => Raise (ValidationError (Text message)).
Definition passing : validator := fun _ => Return tt.

Definition three_validators : Field :=
  new_IntegerField None None
    {| kw_required := false; kw_allow_null := false; kw_default := None;
       kw_source := None;
       kw_validators := [failing "too small"; passing; failing "odd"];
       kw_error_messages := [] |}.

(** What [is_valid] leaves on the instance after a failed validation of
    a list serializer. *)
Definition failed_list (d : details) : attributes :=
  {| _validated_data := Some (VList []); _errors := Some (Some d) |}.

Definition not_a_list_message (type : string) : string :=
  "Expected a list of items but got type " ++ String dquote (type ++ String dquote ".").

(** How the loop of [to_internal_value] sees the result of a field: a
    value, a validation error, a skip; anything else escapes the loop. *)
Definition handled {A} (r : result A) : bool :=
  match r with
  | Return _ | Raise (ValidationError _) | Raise SkipFieldException => true
  | Raise _ => false
  end.

Definition is_skip {A} (r : result A) : bool :=
  match r with
  | Raise SkipFieldException => true
  | _ => false
  end.

Section SchemaVocabulary.
Variables (s : Serializer) (root_partial : bool) (data : value).

Definition field_result (b : BoundField) : result value :=
  outcome (validate_field s root_partial data b).

(** The entries of the error tree: the failing fields under their names,
    in declaration order. *)
Definition field_errors (bs : list BoundField) : list (key * details) :=
  flat_map (fun b => map (pair (KName (field_name b)))
                         (failure_details (field_result b))) bs.

(** The validated values with their source paths, in declaration order. *)
Definition field_values (bs : list BoundField) : list (list string * value) :=
  flat_map (fun b => match field_result b with
                     | Return v => [(source_attrs b, v)]
                     | Raise _ => []
                     end) bs.

Definition not_skipped (b : BoundField) : bool := negb (is_skip (field_result b)).
End SchemaVocabulary.

(** The value tree: [set_value] for each entry in turn. *)
Fixpoint assemble (tree : list (string * value))
  (entries : list (list string * value)) : result (list (string * value)) :=
  match entries with
  | [] => Return tree
  | (keys, v) :: rest =>
      match set_value tree keys v with
      | Return tree' => assemble tree' rest
      | Raise e => Raise e
      end
  end.

(** [class Profile(Serializer)] with a required string [name], an optional
    integer [age] without default, a required integer [zip] and a string
    [city] with source [address.city]. *)
Definition profile : Serializer :=
  new_Serializer
    [("name", of_field (new_CharField false true None None required_kwargs));
     ("age", of_field (new_IntegerField None None no_kwargs));
     ("zip", of_field required_integer);
     ("city", of_field (new_CharField false true None None
                          {| kw_required := false; kw_allow_null := false;
                             kw_default := None; kw_source := Some "address.city";
                             kw_validators := []; kw_error_messages := [] |}))]
    false no_kwargs.

Definition bound_fields (s : Serializer) : list BoundField :=
  match fields s with
  | Return bs => bs
  | Raise _ => []
  end.

Definition blank_message : string := "This field may not be blank.".

(** Input for [profile]: a blank [name], no [age], a malformed [zip]. *)
Definition profile_bad : list (string * value) :=
  [("name", VStr "  "); ("zip", VStr "x"); ("city", VStr "NY")].

(** Input for [profile] that is valid; [age] is absent. *)
Definition profile_good : list (string * value) :=
  [("name", VStr "Ann"); ("zip", VStr "1"); ("city", VStr "NY")].

Definition too_large_message : string := "String value too large.".

(** ["1." + "0" * 1000], a text of 1002 characters *)
Definition long_decimal : string :=
  "1" ++ String "." (repeat_char "0" 1000).

(** The classes of fields.py that convert single values of the value
    universe. *)
Definition converts_scalars (c : FieldClass) : bool :=
  match c with
  | BooleanField | NullBooleanField | CharField _ _ | IntegerField
  | ChoiceField _ _ => true
  | ListField _ _ _ | UserField _ _ => false
  end.

Definition is_choice_class (c : FieldClass) : bool :=
  match c with
  | ChoiceField _ _ => true
  | _ => false
  end.

(** [IntegerField()] *)
Definition plain_integer : Field := new_IntegerField None None no_kwargs.

(** [ChoiceField(choices=["None"])] *)
Definition none_text_choice : Field :=
  new_ChoiceField [Single (SStr "None")] false no_kwargs.

Section ListVocabulary.
Variable child : input -> M value.

Definition item_result (item : value) : result value :=
  outcome (child (Present item)).

(** The errors of the failing items, each under its position in the
    list, counting from [idx]. *)
Fixpoint indexed_failures (idx : nat) (items : list value)
  : list (key * details) :=
  match items with
  | [] => []
  | item :: rest =>
      (map (pair (KIndex idx)) (failure_details (item_result item))
         ++ indexed_failures (S idx) rest)%list
  end.


(** The results of the valid items. *)
Definition item_values (items : list value) : list value :=
  flat_map (fun item => match item_result item with
                        | Return v => [v]
                        | Raise _ => []
                        end) items.
End ListVocabulary.

(* ===================================================================== *)
(** * Representation: [get_attribute] and [to_representation] *)
(* ===================================================================== *)

Module Representation.

Section Walk.

(** [getattr(instance, attr)] on an instance that is neither [None] nor
    a mapping, followed by the call of what it finds when that is a
    simple callable, with the [ValueError] that replaces a [KeyError] or
    [AttributeError] of the call. The builtin types have attributes and
    methods of their own and the instance may be an object of any class,
    so the walk is modelled for every such function. *)
Variable getattr : value -> string -> result value.

(** [binwen.utils.functional.get_attribute], as on the interpreters the
    package declares (3.4 to 3.7), where [collections.Mapping] exists: the
    path is walked through mappings by key and through other values by
    attribute; [None] on the way ends the walk with [None]; a missing key
    raises [KeyError]. The values of a mapping of this universe are not
    callable. *)
Fixpoint get_attribute (instance : value) (attributes : list string)
  : result value :=
  match attributes with
  | [] => Return instance
  | attr :: rest =>
      match instance with
      | VNone => Return VNone
      | VDict d =>
          match OrderedDict.get String.eqb d attr with
          | Some v => get_attribute v rest
          | None => Raise KeyError
          end
      | _ =>
          match getattr instance attr with
          | Return v => get_attribute v rest
          | Raise e => Raise e
          end
      end
  end.

(** [Field.get_attribute]: a [KeyError] or [AttributeError] of the walk
    is answered by the default, by [None] for a nullable field, by a skip
    for an optional one, and raised again (with a longer message)
    otherwise. *)
Definition Field_get_attribute (f : Field) (partial : bool)
  (source_attrs : list string) (instance : value) : result value :=
  match get_attribute instance source_attrs with
  | Return v => Return v
  | Raise exc =>
      match exc with
      | KeyError | AttributeError =>
          match default f with
          | Some _ => get_default f partial
          | None =>
              if allow_null f then Return VNone
              else if negb (required f) then Raise SkipFieldException
              else Raise exc
          end
      | _ => Raise exc
      end
  end.

(** What [BaseFormSerializer.to_representation] uses of a serializer: its
    fields in declaration order, each bound to its source path; the
    [clean_<field_name>] methods, here called with the instance and the
    represented value; the [clean] method; the [partial] flag of the
    root. *)
Record Representer : Type := mkRepresenter {
  rep_fields : list (string * (list string * Field));
  rep_clean_method : string -> option (value -> value -> result value);
  rep_clean : list (string * value) -> result value;
  rep_partial : bool
}.

(** One turn of the loop: [None] when the field is skipped. *)
Definition represent_field (r : Representer) (instance : value)
  (field_name : string) (source_attrs : list string) (f : Field)
  : result (option value) :=
  match Field_get_attribute f (rep_partial r) source_attrs instance with
  | Raise SkipFieldException => Return None
  | Raise e => Raise e
  | Return attribute =>
      match Fields.to_representation f attribute with
      | Raise e => Raise e
      | Return attr_data =>
          match rep_clean_method r field_name with
          | None => Return (Some attr_data)
          | Some method =>
              match method instance attr_data with
              | Return cleaned => Return (Some cleaned)
              | Raise e => Raise e
              end
          end
      end
  end.

Fixpoint represent_loop (r : Representer) (instance : value)
  (fs : list (string * (list string * Field)))
  (ret_tree : list (string * value)) : result (list (string * value)) :=
  match fs with
  | [] => Return ret_tree
  | (field_name, (source_attrs, f)) :: rest =>
      match represent_field r instance field_name source_attrs f with
      | Raise e => Raise e
      | Return None => represent_loop r instance rest ret_tree
      | Return (Some attr_data) =>
          represent_loop r instance rest
            (OrderedDict.set String.eqb ret_tree field_name attr_data)
      end
  end.

(** [BaseFormSerializer.to_representation]; what [clean] returns replaces
    the mapping unless it is [None]. *)
Definition Serializer_to_representation (r : Representer) (instance : value)
  : result value :=
  match represent_loop r instance (rep_fields r) [] with
  | Raise e => Raise e
  | Return ret_tree =>
      match rep_clean r ret_tree with
      | Raise e => Raise e
      | Return VNone => Return (VDict ret_tree)
      | Return cleaned_data => Return cleaned_data
      end
  end.

End Walk.

(** The [clean] of [BaseFormSerializer]: the mapping itself. *)
Definition default_clean (ret_tree : list (string * value)) : result value :=
  Return (VDict ret_tree).

(** [ListSerializer.to_representation]: the child's representation of
    every item. *)
Fixpoint represent_all (child : value -> result value) (data : list value)
  : result (list value) :=
  match data with
  | [] => Return []
  | item :: rest =>
      match child item with
      | Raise e => Raise e
      | Return r =>
          match represent_all child rest with
          | Raise e => Raise e
          | Return rs => Return (r :: rs)
          end
      end
  end.

End Representation.

(* ===================================================================== *)
(** * [DeclarativeFieldsMetaclass._get_declared_fields] *)
(* ===================================================================== *)

Module Declaration.
Section Declared.
Variable F : Type.

(** An attribute of a class body: a field, or anything else. *)
Inductive attribute : Type :=
| IsField (f : F)
| Other.

(** The comprehension that pops the fields off the class body. *)
Definition own_fields (attrs : list (string * attribute)) : list (string * F) :=
  flat_map (fun kv => match snd kv with
                      | IsField f => [(fst kv, f)]
                      | Other => []
                      end) attrs.

(** What is left in [attrs] after the fields were popped. *)
Definition remaining (attrs : list (string * attribute)) : list string :=
  flat_map (fun kv => match snd kv with
                      | IsField _ => []
                      | Other => [fst kv]
                      end) attrs.

Definition mem (name : string) (names : list string) : bool :=
  existsb (String.eqb name) names.

(** The fields inherited from one base; [None] is a base without
    [declared_fields]. *)
Definition inherited (attrs : list (string * attribute))
  (base : option (list (string * F))) : list (string * F) :=
  match base with
  | None => []
  | Some declared =>
      filter (fun kv => negb (mem (fst kv) (remaining attrs))) declared
  end.

(** [OrderedDict(pairs)] *)
Definition of_pairs (pairs : list (string * F)) : list (string * F) :=
  fold_left (fun d kv => OrderedDict.set String.eqb d (fst kv) (snd kv)) pairs [].

(** [_get_declared_fields(bases, attrs)]: the own fields, then those of
    the bases from the last base to the first, all put into one
    [OrderedDict]. *)
Definition get_declared_fields (bases : list (option (list (string * F))))
  (attrs : list (string * attribute)) : list (string * F) :=
  of_pairs (own_fields attrs ++ flat_map (inherited attrs) (List.rev bases))%list.
End Declared.
Arguments IsField {F} f.
Arguments Other {F}.
Arguments own_fields {F} attrs.
Arguments remaining {F} attrs.
Arguments inherited {F} attrs base.
Arguments of_pairs {F} pairs.
Arguments get_declared_fields {F} bases attrs.
End Declaration.

(* ===================================================================== *)
(** * The properties [errors] and [validated_data] *)
(* ===================================================================== *)

Module Properties.
Import Serializers.

(** [BaseFormSerializer.errors]: an assertion guards the access before
    [is_valid]. *)
Definition errors (st : attributes) : result (option details) :=
  match _errors st with
  | None => Raise AssertionError
  | Some e => Return e
  end.

(** [BaseFormSerializer.validated_data] *)
Definition validated_data (st : attributes) : result value :=
  match _validated_data st with
  | None => Raise AssertionError
  | Some v => Return v
  end.

(** What the property [data] reads and writes on a serializer: the
    instance ([None] when there is none), the request data, the
    attributes that [is_valid] sets and the attribute [_data]. *)
Record object : Type := mkObject {
  instance : value;
  _request_data : input;
  validation : attributes;
  _data : option value
}.

(** The values of the request that belong to declared fields. *)
Definition submitted (d : list (string * value)) (bs : list BoundField)
  : list (string * value) :=
  flat_map (fun b => match get_value (field_name b) (VDict d) with
                     | Present v => [(field_name b, v)]
                     | Absent => []
                     end) bs.

(** The list of [(field.field_name, field.get_initial())]; [initial] is
    [get_initial] of the field of that name, which calls the [initial]
    argument of the field when that is callable. *)
Fixpoint initial_values (initial : string -> result value)
  (bs : list BoundField) : result (list (string * value)) :=
  match bs with
  | [] => Return []
  | b :: rest =>
      match initial (field_name b) with
      | Raise e => Raise e
      | Return v =>
          match initial_values initial rest with
          | Raise e => Raise e
          | Return vs => Return ((field_name b, v) :: vs)
          end
      end
  end.

(** [BaseFormSerializer.get_initial] *)
Definition get_initial (s : Serializer) (initial : string -> result value)
  (request_data : input) : result value :=
  match request_data with
  | Present (VDict d) =>
      match fields s with
      | Raise e => Raise e
      | Return bs => Return (VDict (Declaration.of_pairs (submitted d bs)))
      end
  | Present _ => Return (VDict [])
  | Absent =>
      match fields s with
      | Raise e => Raise e
      | Return bs =>
          match initial_values initial bs with
          | Raise e => Raise e
          | Return vs => Return (VDict (Declaration.of_pairs vs))
          end
      end
  end.

(** [not getattr(self, '_errors', None)] *)
Definition no_errors (st : attributes) : bool :=
  match _errors st with
  | Some (Some d) => negb (details_truthy d)
  | _ => true
  end.

(** The property [BaseFormSerializer.data]; [represent] is
    [self.to_representation]. What is computed is kept in [_data]. *)
Definition data (s : Serializer) (represent : value -> result value)
  (initial : string -> result value) (o : object) : object * result value :=
  let unvalidated := match _request_data o, _validated_data (validation o) with
                     | Present _, None => true
                     | _, _ => false
                     end in
  if unvalidated then (o, Raise AssertionError)
  else
    match _data o with
    | Some d => (o, Return d)
    | None =>
        let is_none := match instance o with
                       | VNone => true
                       | _ => false
                       end in
        let computed :=
          if (negb is_none && no_errors (validation o))%bool
          then represent (instance o)
          else match _validated_data (validation o) with
               | Some v =>
                   if no_errors (validation o) then Return v
                   else get_initial s initial (_request_data o)
               | None => get_initial s initial (_request_data o)
               end in
        match computed with
        | Return d =>
            ({| instance := instance o; _request_data := _request_data o;
                validation := validation o; _data := Some d |},
             Return d)
        | Raise e => (o, Raise e)
        end
    end.

End Properties.

Import Representation Declaration Properties.

(** ** Further vocabulary *)

(** [sep.join(parts)] is [Py.join]; two paths part ways when, after a
    common prefix, they go on with different keys. *)
Definition part_ways (p q : list string) : Prop :=
  exists prefix a b p' q',
    p = (prefix ++ a :: p')%list /\ q = (prefix ++ b :: q')%list /\ a <> b.

(** [getattr] for a name that is no attribute of the instance. *)
Definition no_attribute (instance : value) (attr : string) : result value :=
  Raise AttributeError.

(** The nested mapping that holds [v] under the path [key :: more]. *)
Fixpoint nest (key : string) (more : list string) (v : value)
  : list (string * value) :=
  match more with
  | [] => [(key, v)]
  | key' :: more' => [(key, VDict (nest key' more' v))]
  end.

(** The keys of the flattened choices of a choice field. *)
Definition declared_keys (choices : list choice) : list scalar :=
  OrderedDict.keys (flatten_choices_dict (to_choices_dict choices)).

(** [city = CharField(source='address.city')] *)
Definition city_field : Field :=
  new_CharField false true None None
    {| kw_required := false; kw_allow_null := false; kw_default := None;
       kw_source := Some "address.city"; kw_validators := [];
       kw_error_messages := [] |}.

(** The entries that the loop of [to_representation] makes of the fields
    [fs]: one for every field that is not skipped. *)
Definition represented (getattr : value -> string -> result value)
  (r : Representer) (instance : value)
  (fs : list (string * (list string * Field))) : list (string * value) :=
  flat_map (fun entry =>
              match represent_field getattr r instance
                      (fst entry) (fst (snd entry)) (snd (snd entry)) with
              | Return (Some attr_data) => [(fst entry, attr_data)]
              | _ => []
              end) fs.

(** The field that the first of [bases] to declare [name] has under it. *)
Fixpoint inherited_field {F} (bases : list (option (list (string * F))))
  (name : string) : option F :=
  match bases with
  | [] => None
  | None :: rest => inherited_field rest name
  | Some declared :: rest =>
      match OrderedDict.get String.eqb declared name with
      | Some f => Some f
      | None => inherited_field rest name
      end
  end.

(** [ListField(allow_empty=...)], with the default child. *)
Definition plain_list_field (allow_empty : bool) : Field :=
  new_ListField UnvalidatedField allow_empty None None no_kwargs.

(** The key of one element of a [choices] argument. *)
Definition choice_key (c : choice) : scalar := fst (choice_entry c).

(** The keys that one element of a [choices] argument offers: its own
    key; for a group, the keys of its members; for a pair whose display
    value is a mapping, the keys of that mapping. *)
Definition leaf_keys (c : choice) : list scalar :=
  match c with
  | Single k => [k]
  | Pair k (VDict d) => map (fun sk => SStr (fst sk)) d
  | Pair k _ => [k]
  | Group _ sub => map choice_key sub
  end.

(** ** Characters, [strip], [int] and the decimal pattern *)

Ltac all_chars c :=
  destruct c as [[|] [|] [|] [|] [|] [|] [|] [|]].

Lemma is_digit_cases (c : ascii) :
  is_digit c = true ->
  (c = "0" \/ c = "1" \/ c = "2" \/ c = "3" \/ c = "4"
   \/ c = "5" \/ c = "6" \/ c = "7" \/ c = "8" \/ c = "9")%char.
Proof.
  all_chars c; vm_compute; intros H; try discriminate H; tauto.
Qed.

Lemma digit_is_plain (c : ascii) :
  is_digit c = true ->
  is_space c = false /\ is_int_space c = false
  /\ Ascii.eqb c "+" = false /\ Ascii.eqb c "-" = false
  /\ Ascii.eqb c "." = false /\ Ascii.eqb c "_" = false.
Proof.
  intros H. apply is_digit_cases in H.
  repeat destruct H as [-> | H]; try subst c; now vm_compute.
Qed.

Section StripFacts.
Variable sp : ascii -> bool.

Lemma lstrip_by_head (s : string) :
  match lstrip_by sp s with
  | EmptyString => True
  | String c _ => sp c = false
  end.
Proof.
  induction s as [ | c r IH]; cbn; [exact I | ].
  destruct (sp c) eqn:E; [exact IH | exact E].
Qed.

Lemma lstrip_by_fixed (c : ascii) (r : string) :
  sp c = false -> lstrip_by sp (String c r) = String c r.
Proof. intros H. cbn. now rewrite H. Qed.

Lemma rstrip_by_head (c : ascii) (r : string) :
  sp c = false -> exists r', rstrip_by sp (String c r) = String c r'.
Proof.
  intros H. cbn. destruct (rstrip_by sp r); [rewrite H | ]; eauto.
Qed.

Lemma rstrip_by_cons (c : ascii) (r : string) :
  rstrip_by sp (String c r)
  = match rstrip_by sp r with
    | EmptyString => if sp c then EmptyString else String c EmptyString
    | r' => String c r'
    end.
Proof. reflexivity. Qed.

Lemma rstrip_by_idempotent (s : string) :
  rstrip_by sp (rstrip_by sp s) = rstrip_by sp s.
Proof.
  induction s as [ | c r IH]; [reflexivity | ].
  rewrite rstrip_by_cons.
  destruct (rstrip_by sp r) as [ | c' r'] eqn:E.
  - destruct (sp c) eqn:Ec; [reflexivity | ].
    rewrite rstrip_by_cons. cbn. now rewrite Ec.
  - rewrite rstrip_by_cons, IH. reflexivity.
Qed.

Lemma rstrip_by_unchanged (s : string) :
  (forall c, contains c s = true -> sp c = false) -> rstrip_by sp s = s.
Proof.
  induction s as [ | c r IH]; intros H; [reflexivity | ].
  rewrite rstrip_by_cons, IH.
  - destruct r; [ | reflexivity].
    rewrite (H c); [reflexivity | ]. cbn. now rewrite Ascii.eqb_refl.
  - intros c' Hc'. apply H. cbn. rewrite Hc'. apply orb_true_r.
Qed.

Lemma lstrip_by_unchanged (s : string) :
  (forall c, contains c s = true -> sp c = false) -> lstrip_by sp s = s.
Proof.
  destruct s as [ | c r]; intros H; [reflexivity | ].
  apply lstrip_by_fixed. apply H. cbn. now rewrite Ascii.eqb_refl.
Qed.

Lemma strip_by_unchanged (s : string) :
  (forall c, contains c s = true -> sp c = false) -> strip_by sp s = s.
Proof.
  intros H. unfold strip_by. rewrite (lstrip_by_unchanged s H).
  now apply rstrip_by_unchanged.
Qed.

(** Stripping removes none of the characters that are not stripped. *)
Lemma contains_lstrip_by (d : ascii) (s : string) :
  sp d = false -> contains d (lstrip_by sp s) = contains d s.
Proof.
  intros Hd. induction s as [ | c r IH]; [reflexivity | ].
  cbn. destruct (sp c) eqn:E; [ | reflexivity].
  rewrite IH. destruct (Ascii.eqb_spec d c) as [-> | ]; [congruence | reflexivity].
Qed.

Lemma contains_rstrip_by (d : ascii) (s : string) :
  sp d = false -> contains d (rstrip_by sp s) = contains d s.
Proof.
  intros Hd. induction s as [ | c r IH]; [reflexivity | ].
  rewrite rstrip_by_cons. cbn [contains]. rewrite <- IH.
  destruct (rstrip_by sp r) as [ | c' r']; [ | reflexivity].
  destruct (sp c) eqn:E; cbn; [ | reflexivity].
  destruct (Ascii.eqb_spec d c) as [-> | ]; [congruence | reflexivity].
Qed.

Lemma strip_by_idempotent (s : string) :
  strip_by sp (strip_by sp s) = strip_by sp s.
Proof.
  unfold strip_by.
  pose proof (lstrip_by_head s) as Hhead.
  destruct (lstrip_by sp s) as [ | c r]; [reflexivity | ].
  destruct (rstrip_by_head c r Hhead) as [r' E].
  rewrite E, (lstrip_by_fixed c r' Hhead), <- E.
  apply rstrip_by_idempotent.
Qed.

End StripFacts.

Lemma strip_idempotent (s : string) : strip (strip s) = strip s.
Proof. apply strip_by_idempotent. Qed.

(** *** Decimal digits *)

Lemma all_digits_contains (s : string) (c : ascii) :
  all_digits s = true -> contains c s = true -> is_digit c = true.
Proof.
  induction s as [ | c' r IH]; cbn; [discriminate | ].
  intros H Hc. apply andb_true_iff in H as [Hc' Hr].
  apply orb_true_iff in Hc as [Hc | Hc]; [ | now apply IH].
  apply Ascii.eqb_eq in Hc. now subst.
Qed.

Lemma literal_digits_of_digits (s : string) :
  all_digits s = true ->
  literal_digits true s = Some s
  /\ (s <> EmptyString -> literal_digits false s = Some s).
Proof.
  induction s as [ | c r IH]; cbn; intros H; [now split | ].
  apply andb_true_iff in H as [Hc Hr]. rewrite Hc.
  destruct (IH Hr) as [IHt _]. rewrite IHt. now split.
Qed.

Lemma digits_denote (s : string) :
  all_digits s = true ->
  exists d, NilEmpty.uint_of_string s = Some d
            /\ forall a, Z.of_N (DecimalPos.Unsigned.of_lu (revapp d a))
                         = decimal_from (Z.of_N (DecimalPos.Unsigned.of_lu a)) s.
Proof.
  induction s as [ | c r IH]; cbn [all_digits]; intros H.
  - exists Nil. now split.
  - apply andb_true_iff in H as [Hc Hr].
    destruct (IH Hr) as [d [Hd Hval]].
    cbn [NilEmpty.uint_of_string decimal_from]. rewrite Hd.
    apply is_digit_cases in Hc.
    repeat destruct Hc as [-> | Hc]; try subst c;
      (eexists; split; [reflexivity | ]; intros a; cbn [revapp];
       rewrite Hval; f_equal; cbn [DecimalPos.Unsigned.of_lu];
       rewrite ?N2Z.inj_add, ?N2Z.inj_mul;
       change (digit_value "0") with 0; change (digit_value "1") with 1;
       change (digit_value "2") with 2; change (digit_value "3") with 3;
       change (digit_value "4") with 4; change (digit_value "5") with 5;
       change (digit_value "6") with 6; change (digit_value "7") with 7;
       change (digit_value "8") with 8; change (digit_value "9") with 9;
       lia).
Qed.

Lemma int_of_digits_value (s : string) :
  all_digits s = true -> s <> EmptyString ->
  int_of_digits s = Some (decimal_value s).
Proof.
  intros H Hne. unfold int_of_digits.
  rewrite (proj2 (literal_digits_of_digits s H) Hne).
  destruct (digits_denote s H) as [d [Hd Hval]].
  assert (NilZero.uint_of_string s = Some d) as ->
      by (destruct s; [congruence | exact Hd]).
  cbn. f_equal. unfold Z.of_uint.
  rewrite DecimalPos.Unsigned.of_uint_alt. exact (Hval Nil).
Qed.

(** [int] of a non-empty sequence of digits is the number it denotes. *)
Lemma int_of_str_digits (s : string) :
  all_digits s = true -> s <> EmptyString ->
  int_of_str s = Some (decimal_value s).
Proof.
  intros H Hne. unfold int_of_str.
  rewrite strip_by_unchanged.
  - destruct s as [ | c r]; [congruence | ].
    assert (is_digit c = true) as Hc
        by (cbn in H; now apply andb_true_iff in H).
    destruct (digit_is_plain c Hc) as [_ [_ [-> [-> _]]]].
    now apply int_of_digits_value.
  - intros c Hc. now apply digit_is_plain, (all_digits_contains s).
Qed.

Lemma string_of_uint_digits (d : uint) :
  all_digits (NilEmpty.string_of_uint d) = true.
Proof. induction d; cbn; auto. Qed.

Lemma string_of_uint_nonempty (d : uint) :
  d <> Nil -> NilEmpty.string_of_uint d <> EmptyString.
Proof. destruct d; cbn; congruence. Qed.

Lemma int_of_digits_of_pos (p : positive) :
  int_of_digits (NilEmpty.string_of_uint (Pos.to_uint p)) = Some (Zpos p).
Proof.
  pose proof (DecimalPos.Unsigned.to_uint_nonnil p) as Hnil.
  unfold int_of_digits.
  rewrite (proj2 (literal_digits_of_digits _ (string_of_uint_digits _))
             (string_of_uint_nonempty _ Hnil)).
  assert (NilZero.uint_of_string (NilEmpty.string_of_uint (Pos.to_uint p))
          = Some (Pos.to_uint p)) as ->.
  { pose proof (NilZero.usu (Pos.to_uint p) Hnil) as H.
    unfold NilZero.string_of_uint in H.
    destruct (Pos.to_uint p); [congruence | exact H ..]. }
  cbn. unfold Z.of_uint. now rewrite DecimalPos.Unsigned.of_to.
Qed.

(** [int(str(n)) == n] *)
Lemma int_of_str_of_int (n : Z) : int_of_str (str_of_int n) = Some n.
Proof.
  destruct n as [ | p | p]; [reflexivity | | ].
  - unfold str_of_int. cbn [Z.to_int NilZero.string_of_int].
    pose proof (DecimalPos.Unsigned.to_uint_nonnil p) as Hnil.
    assert (NilZero.string_of_uint (Pos.to_uint p)
            = NilEmpty.string_of_uint (Pos.to_uint p)) as ->
        by (unfold NilZero.string_of_uint; destruct (Pos.to_uint p); congruence).
    unfold int_of_str. rewrite strip_by_unchanged.
    + pose proof (string_of_uint_digits (Pos.to_uint p)) as Hd.
      pose proof (int_of_digits_of_pos p) as Hv.
      destruct (NilEmpty.string_of_uint (Pos.to_uint p)) as [ | c r];
        [discriminate Hv | ].
      assert (is_digit c = true) as Hc
          by (cbn in Hd; now apply andb_true_iff in Hd).
      destruct (digit_is_plain c Hc) as [_ [_ [-> [-> _]]]]. exact Hv.
    + intros c Hc.
      now apply digit_is_plain, (all_digits_contains _ c (string_of_uint_digits (Pos.to_uint p))).
  - unfold str_of_int. cbn [Z.to_int NilZero.string_of_int].
    pose proof (DecimalPos.Unsigned.to_uint_nonnil p) as Hnil.
    assert (NilZero.string_of_uint (Pos.to_uint p)
            = NilEmpty.string_of_uint (Pos.to_uint p)) as ->
        by (unfold NilZero.string_of_uint; destruct (Pos.to_uint p); congruence).
    unfold int_of_str. rewrite strip_by_unchanged.
    + change (Ascii.eqb "-" "+") with false. change (Ascii.eqb "-" "-") with true.
      cbn iota. now rewrite int_of_digits_of_pos.
    + intros c Hc. cbn in Hc. apply orb_true_iff in Hc as [Hc | Hc].
      * apply Ascii.eqb_eq in Hc. now subst.
      * now apply digit_is_plain, (all_digits_contains _ c (string_of_uint_digits (Pos.to_uint p))).
Qed.

(** *** The pattern of [IntegerField] *)

Lemma contains_dot_cons (c : ascii) (r : string) :
  contains "." (String c r) = (Ascii.eqb c "." || contains "." r)%bool.
Proof.
  change (contains "." (String c r))
    with (Ascii.eqb "." c || contains "." r)%bool.
  now rewrite (Ascii.eqb_sym "." c).
Qed.

Lemma re_decimal_sub_no_dot (s : string) :
  contains "." s = false -> re_decimal_sub s = s.
Proof.
  induction s as [ | c r IH]; [reflexivity | ].
  rewrite contains_dot_cons. intros H.
  apply orb_false_iff in H as [Hc Hr].
  cbn. rewrite Hc. cbn. now rewrite IH.
Qed.

Lemma re_decimal_sub_app (s t : string) :
  contains "." s = false ->
  re_decimal_sub (s ++ t) = s ++ re_decimal_sub t.
Proof.
  induction s as [ | c r IH]; [reflexivity | ].
  rewrite contains_dot_cons. intros H.
  apply orb_false_iff in H as [Hc Hr].
  cbn. rewrite Hc. cbn. now rewrite IH.
Qed.

Lemma digits_have_no_dot (s : string) :
  all_digits s = true -> contains "." s = false.
Proof.
  intros H. destruct (contains "." s) eqn:E; [ | reflexivity].
  pose proof (all_digits_contains s "." H E) as Hd. discriminate Hd.
Qed.

Lemma zeros_match (n : nat) : zeros_then_space (repeat_char "0" n) = true.
Proof. induction n; cbn; auto. Qed.

(** A dot followed by zeros only is cut off after the digits. *)
Lemma re_decimal_sub_zeros (ds : string) (n : nat) :
  all_digits ds = true ->
  re_decimal_sub (ds ++ String "." (repeat_char "0" n)) = ds.
Proof.
  intros H. rewrite re_decimal_sub_app by now apply digits_have_no_dot.
  cbn. rewrite zeros_match. cbn.
  clear H. induction ds; cbn; congruence.
Qed.

Lemma nonzero_digits_do_not_match (fs : string) :
  all_digits fs = true -> fs <> repeat_char "0" (String.length fs) ->
  zeros_then_space fs = false.
Proof.
  induction fs as [ | c r IH]; cbn; [congruence | ].
  intros H Hnz. apply andb_true_iff in H as [Hc Hr].
  destruct (Ascii.eqb_spec c "0") as [-> | Hc0].
  - apply IH; [exact Hr | congruence].
  - destruct (digit_is_plain c Hc) as [-> _]. reflexivity.
Qed.

(** With another digit than zero after the dot, nothing is cut off. *)
Lemma re_decimal_sub_fraction (ds fs : string) :
  all_digits ds = true -> all_digits fs = true ->
  fs <> repeat_char "0" (String.length fs) ->
  re_decimal_sub (ds ++ String "." fs) = ds ++ String "." fs.
Proof.
  intros Hds Hfs Hnz.
  rewrite re_decimal_sub_app by now apply digits_have_no_dot.
  cbn. rewrite (nonzero_digits_do_not_match fs Hfs Hnz). cbn.
  now rewrite (re_decimal_sub_no_dot fs (digits_have_no_dot fs Hfs)).
Qed.

Lemma literal_digits_no_dot (s : string) :
  forall (b : bool) (ds : string),
    literal_digits b s = Some ds -> contains "." s = false.
Proof.
  induction s as [ | c r IH]; intros b ds; [reflexivity | ].
  rewrite contains_dot_cons. cbn [literal_digits].
  destruct (is_digit c) eqn:Hc.
  - destruct (digit_is_plain c Hc) as [_ [_ [_ [_ [-> _]]]]].
    destruct (literal_digits true r) eqn:E; [ | discriminate].
    intros _. cbn. exact (IH true _ E).
  - destruct (Ascii.eqb_spec c "_") as [-> | ]; [ | discriminate].
    destruct b; [ | discriminate]. cbn [andb].
    destruct r as [ | c' r']; [discriminate | ].
    destruct (is_digit c'); [ | discriminate].
    intros E. cbn [Ascii.eqb orb]. change (Ascii.eqb "_" ".") with false.
    cbn [orb]. exact (IH false _ E).
Qed.

Lemma int_of_digits_no_dot (s : string) (k : Z) :
  int_of_digits s = Some k -> contains "." s = false.
Proof.
  unfold int_of_digits.
  destruct (literal_digits false s) eqn:E; [ | discriminate].
  intros _. exact (literal_digits_no_dot s false _ E).
Qed.

(** A text that [int] accepts has no dot. *)
Lemma int_of_str_no_dot (s : string) (k : Z) :
  int_of_str s = Some k -> contains "." s = false.
Proof.
  unfold int_of_str, strip_by. intros H.
  rewrite <- (contains_lstrip_by is_int_space "." s eq_refl).
  rewrite <- (contains_rstrip_by is_int_space "." _ eq_refl).
  destruct (rstrip_by is_int_space (lstrip_by is_int_space s)) as [ | c r];
    [reflexivity | ].
  rewrite contains_dot_cons.
  destruct (Ascii.eqb_spec c "+") as [-> | ].
  { cbn. exact (int_of_digits_no_dot r k H). }
  destruct (Ascii.eqb_spec c "-") as [-> | ].
  { cbn. destruct (int_of_digits r) eqn:E; [ | discriminate].
    exact (int_of_digits_no_dot r _ E). }
  rewrite <- contains_dot_cons. exact (int_of_digits_no_dot _ k H).
Qed.


(** ** C2: an explicit null *)

Lemma run_validation_of_value (f : Field) (partial : bool) (v : value) :
  CharField_is_blank true (Present v) = false ->
  CharField_is_blank false (Present v) = false ->
  Fields.run_validation f partial (Present v)
  = Field_run_validation f partial (Present v).
Proof.
  intros Ht Hf. unfold Fields.run_validation.
  destruct (cls f); try reflexivity.
  unfold CharField_run_validation.
  destruct trim_whitespace; [rewrite Ht | rewrite Hf]; reflexivity.
Qed.

(** [bind] of a computation that makes no call and returns. *)
Lemma bind_return {A B} (a : A) (k : A -> M B) : bind (([], Return a) : M A) k = k a.
Proof. unfold bind. simpl. now destruct (k a). Qed.

Lemma bind_raise {A B} (l : list event) (e : exn) (k : A -> M B) :
  bind ((l, Raise e) : M A) k = (l, Raise e).
Proof. reflexivity. Qed.

Lemma fail_raises {A} (m : messages) (k : string) (kw : list (string * value)) :
  exists e, fail (A := A) m k kw = Raise e.
Proof.
  unfold fail. destruct (format _ kw); eauto.
Qed.

Lemma calls_after_tell {A} (ev : event) (m : M A) :
  exists rest, calls (tell ev ;;; m) = ev :: rest.
Proof.
  destruct m as [l r]. exists l. unfold tell, bind, calls. reflexivity.
Qed.

(** C2 (as the code has it). For an explicit [None]: a field that does not
    allow null fails with [null] and makes no call; a field that allows
    null and has another source than the wildcard returns [None] and makes
    no call; a field that allows null and has the wildcard source is not
    cut short: [None] is handed to [to_internal_value] and the result to
    the validators. A serializer used as a field resolves [None] in the
    same three ways. *)
Theorem C2_null_resolution (f : Field) (partial : bool) :
  Fields.run_validation f partial (Present VNone)
  = (if negb (allow_null f) then lift (fail (error_messages f) "null" [])
     else if is_wildcard f then convert_and_validate f partial VNone
     else ret VNone)
  /\ (exists rest,
         calls (convert_and_validate f partial VNone)
         = CallToInternalValue VNone :: rest)
  /\ (forall (to_internal : value -> M value) (clean_hook : value -> result value),
         run_validation_with f partial to_internal clean_hook (Present VNone)
         = if negb (allow_null f) then lift (fail (error_messages f) "null" [])
           else if is_wildcard f then
             tell (CallToInternalValue VNone) ;;;
             value <- to_internal VNone ;;
             run_validators f value ;;;
             lift (clean_hook value)
           else ret VNone).
Proof.
  assert (Hnull : forall A B (k : A -> M B),
             bind (lift (fail (A := A) (error_messages f) "null" [])) k
             = lift (fail (error_messages f) "null" [])).
  { intros A B k. unfold lift.
    destruct (fail_raises (A := A) (error_messages f) "null" []) as [e He].
    destruct (fail_raises (A := B) (error_messages f) "null" []) as [e' He'].
    assert (e = e') by (unfold fail in He, He'; destruct (format _ _); congruence).
    subst. now rewrite He, He'. }
  split; [ | split; [apply calls_after_tell | ] ].
  - rewrite run_validation_of_value by reflexivity.
    unfold Field_run_validation, validate_empty_values.
    destruct (allow_null f); cbn [negb].
    + destruct (is_wildcard f); unfold lift; rewrite bind_return; reflexivity.
    + apply Hnull.
  - intros to_internal clean_hook.
    unfold run_validation_with, validate_empty_values.
    destruct (allow_null f); cbn [negb].
    + destruct (is_wildcard f); unfold lift; rewrite bind_return; reflexivity.
    + apply Hnull.
Qed.

(** C2 does not hold as the specification states it: an integer field
    that allows null and has the wildcard source hands [None] to
    [to_internal_value], and the validation fails with [invalid] instead
    of returning [None]. *)
Lemma C2_counterexample :
  allow_null nullable_wildcard_integer = true
  /\ is_wildcard nullable_wildcard_integer = true
  /\ Fields.run_validation nullable_wildcard_integer false (Present VNone)
     = ([CallToInternalValue VNone],
        Raise (ValidationError (Text invalid_integer_message)))
  /\ Fields.run_validation nullable_wildcard_integer false (Present VNone)
     <> ret VNone.
Proof.
  repeat split; try reflexivity. discriminate.
Qed.

(** ** C3: error aggregation of a schema *)

Lemma key_eqb_eq (a b : key) : key_eqb a b = true <-> a = b.
Proof.
  destruct a, b; cbn; split; try discriminate; try congruence.
  - intros H. apply String.eqb_eq in H. congruence.
  - intros [= ->]. apply String.eqb_refl.
  - intros H. apply Nat.eqb_eq in H. congruence.
  - intros [= ->]. apply Nat.eqb_refl.
Qed.

Lemma set_fresh_key {V} (d : list (key * V)) (k : key) (v : V) :
  ~ In k (map fst d) -> OrderedDict.set key_eqb d k v = (d ++ [(k, v)])%list.
Proof.
  induction d as [ | [k' v'] r IH]; cbn; intros Hfresh; [reflexivity | ].
  destruct (key_eqb k k') eqn:E.
  - apply key_eqb_eq in E. subst. tauto.
  - rewrite IH by tauto. reflexivity.
Qed.

Lemma calls_after {A} (l : list event) (m : M A) :
  calls (after l m) = (l ++ calls m)%list.
Proof. reflexivity. Qed.

Lemma outcome_after {A} (l : list event) (m : M A) :
  outcome (after l m) = outcome m.
Proof. reflexivity. Qed.

Lemma field_errors_names (s : Serializer) (rp : bool) (data : value)
  (bs : list BoundField) (k : key) :
  In k (map fst (field_errors s rp data bs)) ->
  exists b, In b bs /\ k = KName (field_name b)
            /\ is_validation_error (field_result s rp data b) = true.
Proof.
  induction bs as [ | b rest IH]; cbn; [tauto | ].
  rewrite map_app, in_app_iff. intros [H | H].
  - exists b. destruct (field_result s rp data b) as [ | []]; cbn in H; try tauto.
    destruct H as [<- | []]. auto.
  - destruct (IH H) as [b' [Hin Hb']]. exists b'. tauto.
Qed.

Lemma loop_spec (s : Serializer) (rp : bool) (data : value) :
  forall (bs : list BoundField) (tree0 tree : list (string * value))
         (errors0 : list (key * details)),
    NoDup (map field_name bs) ->
    (forall b, In b bs -> ~ In (KName (field_name b)) (map fst errors0)) ->
    (forall b, In b bs -> handled (field_result s rp data b) = true) ->
    assemble tree0 (field_values s rp data bs) = Return tree ->
    calls (to_internal_value_loop s rp data bs tree0 errors0)
    = flat_map (fun b => calls (validate_field s rp data b)) bs
    /\ outcome (to_internal_value_loop s rp data bs tree0 errors0)
       = match (errors0 ++ field_errors s rp data bs)%list with
         | [] => Return (VDict tree)
         | errors => Raise (ValidationError (JsonDict errors))
         end.
Proof.
  induction bs as [ | b rest IH]; intros tree0 tree errors0 Hnodup Hfresh Hok Hasm.
  - cbn in *. rewrite app_nil_r.
    assert (tree0 = tree) as <- by congruence. now destruct errors0.
  - cbn [map] in Hnodup. apply NoDup_cons_iff in Hnodup as [Hb Hnodup].
    assert (Hok' : forall b', In b' rest -> handled (field_result s rp data b') = true)
      by (intros; apply Hok; now right).
    pose proof (Hok b (or_introl eq_refl)) as Hhandled.
    cbn [to_internal_value_loop flat_map field_errors field_values] in *.
    fold (field_errors s rp data rest). fold (field_values s rp data rest) in Hasm.
    unfold field_result in Hhandled, Hasm |- *. unfold outcome, calls in *.
    destruct (validate_field s rp data b) as [l [v | e]]; cbn [fst snd] in *.
    + simpl in Hasm.
      destruct (set_value tree0 (source_attrs b) v) as [tree1 | ]; [ | discriminate].
      destruct (IH tree1 tree errors0 Hnodup) as [Hc Ho]; auto.
      { intros; apply Hfresh; now right. }
      fold (calls (to_internal_value_loop s rp data rest tree1 errors0)) in Hc.
      fold (outcome (to_internal_value_loop s rp data rest tree1 errors0)) in Ho.
      unfold after. cbn [fst snd failure_details map app].
      unfold calls in Hc. unfold outcome in Ho. now rewrite Hc, Ho.
    + destruct e; try discriminate Hhandled; cbn [failure_details map app] in *.
      * rewrite (set_fresh_key errors0) by (apply Hfresh; now left).
        destruct (IH tree0 tree (errors0 ++ [(KName (field_name b), d)])%list Hnodup)
          as [Hc Ho]; auto.
        { intros b' Hin. rewrite map_app, in_app_iff. cbn.
          intros [H | [[= H] | []]].
          - apply (Hfresh b'); [now right | exact H].
          - apply Hb. rewrite H. now apply in_map. }
        unfold after. cbn [fst snd]. unfold calls in Hc. unfold outcome in Ho.
        rewrite Hc, Ho, <- app_assoc. now split.
      * destruct (IH tree0 tree errors0 Hnodup) as [Hc Ho]; auto.
        { intros; apply Hfresh; now right. }
        unfold after. cbn [fst snd]. unfold calls in Hc. unfold outcome in Ho.
        now rewrite Hc, Ho.
Qed.

Lemma bind_all_names (declared : list (string * FieldObject)) :
  forall bs, bind_all declared = Return bs ->
             map field_name bs = map fst declared.
Proof.
  induction declared as [ | [fn o] rest IH]; cbn; intros bs H.
  - injection H as <-. reflexivity.
  - unfold bind_field in H.
    destruct (match obj_source o with Some s => String.eqb s fn | None => false end);
      [discriminate | ].
    destruct (bind_all rest) as [bs' | ]; [ | discriminate].
    injection H as <-. cbn. now rewrite (IH bs' eq_refl).
Qed.

Lemma NoDup_map_injective {A B} (f : A -> B) (l : list A) (a b : A) :
  NoDup (map f l) -> In a l -> In b l -> f a = f b -> a = b.
Proof.
  induction l as [ | x r IH]; cbn; [tauto | ].
  intros Hnd. apply NoDup_cons_iff in Hnd as [Hx Hnd].
  intros [<- | Ha] [<- | Hb] E; auto.
  - exfalso. apply Hx. rewrite E. now apply in_map.
  - exfalso. apply Hx. rewrite <- E. now apply in_map.
Qed.

Lemma field_errors_nil (s : Serializer) (rp : bool) (data : value)
  (bs : list BoundField) :
  field_errors s rp data bs = [] <->
  forall b, In b bs -> is_validation_error (field_result s rp data b) = false.
Proof.
  induction bs as [ | b rest IH]; cbn; [intuition | ].
  split.
  - intros H b' [<- | Hin].
    + destruct (field_result s rp data b) as [ | []]; cbn in *; congruence.
    + apply app_eq_nil in H. now apply IH.
  - intros H.
    assert (field_errors s rp data rest = []) as E
        by (apply IH; intros; apply H; now right).
    unfold field_errors in E. rewrite E, app_nil_r.
    specialize (H b (or_introl eq_refl)).
    destruct (field_result s rp data b) as [ | []]; cbn in *; congruence.
Qed.

Lemma flat_map_filter {A B} (g : A -> list B) (p : A -> bool) (l : list A) :
  (forall x, p x = false -> g x = []) ->
  flat_map g (filter p l) = flat_map g l.
Proof.
  intros H. induction l as [ | x r IH]; cbn; [reflexivity | ].
  destruct (p x) eqn:E; cbn; rewrite IH; [reflexivity | ].
  now rewrite (H x E).
Qed.

Lemma skipped_fields_leave_no_trace (s : Serializer) (rp : bool) (data : value)
  (bs : list BoundField) :
  field_errors s rp data (filter (not_skipped s rp data) bs)
  = field_errors s rp data bs
  /\ field_values s rp data (filter (not_skipped s rp data) bs)
     = field_values s rp data bs.
Proof.
  split; apply flat_map_filter; intros b; unfold not_skipped;
    destruct (field_result s rp data b) as [ | []]; cbn; congruence.
Qed.

(** X26. Take a schema whose declared field names are distinct and an
    input mapping on which each field returns, fails with a validation
    error or signals a skip, and whose validated values can be written into the value
    tree. Then [to_internal_value] goes through every bound field in
    declaration order, failures included; the error tree holds exactly the
    failing fields, each under its name and in declaration order; a
    skipped field is in neither tree, and both trees are those of the
    schema without the skipped fields; and the call raises with the error
    tree if and only if some field failed, and returns the assembled value
    tree otherwise. *)
Theorem X26_schema_collects_field_errors
  (s : Serializer) (root_partial : bool) (d : list (string * value))
  (bs : list BoundField) (tree : list (string * value)) :
  fields s = Return bs ->
  NoDup (map fst (base_fields s)) ->
  (forall b, In b bs -> handled (field_result s root_partial (VDict d) b) = true) ->
  assemble [] (field_values s root_partial (VDict d) bs) = Return tree ->
  calls (Serializers.to_internal_value s root_partial (VDict d))
  = flat_map (fun b => calls (validate_field s root_partial (VDict d) b)) bs
  /\ outcome (Serializers.to_internal_value s root_partial (VDict d))
     = match field_errors s root_partial (VDict d) bs with
       | [] => Return (VDict tree)
       | errors => Raise (ValidationError (JsonDict errors))
       end
  /\ (is_validation_error
        (outcome (Serializers.to_internal_value s root_partial (VDict d))) = true
      <-> exists b, In b bs
                    /\ is_validation_error (field_result s root_partial (VDict d) b) = true)
  /\ (forall b, In b bs ->
                is_skip (field_result s root_partial (VDict d) b) = true ->
                ~ In (KName (field_name b))
                     (map fst (field_errors s root_partial (VDict d) bs)))
  /\ field_errors s root_partial (VDict d) (filter (not_skipped s root_partial (VDict d)) bs)
     = field_errors s root_partial (VDict d) bs
  /\ field_values s root_partial (VDict d) (filter (not_skipped s root_partial (VDict d)) bs)
     = field_values s root_partial (VDict d) bs.
Proof.
  intros Hfields Hnames Hok Hasm.
  assert (Hnodup : NoDup (map field_name bs))
    by (rewrite (bind_all_names _ _ Hfields); exact Hnames).
  destruct (loop_spec s root_partial (VDict d) bs [] tree [] Hnodup) as [Hc Ho]; auto.
  simpl app in Ho.
  assert (Serializers.to_internal_value s root_partial (VDict d)
          = to_internal_value_loop s root_partial (VDict d) bs [] []) as ->.
  { unfold Serializers.to_internal_value. rewrite Hfields.
    unfold lift.
    apply (bind_return bs
             (fun bs' => to_internal_value_loop s root_partial (VDict d) bs' [] [])). }
  split; [exact Hc | ]. split; [exact Ho | ].
  split; [ | split; [ | apply skipped_fields_leave_no_trace ] ].
  - rewrite Ho.
    destruct (field_errors s root_partial (VDict d) bs) as [ | e es] eqn:E.
    + split; [discriminate | ].
      intros [b [Hin Hfail]].
      rewrite (proj1 (field_errors_nil _ _ _ _) E b Hin) in Hfail. discriminate.
    + split; [intros _ | reflexivity].
      destruct (field_errors_names s root_partial (VDict d) bs (fst e)) as [b [Hin [_ Hb]]].
      { rewrite E. now left. }
      now exists b.
  - intros b Hin Hskip Hkey.
    destruct (field_errors_names _ _ _ _ _ Hkey) as [b' [Hin' [Hname Hfail]]].
    assert (b = b').
    { apply (NoDup_map_injective field_name bs); auto. congruence. }
    subst b'.
    destruct (field_result s root_partial (VDict d) b) as [ | []]; discriminate.
Qed.

(** The schema [profile] on an input with a blank name, no age and a
    malformed zip code: both failures are reported, the absent optional
    field is in neither tree; and on a valid input the value tree is
    returned, with the city under its dotted source path. *)
Lemma X26_schema_collects_field_errors_witness :
  outcome (Serializers.to_internal_value profile false (VDict profile_bad))
  = Raise (ValidationError
             (JsonDict [(KName "name", Text blank_message);
                        (KName "zip", Text invalid_integer_message)]))
  /\ outcome (Serializers.to_internal_value profile false (VDict profile_good))
     = Return (VDict [("name", VStr "Ann"); ("zip", VInt 1);
                      ("address", VDict [("city", VStr "NY")])]).
Proof.
  assert (Hnames : NoDup (map fst (base_fields profile))).
  { cbn. repeat constructor; cbn; intuition discriminate. }
  assert (Hhandled : forall d, d = profile_bad \/ d = profile_good ->
            forall b, In b (bound_fields profile) ->
                      handled (field_result profile false (VDict d) b) = true).
  { intros d [-> | ->] b Hin; cbn in Hin;
      destruct Hin as [<- | [<- | [<- | [<- | []]]]]; reflexivity. }
  split.
  - exact (proj1 (proj2 (X26_schema_collects_field_errors
                           profile false profile_bad (bound_fields profile)
                           [("address", VDict [("city", VStr "NY")])]
                           eq_refl Hnames (Hhandled _ (or_introl eq_refl))
                           eq_refl))).
  - exact (proj1 (proj2 (X26_schema_collects_field_errors
                           profile false profile_good (bound_fields profile)
                           [("name", VStr "Ann"); ("zip", VInt 1);
                            ("address", VDict [("city", VStr "NY")])]
                           eq_refl Hnames (Hhandled _ (or_intror eq_refl))
                           eq_refl))).
Defined.

(** C3, evaluated. On the schema [Entry] the text [xyz] is longer than
    the one character that the field [a] allows. Its limit validator
    ends in [TypeError], which the loop of [to_internal_value] does not
    catch: the call raises [TypeError] after the first field, whatever
    the input holds for [b], and [b] is never validated. The value [q]
    for [b] fails on its own with a validation error, so that the error
    tree ought to hold an entry for [b] (and one for [a]); with a text
    for [a] that keeps the limit, the failure of [b] is recorded. *)
Theorem C3_schema_stops_at_type_error :
  (forall vb : value,
      Serializers.to_internal_value entry_schema false
        (VDict [("a", VStr "xyz"); ("b", vb)])
      = ([CallToInternalValue (VStr "xyz"); CallValidator 0 (VStr "xyz")],
         Raise TypeError))
  /\ map (field_result entry_schema false
            (VDict [("a", VStr "xyz"); ("b", VStr "q")]))
         (bound_fields entry_schema)
     = [Raise TypeError;
        Raise (ValidationError (Text invalid_integer_message))]
  /\ Serializers.to_internal_value entry_schema false
       (VDict [("a", VStr "x"); ("b", VStr "q")])
     = ([CallToInternalValue (VStr "x"); CallValidator 0 (VStr "x");
         CallToInternalValue (VStr "q")],
        Raise (ValidationError
                 (JsonDict [(KName "b", Text invalid_integer_message)]))).
Proof.
  split; [intros vb; reflexivity | ].
  split; reflexivity.
Qed.

(** ** C4: errors of list validation *)

Lemma indexed_failures_bound (child : input -> M value) (items : list value) :
  forall idx k, In k (map fst (indexed_failures child idx items)) ->
                exists j, k = KIndex j /\ (idx <= j)%nat.
Proof.
  induction items as [ | item rest IH]; cbn; intros idx k; [tauto | ].
  rewrite map_app, in_app_iff. intros [H | H].
  - exists idx. destruct (item_result child item) as [ | []]; cbn in H; try tauto.
    destruct H as [<- | []]. auto.
  - destruct (IH _ _ H) as [j [-> Hj]]. exists j. split; [reflexivity | lia].
Qed.

(** The list field validates every item and keys the error of each
    failing item by its position. *)
Lemma list_field_keeps_positions (child : input -> M value) :
  forall (items : list value) (idx : nat) (result : list value)
         (errors : list (key * details)),
    (forall item, In item items ->
                  returns_or_fails (item_result child item) = true) ->
    (forall k, In k (map fst errors) -> exists j, k = KIndex j /\ (j < idx)%nat) ->
    calls (run_child_validation_from child idx items result errors)
    = flat_map (fun item => calls (child (Present item))) items
    /\ outcome (run_child_validation_from child idx items result errors)
       = match (errors ++ indexed_failures child idx items)%list with
         | [] => Return (VList (result ++ item_values child items))
         | all => Raise (ValidationError (JsonDict all))
         end.
Proof.
  induction items as [ | item rest IH]; intros idx result errors Hok Hkeys.
  - cbn. rewrite !app_nil_r. now destruct errors.
  - assert (Hok' : forall i, In i rest -> returns_or_fails (item_result child i) = true)
      by (intros; apply Hok; now right).
    pose proof (Hok item (or_introl eq_refl)) as Hitem.
    cbn [run_child_validation_from flat_map indexed_failures item_values].
    fold (item_values child rest).
    unfold try_validation, item_result, outcome, calls in *.
    destruct (child (Present item)) as [l [v | e]]; cbn [fst snd] in *.
    + destruct (IH (S idx) (result ++ [v])%list errors Hok') as [Hc Ho].
      { intros k Hk. destruct (Hkeys k Hk) as [j [-> Hj]]. exists j. split; [auto | lia]. }
      unfold after. cbn [fst snd failure_details map app].
      rewrite Hc, Ho, <- app_assoc. now split.
    + destruct e; try discriminate Hitem. cbn [failure_details map app].
      rewrite set_fresh_key.
      * destruct (IH (S idx) result (errors ++ [(KIndex idx, d)])%list Hok')
          as [Hc Ho].
        { intros k. rewrite map_app, in_app_iff. cbn.
          intros [Hk | [<- | []]].
          - destruct (Hkeys k Hk) as [j [-> Hj]]. exists j. split; [auto | lia].
          - exists idx. split; [auto | lia]. }
        unfold after. cbn [fst snd]. rewrite Hc, Ho, <- app_assoc. now split.
      * intros Hin. destruct (Hkeys _ Hin) as [j [[= <-] Hj]]. lia.
Qed.


(** C4, evaluated. Both list validations go through every item. The list
    field keys the error of a failing item by its index, [{0: ..., 2: ...}];
    the list serializer appends the errors of the failing items to a plain
    list, so that the items 0 and 2 leave a list of two errors and the
    index 2 is lost. *)
Theorem C4_list_serializer_loses_positions :
  Fields.run_validation integer_list_field false
    (Present (VList [VStr "x"; VStr "1"; VStr "y"]))
  = ([CallToInternalValue (VList [VStr "x"; VStr "1"; VStr "y"]);
      CallToInternalValue (VStr "x"); CallToInternalValue (VStr "1");
      CallToInternalValue (VStr "y")],
     Raise (ValidationError
              (JsonDict [(KIndex 0, Text invalid_integer_message);
                         (KIndex 2, Text invalid_integer_message)])))
  /\ calls (ListSerializer_validate_request ages_list (Present three_ages))
     = [CallToInternalValue three_ages;
        CallToInternalValue (VDict [("age", VStr "x")]);
        CallToInternalValue (VStr "x");
        CallToInternalValue (VDict [("age", VStr "1")]);
        CallToInternalValue (VStr "1");
        CallToInternalValue (VDict [("age", VStr "y")]);
        CallToInternalValue (VStr "y")]
  /\ outcome (ListSerializer_validate_request ages_list (Present three_ages))
     = Raise (ValidationError
                (JsonList
                   [JsonDict [(KName "age", Text invalid_integer_message)];
                    JsonDict [(KName "age", Text invalid_integer_message)]])).
Proof.
  repeat split; reflexivity.
Qed.

(** ** C5: [is_valid] of a list serializer *)

Lemma list_is_valid_outcomes (run : M value) (raise_exception : bool)
  (st : attributes) :
  let r := outcome (snd (ListSerializer_is_valid run raise_exception st)) in
  r <> Return false /\ is_validation_error r = false.
Proof.
  unfold ListSerializer_is_valid, validate_once.
  destruct st as [[vd | ] errs]; cbn [_validated_data].
  - cbn. destruct errs as [[d | ] | ]; cbn.
    + destruct (details_truthy d); cbn; split; (discriminate || reflexivity).
    + split; (discriminate || reflexivity).
    + split; (discriminate || reflexivity).
  - destruct run as [l [v | e]]; cbn.
    + split; (discriminate || reflexivity).
    + destruct e; cbn; try (split; (discriminate || reflexivity)).
      destruct (details_truthy d); cbn; split; (discriminate || reflexivity).
Qed.

(** C5. When the validation of the request data of a list serializer fails
    with an error that is not empty, [is_valid] raises [NameError] for the
    name [raise_exc], whatever is passed for [raise_exception], and does so
    again on every later call; [is_valid] never returns [False] and never
    raises a validation error, and when it returns (then [True]) the
    errors it has stored are [None] or empty. *)
Theorem C5_list_is_valid_raises_name_error
  (run : M value) (l : list event) (d : details) (raise_exception : bool) :
  run = (l, Raise (ValidationError d)) ->
  details_truthy d = true ->
  ListSerializer_is_valid run raise_exception fresh
  = (failed_list d, (l, Raise (NameError "raise_exc")))
  /\ (forall (again : M value) (raise_exception' : bool),
         ListSerializer_is_valid again raise_exception' (failed_list d)
         = (failed_list d, raise (NameError "raise_exc")))
  /\ (forall (run' : M value) (raise_exception' : bool) (st : attributes),
         let r := outcome (snd (ListSerializer_is_valid run' raise_exception' st)) in
         r <> Return false /\ is_validation_error r = false)
  /\ (forall (run' : M value) (raise_exception' : bool) (st : attributes) (b : bool),
         outcome (snd (ListSerializer_is_valid run' raise_exception' st)) = Return b ->
         b = true
         /\ exists errors,
              _errors (fst (ListSerializer_is_valid run' raise_exception' st))
              = Some errors
              /\ match errors with
                 | None => True
                 | Some d' => details_truthy d' = false
                 end).
Proof.
  intros -> Hd.
  split; [ | split; [ | split ] ].
  - unfold ListSerializer_is_valid, validate_once. cbn. rewrite Hd.
    cbn. now rewrite app_nil_r.
  - intros again raise_exception'.
    unfold ListSerializer_is_valid, validate_once. cbn. rewrite Hd. reflexivity.
  - apply list_is_valid_outcomes.
  - intros run' raise_exception' st b.
    unfold ListSerializer_is_valid, validate_once.
    destruct st as [[vd | ] errs]; cbn [_validated_data].
    + cbn. destruct errs as [[d' | ] | ]; cbn.
      * destruct (details_truthy d') eqn:E; cbn; intros [= <-].
        split; [reflexivity | ]. eexists; split; [reflexivity | exact E].
      * intros [= <-]. split; [reflexivity | ]. now eexists.
      * discriminate.
    + destruct run' as [l' [v | e]]; cbn.
      * intros [= <-]. split; [reflexivity | ]. now eexists.
      * destruct e; cbn; try discriminate.
        destruct (details_truthy d0) eqn:E; cbn; intros [= <-].
        split; [reflexivity | ]. eexists; split; [reflexivity | exact E].
Qed.

(** [ListSerializer(child=Ages(), request_data={"age": 1})]: the data is
    not a list, the validation fails with [not_a_list], and [is_valid]
    raises [NameError] with [raise_exception] true as well as false. *)
Lemma C5_list_is_valid_raises_name_error_witness :
  ListSerializer_validate_request ages_list (Present (VDict [("age", VInt 1)]))
  = ([CallToInternalValue (VDict [("age", VInt 1)])],
     Raise (ValidationError (Text (not_a_list_message "dict"))))
  /\ outcome (snd (ListSerializer_is_valid
                     (ListSerializer_validate_request ages_list
                        (Present (VDict [("age", VInt 1)])))
                     true fresh))
     = Raise (NameError "raise_exc")
  /\ outcome (snd (ListSerializer_is_valid
                     (ListSerializer_validate_request ages_list
                        (Present (VDict [("age", VInt 1)])))
                     false fresh))
     = Raise (NameError "raise_exc").
Proof.
  split; [reflexivity | ].
  split.
  - rewrite (proj1 (C5_list_is_valid_raises_name_error
                      (ListSerializer_validate_request ages_list
                         (Present (VDict [("age", VInt 1)])))
                      [CallToInternalValue (VDict [("age", VInt 1)])]
                      (Text (not_a_list_message "dict")) true
                      eq_refl eq_refl)).
    reflexivity.
  - rewrite (proj1 (C5_list_is_valid_raises_name_error
                      (ListSerializer_validate_request ages_list
                         (Present (VDict [("age", VInt 1)])))
                      [CallToInternalValue (VDict [("age", VInt 1)])]
                      (Text (not_a_list_message "dict")) false
                      eq_refl eq_refl)).
    reflexivity.
Defined.

(** ** C6: partial mode *)

Lemma partial_skips_absent (f : Field) :
  Fields.run_validation f true Absent = raise SkipFieldException.
Proof.
  unfold Fields.run_validation.
  assert (Field_run_validation f true Absent = raise SkipFieldException) as E
      by reflexivity.
  destruct (cls f); exact E.
Qed.

(** C6. In partial mode a field that is absent from the input is skipped,
    whatever its class, and also when it is required or has a default; a
    serializer or a list serializer used as a field is skipped in the same
    way; and the schema
    with a required string [name] and a required integer [age], validating
    [{"name": "a"}] in partial mode, returns exactly [{"name": "a"}]. *)
Theorem C6_partial_mode_skips_absent :
  (forall f : Field,
      Fields.run_validation f true Absent = raise SkipFieldException)
  /\ (forall (s : Serializer) (bound_source : string),
         obj_run_validation (of_serializer s) bound_source true Absent
         = raise SkipFieldException)
  /\ (forall (ls : ListSerializer),
         ListSerializer_run_validation ls true Absent = raise SkipFieldException)
  /\ (forall (s : Serializer) (f : Field) (name : string) (b : BoundField)
             (d : list (string * value)),
         bind_field name (of_field f) = Return b ->
         OrderedDict.get String.eqb d name = None ->
         validate_field s true (VDict d) b = raise SkipFieldException)
  /\ validate_request (person true) (Present (VDict [("name", VStr "a")]))
     = ([CallToInternalValue (VDict [("name", VStr "a")]);
         CallToInternalValue (VStr "a")],
        Return (VDict [("name", VStr "a")]))
  /\ outcome (validate_request (person false) (Present (VDict [("name", VStr "a")])))
     = Raise (ValidationError (JsonDict [(KName "age", Text required_message)])).
Proof.
  split; [exact partial_skips_absent | ].
  split; [reflexivity | ].
  split; [reflexivity | ].
  split; [ | split; reflexivity ].
  intros s f name b d Hbind Hget.
  unfold bind_field in Hbind.
  destruct (match obj_source (of_field f) with
            | Some src => String.eqb src name
            | None => false
            end); [discriminate | ].
  injection Hbind as <-.
  unfold validate_field, get_value. cbn [field_name bound_run_validation].
  rewrite Hget. unfold of_field. cbn [obj_run_validation].
  rewrite partial_skips_absent. reflexivity.
Qed.

(** The field [age] of [person], bound, on the input [{"name": "a"}] in
    partial mode: it is required and absent, and it is skipped. *)
Lemma C6_partial_mode_skips_absent_witness :
  exists b,
    bind_field "age" (of_field required_integer) = Return b
    /\ required required_integer = true
    /\ OrderedDict.get String.eqb [("name", VStr "a")] "age" = None
    /\ validate_field (person true) true (VDict [("name", VStr "a")]) b
       = raise SkipFieldException.
Proof.
  eexists. split; [reflexivity | ]. split; [reflexivity | ].
  split; [reflexivity | ].
  exact (proj1 (proj2 (proj2 (proj2 C6_partial_mode_skips_absent)))
           (person true) required_integer "age" _ [("name", VStr "a")]
           eq_refl eq_refl).
Defined.

(** ** C7: the validator pipeline *)

Lemma calls_bind_tell {A} (ev : event) (m : M A) :
  calls (tell ev ;;; m) = ev :: calls m.
Proof. destruct m as [l r]. reflexivity. Qed.

Lemma outcome_bind_tell {A} (ev : event) (m : M A) :
  outcome (tell ev ;;; m) = outcome m.
Proof. destruct m as [l r]. reflexivity. Qed.

Lemma run_validators_from_spec (vs : list validator) (v : value) :
  (forall validator, In validator vs -> returns_or_fails (validator v) = true) ->
  forall (i : nat) (errors : list details),
    calls (run_validators_from i vs v errors)
    = validator_calls i (List.length vs) v
    /\ outcome (run_validators_from i vs v errors)
       = match (errors ++ validator_failures vs v)%list with
         | [] => Return tt
         | all => Raise (ValidationError (JsonList all))
         end.
Proof.
  induction vs as [ | validator rest IH]; intros Hok i errors.
  - cbn. rewrite app_nil_r. now destruct errors.
  - assert (Hrest : forall w, In w rest -> returns_or_fails (w v) = true)
      by (intros w Hw; apply Hok; now right).
    specialize (IH Hrest).
    cbn [run_validators_from]. rewrite calls_bind_tell, outcome_bind_tell.
    unfold validator_calls. cbn [List.length seq map].
    unfold validator_failures. cbn [flat_map].
    fold (validator_failures rest v).
    pose proof (Hok validator (or_introl eq_refl)) as Hv.
    destruct (validator v) as [[] | e]; cbn [failure_details].
    + destruct (IH (S i) errors) as [Hc Ho]. now rewrite Hc, Ho.
    + destruct e; try discriminate Hv. cbn [failure_details].
      destruct (IH (S i) (errors ++ [d])%list) as [Hc Ho].
      rewrite Hc, Ho, <- app_assoc. now split.
Qed.

Lemma validator_failures_nil (vs : list validator) (v : value) :
  validator_failures vs v = [] <->
  forall validator, In validator vs -> is_validation_error (validator v) = false.
Proof.
  induction vs as [ | w rest IH]; cbn.
  - intuition.
  - split.
    + intros H validator [<- | Hin].
      * destruct (w v) as [ | []]; cbn in *; congruence.
      * apply app_eq_nil in H. now apply IH.
    + intros H.
      assert (validator_failures rest v = []) as E
          by (apply IH; intros; apply H; now right).
      unfold validator_failures in E. rewrite E, app_nil_r.
      specialize (H w (or_introl eq_refl)).
      destruct (w v) as [ | []]; cbn in *; congruence.
Qed.

(** X27. When every validator of a field either returns or raises a
    validation error on the value, [run_validators] calls all of them, in
    declaration order, whatever the earlier ones did; it gathers the
    messages of those that failed, in the same order, and raises one
    validation error holding all of them if and only if at least one
    validator failed. *)
Theorem X27_validators_all_run (f : Field) (v : value) :
  (forall validator, In validator (validators f) ->
                     returns_or_fails (validator v) = true) ->
  calls (run_validators f v)
  = validator_calls 0 (List.length (validators f)) v
  /\ outcome (run_validators f v)
     = match validator_failures (validators f) v with
       | [] => Return tt
       | all => Raise (ValidationError (JsonList all))
       end
  /\ (is_validation_error (outcome (run_validators f v)) = true <->
      exists validator, In validator (validators f)
                        /\ is_validation_error (validator v) = true).
Proof.
  intros Hok.
  destruct (run_validators_from_spec (validators f) v Hok 0 []) as [Hc Ho].
  cbn [app] in Ho. unfold run_validators.
  split; [exact Hc | ]. split; [exact Ho | ].
  rewrite Ho.
  destruct (validator_failures (validators f) v) eqn:E.
  - split; [discriminate | ].
    intros [validator [Hin Hfail]].
    rewrite (proj1 (validator_failures_nil _ _) E validator Hin) in Hfail.
    discriminate.
  - split; [intros _ | reflexivity].
    destruct (existsb (fun w => is_validation_error (w v)) (validators f)) eqn:Ex.
    + apply existsb_exists in Ex. exact Ex.
    + exfalso.
      assert (validator_failures (validators f) v = []) as E'.
      { apply validator_failures_nil. intros w Hw.
        destruct (is_validation_error (w v)) eqn:Hwv; [ | reflexivity].
        assert (existsb (fun w => is_validation_error (w v)) (validators f) = true)
          by (apply existsb_exists; eauto).
        congruence. }
      congruence.
Qed.

(** Three validators of which the first and the last fail: all three are
    called and both messages are reported. *)
Lemma X27_validators_all_run_witness :
  calls (run_validators three_validators (VInt 3))
  = [CallValidator 0 (VInt 3); CallValidator 1 (VInt 3); CallValidator 2 (VInt 3)]
  /\ outcome (run_validators three_validators (VInt 3))
     = Raise (ValidationError (JsonList [Text "too small"; Text "odd"])).
Proof.
  destruct (X27_validators_all_run three_validators (VInt 3)) as [Hc [Ho _]].
  - intros validator Hin. cbn in Hin.
    destruct Hin as [<- | [<- | [<- | []]]]; reflexivity.
  - split; [exact Hc | exact Ho].
Defined.

(** C7, evaluated. The string field with [min_length=5] and
    [max_length=1] has two validators, and the text [abc] breaks both
    limits. Each validator, called on it, ends in [TypeError] instead of
    a validation error; [run_validators] catches validation errors only,
    so the pipeline stops at the first validator: the second one is not
    called, nothing is gathered, and [TypeError] escapes from
    [run_validators] and from [run_validation]. *)
Theorem C7_limit_validators_end_the_pipeline :
  map (fun validator : validator => validator (VStr "abc"))
      (validators impossible_length)
  = [Raise TypeError; Raise TypeError]
  /\ run_validators impossible_length (VStr "abc")
     = ([CallValidator 0 (VStr "abc")], Raise TypeError)
  /\ (forall partial : bool,
         Fields.run_validation impossible_length partial (Present (VStr "abc"))
         = ([CallToInternalValue (VStr "abc"); CallValidator 0 (VStr "abc")],
            Raise TypeError)).
Proof.
  split; [reflexivity | ]. split; [reflexivity | ].
  intros partial. reflexivity.
Qed.

(** ** C8: the choice field *)

Lemma first_second_lookup (f : Field) (data : value) :
  f = first_second_dict \/ f = first_second_pairs ->
  Fields.to_internal_value f false data
  = if String.eqb (str data) "1" then ret (VInt 1)
    else if String.eqb (str data) "2" then ret (VInt 2)
    else lift (fail (error_messages f) "invalid_choice" [("input", data)]).
Proof.
  intros [-> | ->];
    unfold Fields.to_internal_value, ChoiceField_to_internal_value; simpl;
    rewrite andb_false_r;
    change (str_of_int 1) with "1"; change (str_of_int 2) with "2";
    destruct (String.eqb (str data) "1"); try reflexivity;
    destruct (String.eqb (str data) "2"); reflexivity.
Qed.

(** C8. For a choice field declared with the choices {1: "First",
    2: "Second"} (given as a dict or as a list of pairs),
    [to_internal_value] looks the text of the input up in the table from
    [str(key)] to [key]: the input "2" gives the internal value 2, the
    input "9" fails with [invalid_choice], and the message quotes "9" as
    it was given. *)
Theorem C8_choice_lookup :
  (forall data,
      Fields.to_internal_value first_second_dict false data
      = if String.eqb (str data) "1" then ret (VInt 1)
        else if String.eqb (str data) "2" then ret (VInt 2)
        else lift (fail (error_messages first_second_dict) "invalid_choice"
                     [("input", data)]))
  /\ choice_strings_to_values
       (choices_of_dict [(SInt 1, VStr "First"); (SInt 2, VStr "Second")])
     = [("1", SInt 1); ("2", SInt 2)]
  /\ Fields.to_internal_value first_second_dict false (VStr "2") = ret (VInt 2)
  /\ Fields.to_internal_value first_second_pairs false (VStr "2") = ret (VInt 2)
  /\ Fields.to_internal_value first_second_dict false (VStr "9")
     = lift (fail (error_messages first_second_dict) "invalid_choice"
               [("input", VStr "9")])
  /\ Fields.to_internal_value first_second_pairs false (VStr "9")
     = lift (fail (error_messages first_second_pairs) "invalid_choice"
               [("input", VStr "9")])
  /\ fail (A := value) (error_messages first_second_dict) "invalid_choice"
       [("input", VStr "9")]
     = Raise (ValidationError (Text (not_a_valid_choice "9"))).
Proof.
  repeat split; try reflexivity.
  intros data. apply first_second_lookup. now left.
Qed.

(** ** C9: the decimal suffix of the integer field *)

Lemma integer_to_internal_value (f : Field) (partial : bool) (data : value) :
  cls f = IntegerField ->
  Fields.to_internal_value f partial data
  = lift (IntegerField_to_internal_value f data).
Proof. intros H. unfold Fields.to_internal_value. now rewrite H. Qed.

(** C9 (as the code has it). For the integer field and a text of at most
    1000 characters: digits followed by a dot and zero or more zeros
    convert to the number that the digits denote; digits followed by a dot
    and digits that are not all zero fail with [invalid]. A text of more
    than 1000 characters fails with [max_string_length] whatever it holds.
    On every input the conversion returns an integer or fails through
    [self.fail] with one of these two kinds, and with the messages of the
    class both are validation errors. *)
Theorem C9_integer_decimal_suffix
  (f : Field) (partial : bool) (ds fs : string) (n : nat) :
  cls f = IntegerField ->
  all_digits ds = true -> ds <> EmptyString ->
  all_digits fs = true -> fs <> repeat_char "0" (String.length fs) ->
  (String.length (ds ++ String "." (repeat_char "0" n)) <= 1000)%nat ->
  (String.length (ds ++ String "." fs) <= 1000)%nat ->
  Fields.to_internal_value f partial (VStr (ds ++ String "." (repeat_char "0" n)))
  = ret (VInt (decimal_value ds))
  /\ Fields.to_internal_value f partial (VStr (ds ++ String "." fs))
     = lift (fail (error_messages f) "invalid" [])
  /\ (forall s, (1000 < String.length s)%nat ->
                Fields.to_internal_value f partial (VStr s)
                = lift (fail (error_messages f) "max_string_length" []))
  /\ (forall data,
         (exists k, Fields.to_internal_value f partial data = ret (VInt k))
         \/ Fields.to_internal_value f partial data
            = lift (fail (error_messages f) "invalid" [])
         \/ Fields.to_internal_value f partial data
            = lift (fail (error_messages f) "max_string_length" []))
  /\ (error_messages f = collect_messages IntegerField_default_error_messages [] ->
      fail (A := value) (error_messages f) "invalid" []
      = Raise (ValidationError (Text invalid_integer_message))
      /\ fail (A := value) (error_messages f) "max_string_length" []
         = Raise (ValidationError (Text too_large_message))).
Proof.
  intros Hcls Hds Hne Hfs Hnz Hlen Hlen'.
  split; [ | split; [ | split; [ | split ] ] ].
  - rewrite (integer_to_internal_value f partial _ Hcls).
    unfold IntegerField_to_internal_value, IntegerField_MAX_STRING_LENGTH.
    apply Nat.ltb_ge in Hlen. rewrite Hlen.
    cbn [str]. rewrite (re_decimal_sub_zeros ds n Hds).
    now rewrite (int_of_str_digits ds Hds Hne).
  - rewrite (integer_to_internal_value f partial _ Hcls).
    unfold IntegerField_to_internal_value, IntegerField_MAX_STRING_LENGTH.
    apply Nat.ltb_ge in Hlen'. rewrite Hlen'.
    cbn [str]. rewrite (re_decimal_sub_fraction ds fs Hds Hfs Hnz).
    destruct (int_of_str (ds ++ String "." fs)) as [k | ] eqn:E; [ | reflexivity].
    apply int_of_str_no_dot in E. exfalso.
    clear - E. induction ds as [ | c r IH].
    + cbn in E. discriminate.
    + cbn [append] in E. rewrite contains_dot_cons in E.
      apply orb_false_iff in E as [_ E]. auto.
  - intros s Hs. rewrite (integer_to_internal_value f partial _ Hcls).
    unfold IntegerField_to_internal_value, IntegerField_MAX_STRING_LENGTH.
    apply Nat.ltb_lt in Hs. now rewrite Hs.
  - intros data. rewrite (integer_to_internal_value f partial _ Hcls).
    unfold IntegerField_to_internal_value.
    destruct (match data with
              | VStr s => Nat.ltb IntegerField_MAX_STRING_LENGTH (String.length s)
              | _ => false
              end); [right; right; reflexivity | ].
    destruct (int_of_str (re_decimal_sub (str data)));
      [left; eexists; reflexivity | right; left; reflexivity].
  - intros ->. split; reflexivity.
Qed.

(** ["1.0"] converts to 1 and ["1.2"] fails with [invalid]. *)
Lemma C9_integer_decimal_suffix_witness :
  Fields.to_internal_value (new_IntegerField None None no_kwargs) false (VStr "1.0")
  = ret (VInt 1)
  /\ Fields.to_internal_value (new_IntegerField None None no_kwargs) false (VStr "1.2")
     = lift (Raise (ValidationError (Text invalid_integer_message))).
Proof.
  assert (H1 : "1" <> EmptyString) by discriminate.
  assert (H2 : "2" <> repeat_char "0" (String.length "2")) by discriminate.
  assert (H3 : (String.length ("1" ++ String "." (repeat_char "0" 1)) <= 1000)%nat)
    by (cbn; lia).
  assert (H4 : (String.length ("1" ++ String "." "2") <= 1000)%nat)
    by (cbn; lia).
  destruct (C9_integer_decimal_suffix
              (new_IntegerField None None no_kwargs) false "1" "2" 1
              eq_refl eq_refl H1 eq_refl H2 H3 H4)
    as [Hzero [Hfraction _]].
  split; [exact Hzero | exact Hfraction].
Defined.

(** C9 does not hold as the specification states it: a one, a dot and a
    thousand zeros are digits followed by a dot and zeros, and the integer
    field refuses them with [max_string_length] instead of converting
    them to 1. *)
Lemma C9_counterexample :
  long_decimal = "1" ++ String "." (repeat_char "0" 1000)
  /\ all_digits "1" = true
  /\ Fields.to_internal_value (new_IntegerField None None no_kwargs) false
       (VStr long_decimal)
     = lift (Raise (ValidationError (Text too_large_message)))
  /\ Fields.to_internal_value (new_IntegerField None None no_kwargs) false
       (VStr long_decimal)
     <> ret (VInt 1).
Proof.
  split; [reflexivity | ]. split; [reflexivity | ].
  assert (Fields.to_internal_value (new_IntegerField None None no_kwargs) false
            (VStr long_decimal)
          = lift (Raise (ValidationError (Text too_large_message)))) as E
      by (vm_compute; reflexivity).
  split; [exact E | ]. rewrite E. discriminate.
Qed.

(** ** C10: blank input of a string field *)

(** C10. For a string field, input that is the empty string, or whose text
    strips to the empty string while whitespace is trimmed, is settled by
    [run_validation] before anything else: with [allow_blank] the result
    is the empty string and neither [to_internal_value] nor a validator
    is called, so that a [min_length] is not enforced on it; without
    [allow_blank] the validation fails with [blank]. *)
Theorem C10_blank_short_circuit (f : Field) (allow_blank trim_whitespace : bool)
  (partial : bool) (data : value) :
  cls f = CharField allow_blank trim_whitespace ->
  data = VStr EmptyString
  \/ (trim_whitespace = true /\ strip (str data) = EmptyString) ->
  Fields.run_validation f partial (Present data)
  = (if allow_blank then ret (VStr EmptyString)
     else lift (fail (error_messages f) "blank" []))
  /\ calls (Fields.run_validation f partial (Present data)) = [].
Proof.
  intros Hcls Hblank.
  assert (Fields.run_validation f partial (Present data)
          = if allow_blank then ret (VStr EmptyString)
            else lift (fail (error_messages f) "blank" [])) as E;
    [ | rewrite E; split; [reflexivity | now destruct allow_blank] ].
  unfold Fields.run_validation. rewrite Hcls.
  unfold CharField_run_validation.
  assert (CharField_is_blank trim_whitespace (Present data) = true) as ->.
  { unfold CharField_is_blank. destruct Hblank as [-> | [-> H]].
    - reflexivity.
    - rewrite H. apply orb_true_r. }
  now destruct allow_blank.
Qed.

(** A string field with [allow_blank=True] and [min_length=5] accepts
    whitespace as the empty string, on which its validator would not have
    returned. *)
Lemma C10_blank_short_circuit_witness :
  cls blank_min_length = CharField true true
  /\ strip (str (VStr "  ")) = EmptyString
  /\ (Fields.run_validation blank_min_length false (Present (VStr "  "))
      = ret (VStr EmptyString)
      /\ calls (Fields.run_validation blank_min_length false (Present (VStr "  ")))
         = [])
  /\ validators blank_min_length = [MinLengthValidator 5]
  /\ MinLengthValidator 5 (VStr EmptyString) <> Return tt.
Proof.
  split; [reflexivity | ]. split; [reflexivity | ]. split.
  - apply (C10_blank_short_circuit blank_min_length true true false (VStr "  ")).
    + reflexivity.
    + right. split; reflexivity.
  - split; [reflexivity | discriminate].
Defined.

(** ** C1: conversion followed by representation *)

Lemma get_set_string {V} (d : list (string * V)) (k k' : string) (v : V) :
  OrderedDict.get String.eqb (OrderedDict.set String.eqb d k v) k'
  = if String.eqb k' k then Some v else OrderedDict.get String.eqb d k'.
Proof.
  induction d as [ | [k0 v0] r IH]; cbn.
  - reflexivity.
  - destruct (String.eqb_spec k k0) as [-> | Hk]; cbn.
    + destruct (String.eqb k' k0); reflexivity.
    + rewrite IH. destruct (String.eqb_spec k' k0) as [-> | ]; [ | reflexivity].
      destruct (String.eqb_spec k0 k); [congruence | reflexivity].
Qed.

(** Every entry of the table of a choice field is filed under the text of
    its key. *)
Lemma choice_table_keys (choices : list choice) (s : string) (k : scalar) :
  OrderedDict.get String.eqb (choice_strings_to_values choices) s = Some k ->
  str (of_scalar k) = s.
Proof.
  unfold choice_strings_to_values.
  generalize (OrderedDict.keys (flatten_choices_dict (to_choices_dict choices))).
  intros keys.
  assert (forall table,
             (forall s' k', OrderedDict.get String.eqb table s' = Some k' ->
                            str (of_scalar k') = s') ->
             forall s' k',
               OrderedDict.get String.eqb
                 (fold_left (fun table key =>
                               OrderedDict.set String.eqb table
                                 (str (of_scalar key)) key) keys table) s'
               = Some k' ->
               str (of_scalar k') = s') as H.
  { induction keys as [ | key rest IH]; intros table Htable; cbn; [exact Htable | ].
    apply IH. intros s' k'. rewrite get_set_string.
    destruct (String.eqb_spec s' (str (of_scalar key))) as [-> | ].
    - now intros [= <-].
    - apply Htable. }
  apply (H []). discriminate.
Qed.

Lemma str_of_int_nonempty (n : Z) : str_of_int n <> EmptyString.
Proof.
  intros E. pose proof (int_of_str_of_int n) as H. rewrite E in H. discriminate.
Qed.

Lemma empty_text_key (k : scalar) :
  str (of_scalar k) = EmptyString -> of_scalar k = VStr EmptyString.
Proof.
  destruct k as [ | [] | n | s]; cbn; try discriminate.
  - intros E. now destruct (str_of_int_nonempty n).
  - now intros ->.
Qed.

Lemma is_empty_str_true (v : value) :
  is_empty_str v = true -> v = VStr EmptyString.
Proof.
  destruct v; cbn; try discriminate.
  intros H. apply String.eqb_eq in H. now subst.
Qed.

Lemma fail_is_not_return {A} (m : messages) (k : string)
  (kw : list (string * value)) (a : A) :
  fail m k kw <> Return a.
Proof.
  destruct (fail_raises (A := A) m k kw) as [e ->]. discriminate.
Qed.

(** *** The choice field *)

Lemma choice_key_is_fixed (choices : list choice) (s : string) (key : scalar) :
  OrderedDict.get String.eqb (choice_strings_to_values choices) s = Some key ->
  ChoiceField_to_representation choices (of_scalar key)
  = Return (of_scalar key).
Proof.
  intros E. pose proof (choice_table_keys _ _ _ E) as Hs.
  unfold ChoiceField_to_representation.
  destruct key as [ | b | n | t]; cbn [of_scalar] in *; [reflexivity | | | ].
  - cbn [is_empty_str]. now rewrite Hs, E.
  - cbn [is_empty_str]. now rewrite Hs, E.
  - destruct (is_empty_str (VStr t)); [reflexivity | ]. now rewrite Hs, E.
Qed.

Lemma choice_round_trip (f : Field) (choices : list choice) (allow_blank : bool)
  (x v : value) :
  x <> VNone ->
  ChoiceField_to_internal_value f choices allow_blank x = Return v ->
  ChoiceField_to_representation choices v = Return v
  /\ ChoiceField_to_representation choices x = Return v.
Proof.
  intros Hx. unfold ChoiceField_to_internal_value.
  destruct (is_empty_str x) eqn:Ex.
  - apply is_empty_str_true in Ex. subst x.
    destruct allow_blank; cbn [andb].
    + intros [= <-]. now split.
    + destruct (OrderedDict.get String.eqb (choice_strings_to_values choices)
                  (str (VStr EmptyString))) as [key | ] eqn:E.
      * intros [= <-]. apply choice_table_keys in E.
        rewrite (empty_text_key key E). now split.
      * intros H. now destruct (fail_is_not_return _ _ _ _ H).
  - cbn [andb].
    destruct (OrderedDict.get String.eqb (choice_strings_to_values choices) (str x))
      as [key | ] eqn:E.
    + intros [= <-]. split.
      * exact (choice_key_is_fixed _ _ _ E).
      * unfold ChoiceField_to_representation. rewrite Ex, E.
        destruct x; congruence.
    + intros H. now destruct (fail_is_not_return _ _ _ _ H).
Qed.

(** *** The boolean fields *)

Lemma boolean_round_trip (f : Field) (x v : value) :
  BooleanField_to_internal_value f x = Return v ->
  BooleanField_to_representation f v = Return v
  /\ BooleanField_to_representation f x = Return v.
Proof.
  unfold BooleanField_to_internal_value, BooleanField_to_representation.
  destruct (in_set x BooleanField_TRUE_VALUES) as [[ | ] | ];
    [ intros [= <-]; now split | | intros H; now destruct (fail_is_not_return _ _ _ _ H) ].
  destruct (in_set x BooleanField_FALSE_VALUES) as [[ | ] | ];
    [ intros [= <-]; now split | | intros H; now destruct (fail_is_not_return _ _ _ _ H) ].
  destruct (in_set x BooleanField_NULL_VALUES) as [[ | ] | ];
    try (intros H; now destruct (fail_is_not_return _ _ _ _ H)).
  destruct (allow_null f) eqn:En;
    [ | intros H; now destruct (fail_is_not_return _ _ _ _ H) ].
  intros [= <-]. cbn. now split.
Qed.

Lemma null_values_are_apart (x : value) :
  in_set x NullBooleanField_NULL_VALUES = Some true ->
  in_set x NullBooleanField_TRUE_VALUES = Some false
  /\ in_set x NullBooleanField_FALSE_VALUES = Some false.
Proof.
  destruct x as [ | [] | n | s | l | d]; try discriminate; try (now split).
  unfold in_set. cbn [to_scalar option_map]. intros [= H].
  cbn in H.
  repeat (apply orb_true_iff in H as [H | H];
          [apply String.eqb_eq in H; subst s; now split | ]).
  discriminate H.
Qed.

Lemma null_boolean_round_trip (f : Field) (x v : value) :
  NullBooleanField_to_internal_value f x = Return v ->
  NullBooleanField_to_representation f v = Return v
  /\ NullBooleanField_to_representation f x = Return v.
Proof.
  unfold NullBooleanField_to_internal_value, NullBooleanField_to_representation.
  destruct (in_set x NullBooleanField_NULL_VALUES) as [[ | ] | ] eqn:En.
  - destruct (null_values_are_apart x En) as [-> ->].
    intros [= <-]. now split.
  - destruct (in_set x NullBooleanField_TRUE_VALUES) as [[ | ] | ];
      [ intros [= <-]; now split | | intros H; now destruct (fail_is_not_return _ _ _ _ H) ].
    destruct (in_set x NullBooleanField_FALSE_VALUES) as [[ | ] | ];
      [ intros [= <-]; now split | | ];
      intros H; now destruct (fail_is_not_return _ _ _ _ H).
  - destruct x; try discriminate En; cbn;
      intros H; now destruct (fail_is_not_return _ _ _ _ H).
Qed.

(** *** The string field *)

Lemma char_round_trip (f : Field) (trim_whitespace : bool) (x v : value) :
  CharField_to_internal_value f trim_whitespace x = Return v ->
  CharField_to_representation trim_whitespace v = Return v
  /\ CharField_to_representation trim_whitespace x = Return v.
Proof.
  unfold CharField_to_internal_value, CharField_to_representation.
  destruct x; try (intros H; now destruct (fail_is_not_return _ _ _ _ H));
    intros [= <-]; (split; [ | reflexivity]); cbn [str];
    destruct trim_whitespace; try reflexivity; now rewrite strip_idempotent.
Qed.

(** *** The integer field *)

Lemma integer_round_trip (f : Field) (x v r : value) :
  IntegerField_to_internal_value f x = Return v ->
  IntegerField_to_representation v = Return v
  /\ (IntegerField_to_representation x = Return r -> r = v).
Proof.
  unfold IntegerField_to_internal_value.
  destruct (match x with
            | VStr s => Nat.ltb IntegerField_MAX_STRING_LENGTH (String.length s)
            | _ => false
            end);
    [intros H; now destruct (fail_is_not_return _ _ _ _ H) | ].
  destruct (int_of_str (re_decimal_sub (str x))) as [n | ] eqn:E;
    [ | intros H; now destruct (fail_is_not_return _ _ _ _ H) ].
  intros [= <-]. split; [reflexivity | ].
  destruct x as [ | b | m | s | l | d]; cbn [IntegerField_to_representation];
    try discriminate.
  - destruct b; discriminate E.
  - cbn [str repr] in E.
    rewrite (re_decimal_sub_no_dot _ (int_of_str_no_dot _ _ (int_of_str_of_int m))),
      int_of_str_of_int in E.
    congruence.
  - cbn [str] in E.
    destruct (int_of_str s) as [k | ] eqn:Es; [ | discriminate].
    rewrite (re_decimal_sub_no_dot _ (int_of_str_no_dot _ _ Es)), Es in E.
    congruence.
Qed.

(** C1 (as the code has it). For the boolean, null-boolean, string,
    integer and choice fields and any input that [to_internal_value]
    accepts (for the choice field: any input but [None]), the converted
    value is left as it is by [to_representation]; for the integer field,
    whenever [to_representation] is defined on the input itself it gives
    the same result there; for the other four it is defined on the input
    and gives the same result. *)
Theorem C1_round_trip_where_defined
  (f : Field) (partial : bool) (x v : value) :
  converts_scalars (cls f) = true ->
  (is_choice_class (cls f) = true -> x <> VNone) ->
  outcome (Fields.to_internal_value f partial x) = Return v ->
  to_representation f v = Return v
  /\ (forall r, to_representation f x = Return r ->
                to_representation f v = to_representation f x)
  /\ (cls f <> IntegerField ->
      to_representation f v = to_representation f x).
Proof.
  unfold Fields.to_internal_value, to_representation.
  destruct (cls f) as [ | | ab tw | | choices ab | | ]; cbn [converts_scalars];
    try discriminate; intros _ Hnone; unfold lift, outcome; cbn [snd]; intros H.
  - destruct (boolean_round_trip f x v H) as [Hv Hx].
    split; [exact Hv | split; intros; congruence].
  - destruct (null_boolean_round_trip f x v H) as [Hv Hx].
    split; [exact Hv | split; intros; congruence].
  - destruct (char_round_trip f tw x v H) as [Hv Hx].
    split; [exact Hv | split; intros; congruence].
  - split; [exact (proj1 (integer_round_trip f x v v H)) | ].
    split; [ | congruence].
    intros r Hr. rewrite Hr.
    rewrite (proj2 (integer_round_trip f x v r H) Hr).
    exact (proj1 (integer_round_trip f x v v H)).
  - destruct (choice_round_trip f choices ab x v (Hnone eq_refl) H) as [Hv Hx].
    split; [exact Hv | split; intros; congruence].
Qed.

(** The text [" 7 "] for an integer field: accepted, and represented as 7
    before as well as after the conversion. *)
Lemma C1_round_trip_where_defined_witness :
  outcome (Fields.to_internal_value plain_integer false (VStr " 7 "))
  = Return (VInt 7)
  /\ to_representation plain_integer (VStr " 7 ") = Return (VInt 7)
  /\ to_representation plain_integer (VInt 7)
     = to_representation plain_integer (VStr " 7 ").
Proof.
  split; [reflexivity | ]. split; [reflexivity | ].
  refine (proj1 (proj2 (C1_round_trip_where_defined plain_integer false
                          (VStr " 7 ") (VInt 7) eq_refl _ eq_refl))
            (VInt 7) eq_refl).
  discriminate.
Defined.

(** C1 does not hold as the specification states it. The integer field
    accepts ["1.0"] and converts it to 1, but [to_representation] is not defined on ["1.0"]:
    [int("1.0")] raises [ValueError]. And a choice field with the choice
    ["None"] converts [None] to the text ["None"], which it represents as
    that text, while it represents [None] as [None]. *)
Lemma C1_counterexample :
  (outcome (Fields.to_internal_value plain_integer false (VStr "1.0"))
   = Return (VInt 1)
   /\ to_representation plain_integer (VInt 1) = Return (VInt 1)
   /\ to_representation plain_integer (VStr "1.0") = Raise ValueError
   /\ to_representation plain_integer (VInt 1)
      <> to_representation plain_integer (VStr "1.0"))
  /\ (outcome (Fields.to_internal_value none_text_choice false VNone)
      = Return (VStr "None")
      /\ to_representation none_text_choice (VStr "None") = Return (VStr "None")
      /\ to_representation none_text_choice VNone = Return VNone
      /\ to_representation none_text_choice (VStr "None")
         <> to_representation none_text_choice VNone).
Proof.
  split; repeat split; try reflexivity; discriminate.
Qed.

(* ===================================================================== *)
(** * Further properties of the code *)
(* ===================================================================== *)

(** ** [set_value] and [get_attribute] *)

Section SetValue.
Variable getattr : value -> string -> result value.

Lemma set_path_read_back (more : list string) :
  forall (d d' : list (string * value)) (key : string) (v : value),
    set_path d key more v = Return d' ->
    get_attribute getattr (VDict d') (key :: more) = Return v.
Proof.
  induction more as [ | key' more' IH]; intros d d' key v; cbn [set_path].
  - intros [= <-]. cbn. now rewrite get_set_string, String.eqb_refl.
  - destruct (match OrderedDict.get String.eqb d key with
              | None => Some []
              | Some (VDict d0) => Some d0
              | Some _ => None
              end) as [inner | ]; [ | discriminate].
    destruct (set_path inner key' more' v) as [inner' | ] eqn:E; [ | discriminate].
    intros [= <-]. cbn [get_attribute].
    rewrite get_set_string, String.eqb_refl. exact (IH _ _ _ _ E).
Qed.

Lemma set_path_on_empty (more : list string) (key : string) (v : value) :
  set_path [] key more v = Return (nest key more v).
Proof.
  revert key. induction more as [ | key' more' IH]; intros key; cbn.
  - reflexivity.
  - now rewrite IH.
Qed.

(** X1. What [set_value] writes under a path of keys, [get_attribute]
    reads back from the resulting tree along the same path; and on an
    empty tree [set_value] always succeeds and builds the nested mappings
    of the path. *)
Theorem X1_set_value_read_back
  (d d' : list (string * value)) (keys : list string) (v : value) :
  keys <> [] ->
  set_value d keys v = Return d' ->
  get_attribute getattr (VDict d') keys = Return v
  /\ (forall key more, keys = key :: more ->
                       set_value [] keys v = Return (nest key more v)).
Proof.
  intros Hne Hset. destruct keys as [ | key more]; [congruence | ].
  split.
  - exact (set_path_read_back more d d' key v Hset).
  - intros key0 more0 [= <- <-]. apply set_path_on_empty.
Qed.

Lemma get_attribute_empty_tree (q : list string) :
  q <> [] -> get_attribute getattr (VDict []) q = Raise KeyError.
Proof. destruct q; [congruence | reflexivity]. Qed.

Lemma set_path_other_paths (prefix : list string) :
  forall (d d' : list (string * value)) (key : string) (more : list string)
         (v : value) (a b : string) (p' q' : list string),
    (key :: more = prefix ++ a :: p')%list ->
    a <> b ->
    set_path d key more v = Return d' ->
    get_attribute getattr (VDict d') (prefix ++ b :: q')%list
    = get_attribute getattr (VDict d) (prefix ++ b :: q')%list.
Proof.
  induction prefix as [ | k prefix' IH]; intros d d' key more v a b p' q' Hp Hab Hset.
  - cbn in Hp. injection Hp as -> ->. cbn [List.app get_attribute].
    assert (OrderedDict.get String.eqb d' b = OrderedDict.get String.eqb d b) as ->;
      [ | reflexivity].
    assert (String.eqb b a = false) as Hba
        by (apply String.eqb_neq; congruence).
    destruct p' as [ | key' p'']; cbn [set_path] in Hset.
    + injection Hset as <-. now rewrite get_set_string, Hba.
    + destruct (match OrderedDict.get String.eqb d a with
                | None => Some []
                | Some (VDict d0) => Some d0
                | Some _ => None
                end) as [inner | ]; [ | discriminate].
      destruct (set_path inner key' p'' v) as [inner' | ]; [ | discriminate].
      injection Hset as <-. now rewrite get_set_string, Hba.
  - cbn [List.app] in Hp. injection Hp as -> ->.
    destruct (prefix' ++ a :: p')%list as [ | key' more'] eqn:Emore;
      [now destruct prefix' | ].
    cbn [set_path] in Hset. cbn [List.app get_attribute].
    destruct (OrderedDict.get String.eqb d k) as [x | ] eqn:Ek.
    + destruct x as [ | | | | | inner]; try discriminate Hset.
      destruct (set_path inner key' more' v) as [inner' | ] eqn:E; [ | discriminate].
      injection Hset as <-. rewrite get_set_string, String.eqb_refl.
      exact (IH inner inner' key' more' v a b p' q' (eq_sym Emore) Hab E).
    + destruct (set_path [] key' more' v) as [inner' | ] eqn:E; [ | discriminate].
      injection Hset as <-. rewrite get_set_string, String.eqb_refl.
      rewrite (IH [] inner' key' more' v a b p' q' (eq_sym Emore) Hab E).
      apply get_attribute_empty_tree. now destruct prefix'.
Qed.

(** X2. [set_value] under one path leaves every path that parts ways
    with it as it was: [get_attribute] along such a path gives the same
    result, or raises the same error, before and after. *)
Theorem X2_set_value_leaves_other_paths
  (d d' : list (string * value)) (p q : list string) (v : value) :
  part_ways p q ->
  set_value d p v = Return d' ->
  get_attribute getattr (VDict d') q = get_attribute getattr (VDict d) q.
Proof.
  intros [prefix [a [b [p' [q' [-> [-> Hab]]]]]]] Hset.
  destruct (prefix ++ a :: p')%list as [ | key more] eqn:E;
    [now destruct prefix | ].
  cbn [set_value] in Hset.
  exact (set_path_other_paths prefix d d' key more v a b p' q' (eq_sym E) Hab Hset).
Qed.

End SetValue.

(** The second example of the docstring of [set_value], continued by a
    dotted path. *)
Lemma X1_set_value_read_back_witness :
  set_value [("a", VInt 1)] ["x"; "y"] (VInt 2)
  = Return [("a", VInt 1); ("x", VDict [("y", VInt 2)])]
  /\ get_attribute no_attribute
       (VDict [("a", VInt 1); ("x", VDict [("y", VInt 2)])]) ["x"; "y"]
     = Return (VInt 2).
Proof.
  split; [reflexivity | ].
  refine (proj1 (X1_set_value_read_back no_attribute [("a", VInt 1)] _ ["x"; "y"] (VInt 2) _ eq_refl)).
  discriminate.
Defined.

(** Two fields with the sources [address.city] and [address.zip] share
    the mapping [address]. *)
Lemma X2_set_value_leaves_other_paths_witness :
  set_value [("address", VDict [("zip", VInt 1)])] ["address"; "city"] (VStr "NY")
  = Return [("address", VDict [("zip", VInt 1); ("city", VStr "NY")])]
  /\ get_attribute no_attribute
       (VDict [("address", VDict [("zip", VInt 1); ("city", VStr "NY")])])
       ["address"; "zip"]
     = get_attribute no_attribute (VDict [("address", VDict [("zip", VInt 1)])])
         ["address"; "zip"].
Proof.
  split; [reflexivity | ].
  apply (X2_set_value_leaves_other_paths no_attribute _ _ ["address"; "city"] _ (VStr "NY")).
  - exists ["address"], "city", "zip", [], []. repeat split. discriminate.
  - reflexivity.
Defined.

(** ** Merging and binding *)

Lemma get_app_string {V} (l1 l2 : list (string * V)) (k : string) :
  OrderedDict.get String.eqb (l1 ++ l2)%list k
  = match OrderedDict.get String.eqb l1 k with
    | Some v => Some v
    | None => OrderedDict.get String.eqb l2 k
    end.
Proof.
  induction l1 as [ | [k1 v1] r IH]; cbn; [reflexivity | ].
  destruct (String.eqb k k1); [reflexivity | exact IH].
Qed.

Lemma get_none_not_in {V} (l : list (string * V)) (k : string) :
  OrderedDict.get String.eqb l k = None <-> ~ In k (map fst l).
Proof.
  induction l as [ | [k1 v1] r IH]; cbn; [tauto | ].
  destruct (String.eqb_spec k k1) as [-> | Hk].
  - split; [discriminate | tauto].
  - rewrite IH. split; [intros H [E | Hin]; [congruence | tauto] | tauto].
Qed.

(** In a mapping (no key twice) the order of the entries does not matter
    to a lookup. *)
Lemma get_rev_string {V} (l : list (string * V)) (k : string) :
  NoDup (map fst l) ->
  OrderedDict.get String.eqb (List.rev l) k = OrderedDict.get String.eqb l k.
Proof.
  induction l as [ | [k1 v1] r IH]; cbn [List.rev map fst]; intros Hnd;
    [reflexivity | ].
  apply NoDup_cons_iff in Hnd as [Hk1 Hnd].
  rewrite get_app_string, (IH Hnd). cbn.
  destruct (String.eqb_spec k k1) as [-> | Hk].
  - now rewrite (proj2 (get_none_not_in r k1) Hk1).
  - now destruct (OrderedDict.get String.eqb r k).
Qed.

(** [d.update(m)]: the last entry of [m] for a key wins, and the keys that
    [m] does not have keep their values. *)
Lemma get_update_string {V} (m d : list (string * V)) (k : string) :
  OrderedDict.get String.eqb (OrderedDict.update String.eqb d m) k
  = match OrderedDict.get String.eqb (List.rev m) k with
    | Some v => Some v
    | None => OrderedDict.get String.eqb d k
    end.
Proof.
  unfold OrderedDict.update. revert d.
  induction m as [ | [k0 v0] m' IH]; intros d; cbn [fold_left List.rev fst snd];
    [reflexivity | ].
  rewrite IH, get_app_string, get_set_string. cbn.
  destruct (OrderedDict.get String.eqb (List.rev m') k); [reflexivity | ].
  now destruct (String.eqb k k0).
Qed.

(** X3. With an empty key path (the wildcard source) [set_value] merges a
    mapping into the tree: afterwards every key of the mapping holds the
    value of the mapping, and every other key holds what it held
    before. *)
Theorem X3_set_value_merges_mapping
  (d d' m : list (string * value)) (k : string) :
  NoDup (map fst m) ->
  set_value d [] (VDict m) = Return d' ->
  OrderedDict.get String.eqb d' k
  = match OrderedDict.get String.eqb m k with
    | Some v => Some v
    | None => OrderedDict.get String.eqb d k
    end.
Proof.
  cbn. intros Hnd [= <-]. now rewrite get_update_string, get_rev_string.
Qed.

(** The first example of the docstring of [set_value], with a key that
    the tree already has. *)
Lemma X3_set_value_merges_mapping_witness :
  set_value [("a", VInt 1); ("c", VInt 3)] [] (VDict [("b", VInt 2); ("a", VInt 9)])
  = Return [("a", VInt 9); ("c", VInt 3); ("b", VInt 2)]
  /\ OrderedDict.get String.eqb [("a", VInt 9); ("c", VInt 3); ("b", VInt 2)] "a"
     = Some (VInt 9).
Proof.
  split; [reflexivity | ].
  refine (X3_set_value_merges_mapping [("a", VInt 1); ("c", VInt 3)] _
            [("b", VInt 2); ("a", VInt 9)] "a" _ eq_refl).
  repeat constructor; cbn; intuition discriminate.
Defined.

(** *** [Field.bind] *)

Lemma split_dots_nonempty (s : string) : split_dots s <> [].
Proof.
  induction s as [ | c r IH]; cbn; [discriminate | ].
  destruct (Ascii.eqb c "."); [discriminate | ].
  destruct (split_dots r); [congruence | discriminate].
Qed.

(** ['.'.join(s.split('.')) == s] *)
Lemma join_split_dots (s : string) : join "." (split_dots s) = s.
Proof.
  induction s as [ | c r IH]; [reflexivity | ].
  pose proof (split_dots_nonempty r) as Hne. cbn [split_dots].
  destruct (Ascii.eqb_spec c ".") as [-> | Hc].
  - destruct (split_dots r) as [ | x l]; [congruence | ].
    change (join "." (EmptyString :: x :: l))
      with (EmptyString ++ "." ++ join "." (x :: l)).
    now rewrite IH.
  - destruct (split_dots r) as [ | x l]; [congruence | ].
    destruct l as [ | y l'].
    + cbn in IH |- *. now rewrite IH.
    + change (join "." (String c x :: y :: l'))
        with (String c (x ++ "." ++ join "." (y :: l'))).
      change (join "." (x :: y :: l')) with (x ++ "." ++ join "." (y :: l')) in IH.
      now rewrite IH.
Qed.

Lemma split_dots_segments (s seg : string) :
  In seg (split_dots s) -> contains "." seg = false.
Proof.
  revert seg. induction s as [ | c r IH]; intros seg; cbn [split_dots].
  - intros [<- | []]. reflexivity.
  - pose proof (split_dots_nonempty r) as Hne.
    destruct (Ascii.eqb_spec c ".") as [-> | Hc].
    + intros [<- | Hin]; [reflexivity | now apply IH].
    + destruct (split_dots r) as [ | x l]; [congruence | ].
      intros [<- | Hin].
      * rewrite contains_dot_cons.
        apply orb_false_iff. split.
        -- now apply Ascii.eqb_neq.
        -- apply IH. now left.
      * apply IH. now right.
Qed.

(** X4. When [bind] succeeds, the bound field carries the given name, its
    declared source was not that name, and its source path is empty
    exactly for the wildcard source; otherwise the path is the source
    (the field name when no source was declared) cut at the dots:
    joining its segments with dots gives the source back, and no segment
    holds a dot. *)
Theorem X4_bind_source_path (name : string) (o : FieldObject) (b : BoundField) :
  bind_field name o = Return b ->
  let src := match obj_source o with
             | Some s => s
             | None => name
             end in
  field_name b = name
  /\ obj_source o <> Some name
  /\ (source_attrs b = [] <-> src = "*")
  /\ (src <> "*" ->
      join "." (source_attrs b) = src
      /\ forall seg, In seg (source_attrs b) -> contains "." seg = false).
Proof.
  intros H src. unfold bind_field in H.
  destruct (match obj_source o with
            | Some s => String.eqb s name
            | None => false
            end) eqn:Ered; [discriminate | ].
  injection H as <-. cbn [field_name source_attrs]. fold src.
  split; [reflexivity | ]. split.
  - intros E. rewrite E, String.eqb_refl in Ered. discriminate.
  - destruct (String.eqb_spec src "*") as [Hw | Hw].
    + split; [tauto | ]. intros Hn. congruence.
    + split.
      * split; [ | congruence]. intros E. now destruct (split_dots_nonempty src).
      * intros _. split; [apply join_split_dots | apply split_dots_segments].
Qed.

(** A field [city] declared with the source [address.city]. *)
Lemma X4_bind_source_path_witness :
  exists b,
    bind_field "city" (of_field city_field) = Return b
    /\ source_attrs b = ["address"; "city"]
    /\ join "." (source_attrs b) = "address.city".
Proof.
  pose (b := {| field_name := "city";
                source_attrs := ["address"; "city"];
                bound_run_validation :=
                  obj_run_validation (of_field city_field) "address.city" |}).
  assert (E : bind_field "city" (of_field city_field) = Return b) by reflexivity.
  exists b. split; [exact E | ]. split; [reflexivity | ].
  refine (proj1 (proj2 (proj2 (proj2
            (X4_bind_source_path "city" (of_field city_field) b E))) _)).
  discriminate.
Defined.

(** ** Fields *)

(** X5. A value that is absent from the input never reaches
    [to_internal_value] or a validator, whatever the class of the field:
    in partial mode the field is skipped; otherwise a required field
    fails with [required], even when it has a default; an optional field
    returns its default as it is, unconverted and unvalidated, and is
    skipped when it has none. A serializer used as a field does the
    same. *)
Theorem X5_absent_value (f : Field) (partial : bool) :
  Fields.run_validation f partial Absent
  = (if partial then raise SkipFieldException
     else if required f then lift (fail (error_messages f) "required" [])
     else match default f with
          | Some d => ret d
          | None => raise SkipFieldException
          end)
  /\ calls (Fields.run_validation f partial Absent) = []
  /\ forall (to_internal : value -> M value) (clean_hook : value -> result value),
       run_validation_with f partial to_internal clean_hook Absent
       = Fields.run_validation f partial Absent.
Proof.
  assert (E : Field_run_validation f partial Absent
              = if partial then raise SkipFieldException
                else if required f then lift (fail (error_messages f) "required" [])
                else match default f with
                     | Some d => ret d
                     | None => raise SkipFieldException
                     end).
  { unfold Field_run_validation, validate_empty_values, get_default.
    destruct partial; [reflexivity | ].
    destruct (required f).
    - unfold lift.
      destruct (fail_raises (A := bool * value) (error_messages f) "required" [])
        as [e He].
      destruct (fail_raises (A := value) (error_messages f) "required" [])
        as [e' He'].
      assert (e = e') by (unfold fail in He, He'; destruct (format _ _); congruence).
      subst. now rewrite He, He'.
    - destruct (default f); reflexivity. }
  assert (E' : Fields.run_validation f partial Absent
               = Field_run_validation f partial Absent)
    by (unfold Fields.run_validation; now destruct (cls f)).
  split; [now rewrite E', E | ]. split.
  - rewrite E', E. destruct partial; [reflexivity | ].
    destruct (required f); [reflexivity | now destruct (default f)].
  - intros to_internal clean_hook. rewrite E'.
    unfold run_validation_with, Field_run_validation.
    destruct (validate_empty_values f partial Absent) as [[[ | ] v] | e] eqn:Ev;
      try reflexivity.
    exfalso. unfold validate_empty_values, get_default in Ev.
    destruct partial; [discriminate | ].
    destruct (required f).
    + now destruct (fail_is_not_return _ _ _ _ Ev).
    + destruct (default f); discriminate.
Qed.

(** *** The integer field *)

Lemma int_of_str_bad_head (c : ascii) (r : string) :
  is_int_space c = false -> is_digit c = false ->
  Ascii.eqb c "+" = false -> Ascii.eqb c "-" = false ->
  Ascii.eqb c "." = false ->
  int_of_str (re_decimal_sub (String c r)) = None.
Proof.
  intros Hsp Hd Hplus Hminus Hdot. cbn [re_decimal_sub]. rewrite Hdot.
  cbn [andb]. unfold int_of_str, strip_by.
  rewrite (lstrip_by_fixed is_int_space c _ Hsp).
  destruct (rstrip_by_head is_int_space c (re_decimal_sub r) Hsp) as [r' ->].
  rewrite Hplus, Hminus. unfold int_of_digits. cbn [literal_digits].
  rewrite Hd. now destruct (Ascii.eqb c "_").
Qed.

Lemma integer_field_keeps_int (f : Field) (partial : bool) (n : Z) :
  cls f = IntegerField ->
  Fields.to_internal_value f partial (VInt n) = ret (VInt n).
Proof.
  intros Hcls. rewrite (integer_to_internal_value f partial _ Hcls).
  unfold IntegerField_to_internal_value. cbn [str repr].
  rewrite (re_decimal_sub_no_dot _ (int_of_str_no_dot _ _ (int_of_str_of_int n))).
  now rewrite int_of_str_of_int.
Qed.

(** X6. The integer field returns an [int] unchanged, of any size and
    sign, and refuses a [bool], [None], a [list] and a [dict] with
    [invalid]: the errors of [int] on them never escape. *)
Theorem X6_integer_field_on_values (f : Field) (partial : bool) :
  cls f = IntegerField ->
  (forall n : Z, Fields.to_internal_value f partial (VInt n) = ret (VInt n))
  /\ (forall data,
         match data with
         | VInt _ | VStr _ => True
         | _ => Fields.to_internal_value f partial data
                = lift (fail (error_messages f) "invalid" [])
         end).
Proof.
  intros Hcls. split.
  - intros n. now apply integer_field_keeps_int.
  - intros data.
    destruct data as [ | [ | ] | n | s | l | d]; try exact I;
      rewrite (integer_to_internal_value f partial _ Hcls);
      unfold IntegerField_to_internal_value; try reflexivity.
    + cbn [str repr].
      change ("[" ++ join ", " (map repr l) ++ "]")
        with (String "[" (join ", " (map repr l) ++ "]")).
      now rewrite int_of_str_bad_head.
    + cbn [str repr].
      match goal with
      | |- context [re_decimal_sub ("{" ++ ?x)] =>
          change ("{" ++ x) with (String "{" x)
      end.
      now rewrite int_of_str_bad_head.
Qed.

Lemma X6_integer_field_on_values_witness :
  Fields.to_internal_value plain_integer false (VInt (-12)) = ret (VInt (-12))
  /\ Fields.to_internal_value plain_integer false (VBool true)
     = lift (Raise (ValidationError (Text invalid_integer_message))).
Proof.
  destruct (X6_integer_field_on_values plain_integer false eq_refl) as [Hint Hother].
  split; [exact (Hint (-12)) | exact (Hother (VBool true))].
Defined.

(** X7. Whatever [int] accepts, the integer field converts to the same
    number, as long as the text has at most 1000 characters: removing the
    decimal suffix never changes a text that holds an integer literal
    (surrounding whitespace, a sign and underscores between digits
    included). *)
Theorem X7_integer_field_agrees_with_int
  (f : Field) (partial : bool) (s : string) (n : Z) :
  cls f = IntegerField ->
  (String.length s <= 1000)%nat ->
  int_of_str s = Some n ->
  Fields.to_internal_value f partial (VStr s) = ret (VInt n).
Proof.
  intros Hcls Hlen Hint. rewrite (integer_to_internal_value f partial _ Hcls).
  unfold IntegerField_to_internal_value, IntegerField_MAX_STRING_LENGTH.
  apply Nat.ltb_ge in Hlen. rewrite Hlen. cbn [str].
  now rewrite (re_decimal_sub_no_dot _ (int_of_str_no_dot _ _ Hint)), Hint.
Qed.

Lemma X7_integer_field_agrees_with_int_witness :
  int_of_str " -1_000 " = Some (-1000)
  /\ Fields.to_internal_value plain_integer false (VStr " -1_000 ")
     = ret (VInt (-1000)).
Proof.
  split; [reflexivity | ].
  apply (X7_integer_field_agrees_with_int plain_integer false " -1_000 " (-1000));
    [reflexivity | cbn; lia | reflexivity].
Defined.

(** *** The boolean field *)

(** X8. The boolean field converts to [True], [False] or, only when it is
    nullable, [None], and to nothing else. A [list] or a [dict], which
    cannot be looked up in its sets, is refused with [invalid] by
    [to_internal_value], while [to_representation] lets the [TypeError]
    of the lookup escape; on every other value [to_representation]
    returns a [bool], or [None] when the field is nullable. *)
Theorem X8_boolean_field_results (f : Field) (data : value) :
  (forall v, BooleanField_to_internal_value f data = Return v ->
             v = VBool true \/ v = VBool false
             \/ (v = VNone /\ allow_null f = true))
  /\ (to_scalar data = None ->
      BooleanField_to_internal_value f data
      = fail (error_messages f) "invalid" []
      /\ BooleanField_to_representation f data = Raise TypeError)
  /\ (to_scalar data <> None ->
      exists r, BooleanField_to_representation f data = Return r
                /\ (r = VBool true \/ r = VBool false
                    \/ (r = VNone /\ allow_null f = true))).
Proof.
  split; [ | split].
  - intros v. unfold BooleanField_to_internal_value.
    destruct (in_set data BooleanField_TRUE_VALUES) as [[ | ] | ];
      [ intros [= <-]; auto | | intros H; now destruct (fail_is_not_return _ _ _ _ H) ].
    destruct (in_set data BooleanField_FALSE_VALUES) as [[ | ] | ];
      [ intros [= <-]; auto | | intros H; now destruct (fail_is_not_return _ _ _ _ H) ].
    destruct (in_set data BooleanField_NULL_VALUES) as [[ | ] | ];
      try (intros H; now destruct (fail_is_not_return _ _ _ _ H)).
    destruct (allow_null f);
      [ intros [= <-]; auto | intros H; now destruct (fail_is_not_return _ _ _ _ H) ].
  - intros Hs.
    unfold BooleanField_to_internal_value, BooleanField_to_representation, in_set.
    rewrite Hs. now split.
  - intros Hs.
    unfold BooleanField_to_representation, in_set.
    destruct (to_scalar data) as [k | ]; [ | congruence]. cbn [option_map].
    assert (Hbool : forall b : bool,
               exists r, Return (VBool b) = Return r
                         /\ (r = VBool true \/ r = VBool false
                             \/ (r = VNone /\ allow_null f = true))).
    { intros b. exists (VBool b). split; [reflexivity | ]. destruct b; auto. }
    destruct (existsb (scalar_eqb k) BooleanField_TRUE_VALUES); [apply Hbool | ].
    destruct (existsb (scalar_eqb k) BooleanField_FALSE_VALUES); [apply Hbool | ].
    destruct (existsb (scalar_eqb k) BooleanField_NULL_VALUES); cbn [andb];
      [ | apply Hbool].
    destruct (allow_null f) eqn:En; [ | apply Hbool].
    exists VNone. split; [reflexivity | auto].
Qed.

(** *** The string field *)

Lemma outcome_bind {A B} (m : M A) (k : A -> M B) :
  outcome (bind m k)
  = match outcome m with
    | Return a => outcome (k a)
    | Raise e => Raise e
    end.
Proof.
  destruct m as [l [a | e]]; cbn; [ | reflexivity].
  now destruct (k a).
Qed.

(** The validators do not change the converted value. *)
Lemma convert_and_validate_value (f : Field) (partial : bool) (data v : value) :
  outcome (convert_and_validate f partial data) = Return v ->
  outcome (Fields.to_internal_value f partial data) = Return v.
Proof.
  unfold convert_and_validate. rewrite !outcome_bind. cbn [outcome tell snd].
  destruct (outcome (Fields.to_internal_value f partial data)) as [x | e];
    [ | discriminate].
  rewrite outcome_bind.
  destruct (outcome (run_validators f x)); [ | discriminate].
  cbn. congruence.
Qed.

Lemma field_run_validation_of_value (f : Field) (partial : bool) (data : value) :
  data <> VNone ->
  Field_run_validation f partial (Present data)
  = convert_and_validate f partial data.
Proof.
  intros Hd. unfold Field_run_validation, validate_empty_values.
  destruct data; try congruence; unfold lift; now rewrite bind_return.
Qed.

(** X9. What a string field makes of a value that was supplied is never
    the empty string unless [allow_blank] is set, and when whitespace is
    trimmed it neither begins nor ends with whitespace. *)
Theorem X9_char_field_results
  (f : Field) (allow_blank trim_whitespace partial : bool) (data : value)
  (t : string) :
  cls f = CharField allow_blank trim_whitespace ->
  outcome (Fields.run_validation f partial (Present data)) = Return (VStr t) ->
  (allow_blank = false -> t <> EmptyString)
  /\ (trim_whitespace = true -> strip t = t).
Proof.
  intros Hcls. unfold Fields.run_validation. rewrite Hcls.
  unfold CharField_run_validation.
  destruct (CharField_is_blank trim_whitespace (Present data)) eqn:Eblank.
  - destruct allow_blank; cbn [negb].
    + intros [= <-]. split; [discriminate | reflexivity].
    + unfold lift, outcome. cbn [snd]. intros H.
      now destruct (fail_is_not_return _ _ _ _ H).
  - intros H.
    assert (Hconv : outcome (Fields.to_internal_value f partial data)
                    = Return (VStr t)).
    { destruct data as [ | b | n | s | l | d];
        try (rewrite field_run_validation_of_value in H by discriminate;
             exact (convert_and_validate_value _ _ _ _ H)).
      unfold Field_run_validation, validate_empty_values in H.
      destruct (allow_null f); cbn [negb] in H.
      - destruct (is_wildcard f); unfold lift in H; rewrite bind_return in H.
        + exact (convert_and_validate_value _ _ _ _ H).
        + discriminate H.
      - rewrite outcome_bind in H. unfold lift, outcome in H. cbn [snd] in H.
        destruct (fail_raises (A := bool * value) (error_messages f) "null" [])
          as [e He].
        rewrite He in H. discriminate H. }
    unfold Fields.to_internal_value in Hconv. rewrite Hcls in Hconv.
    unfold lift, outcome in Hconv. cbn [snd] in Hconv.
    unfold CharField_to_internal_value in Hconv.
    unfold CharField_is_blank in Eblank.
    apply orb_false_iff in Eblank as [Hempty Hstrip].
    assert (Ht : t = if trim_whitespace then strip (str data) else str data).
    { destruct data; try (now destruct (fail_is_not_return _ _ _ _ Hconv));
        congruence. }
    assert (Hne : str data <> EmptyString).
    { destruct data; try (now destruct (fail_is_not_return _ _ _ _ Hconv)).
      - cbn. apply str_of_int_nonempty.
      - cbn in Hempty |- *. now apply String.eqb_neq. }
    split.
    + intros _. subst t. destruct trim_whitespace; [ | exact Hne].
      cbn [andb] in Hstrip. now apply String.eqb_neq.
    + intros ->. subst t. apply strip_idempotent.
Qed.

Lemma X9_char_field_results_witness :
  outcome (Fields.run_validation (new_CharField false true None None no_kwargs)
             false (Present (VStr "  a b  ")))
  = Return (VStr "a b")
  /\ "a b" <> EmptyString /\ strip "a b" = "a b".
Proof.
  split; [reflexivity | ].
  destruct (X9_char_field_results (new_CharField false true None None no_kwargs)
              false true false (VStr "  a b  ") "a b" eq_refl eq_refl)
    as [Hne Hstrip].
  split; [exact (Hne eq_refl) | exact (Hstrip eq_refl)].
Defined.

Lemma X8_boolean_field_results_witness :
  BooleanField_to_internal_value (new_BooleanField no_kwargs) (VList [])
  = Raise (ValidationError (Text "Must be a valid boolean."))
  /\ BooleanField_to_representation (new_BooleanField no_kwargs) (VList [])
     = Raise TypeError.
Proof.
  destruct (proj1 (proj2 (X8_boolean_field_results (new_BooleanField no_kwargs)
                            (VList []))) eq_refl) as [Hconv Hrep].
  split; [exact Hconv | exact Hrep].
Defined.

(** *** The choice field *)

Lemma choice_table_values (choices : list choice) (s : string) (k : scalar) :
  OrderedDict.get String.eqb (choice_strings_to_values choices) s = Some k ->
  In k (declared_keys choices).
Proof.
  unfold choice_strings_to_values, declared_keys.
  generalize (OrderedDict.keys (flatten_choices_dict (to_choices_dict choices))).
  intros keys.
  assert (forall table,
             (forall s' k', OrderedDict.get String.eqb table s' = Some k' ->
                            In k' keys) ->
             forall rest,
               (forall k', In k' rest -> In k' keys) ->
               forall s' k',
                 OrderedDict.get String.eqb
                   (fold_left (fun table key =>
                                 OrderedDict.set String.eqb table
                                   (str (of_scalar key)) key) rest table) s'
                 = Some k' ->
                 In k' keys) as H.
  { intros table Htable rest. revert table Htable.
    induction rest as [ | key rest' IH]; intros table Htable Hrest; cbn;
      [exact Htable | ].
    apply IH.
    - intros s' k'. rewrite get_set_string.
      destruct (String.eqb s' (str (of_scalar key))).
      + intros [= <-]. apply Hrest. now left.
      + apply Htable.
    - intros k' Hk'. apply Hrest. now right. }
  apply (H [] ltac:(discriminate) keys ltac:(auto)).
Qed.

(** X10. What the choice field returns for an input is one of the keys of
    its flattened choices, the key whose text is the text of the input;
    the only other result is the empty string, for an empty input when
    [allow_blank] is set. *)
Theorem X10_choice_field_returns_declared_key
  (f : Field) (choices : list choice) (allow_blank : bool) (data v : value) :
  ChoiceField_to_internal_value f choices allow_blank data = Return v ->
  (exists key, In key (declared_keys choices)
               /\ v = of_scalar key
               /\ str (of_scalar key) = str data)
  \/ (allow_blank = true /\ data = VStr EmptyString /\ v = VStr EmptyString).
Proof.
  unfold ChoiceField_to_internal_value.
  destruct (is_empty_str data && allow_blank)%bool eqn:Eb.
  - intros [= <-]. right. apply andb_true_iff in Eb as [He Hb].
    apply is_empty_str_true in He. auto.
  - destruct (OrderedDict.get String.eqb (choice_strings_to_values choices) (str data))
      as [key | ] eqn:E.
    + intros [= <-]. left. exists key.
      split; [exact (choice_table_values _ _ _ E) | ].
      split; [reflexivity | exact (choice_table_keys _ _ _ E)].
    + intros H. now destruct (fail_is_not_return _ _ _ _ H).
Qed.

Lemma X10_choice_field_returns_declared_key_witness :
  declared_keys [Pair (SInt 1) (VStr "First");
                 Group (SStr "more") [Pair (SInt 2) (VStr "Second")]]
  = [SInt 1; SInt 2]
  /\ exists key,
       In key [SInt 1; SInt 2] /\ VInt 2 = of_scalar key
       /\ str (of_scalar key) = "2".
Proof.
  split; [reflexivity | ].
  destruct (X10_choice_field_returns_declared_key
              (new_ChoiceField [Pair (SInt 1) (VStr "First");
                                Group (SStr "more") [Pair (SInt 2) (VStr "Second")]]
                 false no_kwargs)
              [Pair (SInt 1) (VStr "First");
               Group (SStr "more") [Pair (SInt 2) (VStr "Second")]]
              false (VStr "2") (VInt 2) eq_refl)
    as [H | [H _]]; [exact H | discriminate H].
Defined.

(** X11. The representation of a choice field is defined on every value
    and is idempotent: what it returns it represents as itself. *)
Theorem X11_choice_representation_idempotent (choices : list choice) (v : value) :
  exists r, ChoiceField_to_representation choices v = Return r
            /\ ChoiceField_to_representation choices r = Return r.
Proof.
  unfold ChoiceField_to_representation at 1.
  destruct v as [ | b | n | s | l | d];
    try (now exists VNone);
    match goal with
    | |- context [is_empty_str ?x] =>
        destruct (is_empty_str x) eqn:Ee;
        [ exists x; split; [reflexivity | ];
          unfold ChoiceField_to_representation; now rewrite ?Ee
        | destruct (OrderedDict.get String.eqb (choice_strings_to_values choices)
                      (str x)) as [key | ] eqn:E;
          [ exists (of_scalar key); split;
            [reflexivity | exact (choice_key_is_fixed _ _ _ E)]
          | exists x; split; [reflexivity | ];
            unfold ChoiceField_to_representation; now rewrite ?Ee, E ] ]
    end.
Qed.

(** *** The limit validators *)

Lemma outcome_single_validator (w : validator) (i : nat) (v : value) :
  outcome (run_validators_from i [w] v [])
  = match w v with
    | Return _ => Return tt
    | Raise (ValidationError d) => Raise (ValidationError (JsonList [d]))
    | Raise e => Raise e
    end.
Proof.
  cbn [run_validators_from]. rewrite outcome_bind_tell.
  destruct (w v) as [u | e]; [reflexivity | now destruct e].
Qed.

(** X12. A limit validator never signals a validation error: it returns
    when the limit is kept, and otherwise its attempt to build the error
    with keyword arguments ends in [TypeError]. A string field with
    [min_length] therefore lets [TypeError] escape from [run_validation]
    on a text that is too short, and an integer field with [max_value]
    on a number that is too large; within the limit they return the
    converted value. *)
Theorem X12_limit_violation_is_type_error (partial : bool) (limit : Z) :
  (forall clean compare v,
      is_validation_error (BaseValidator_call clean compare limit v) = false)
  /\ (forall s : string,
         strip s <> EmptyString ->
         outcome (Fields.run_validation
                    (new_CharField false true None (Some limit) no_kwargs)
                    partial (Present (VStr s)))
         = if Z.of_nat (String.length (strip s)) <? limit
           then Raise TypeError
           else Return (VStr (strip s)))
  /\ (forall n : Z,
         outcome (Fields.run_validation
                    (new_IntegerField (Some limit) None no_kwargs)
                    partial (Present (VInt n)))
         = if n >? limit then Raise TypeError else Return (VInt n)).
Proof.
  split; [ | split].
  - intros clean compare v. unfold BaseValidator_call.
    destruct (clean v) as [c | ]; [ | reflexivity].
    now destruct (compare c limit).
  - intros s Hs.
    set (f := new_CharField false true None (Some limit) no_kwargs).
    assert (Fields.run_validation f partial (Present (VStr s))
            = convert_and_validate f partial (VStr s)) as ->.
    { unfold Fields.run_validation. change (cls f) with (CharField false true).
      unfold CharField_run_validation, CharField_is_blank. cbn [is_empty_str str].
      assert (String.eqb (strip s) EmptyString = false) as -> by now apply String.eqb_neq.
      assert (String.eqb s EmptyString = false) as ->.
      { apply String.eqb_neq. intros ->. now apply Hs. }
      cbn [orb andb]. now apply field_run_validation_of_value. }
    unfold convert_and_validate. rewrite !outcome_bind. cbn [outcome tell snd].
    change (Fields.to_internal_value f partial (VStr s)) with (ret (VStr (strip s))).
    change (outcome (ret (VStr (strip s)))) with (Return (A := value) (VStr (strip s))).
    cbn iota. rewrite outcome_bind.
    unfold run_validators. change (validators f) with [MinLengthValidator limit].
    fold (outcome (run_validators_from 0 [MinLengthValidator limit] (VStr (strip s)) [])).
    rewrite outcome_single_validator.
    unfold MinLengthValidator, BaseValidator_call. cbn [len].
    destruct (Z.of_nat (String.length (strip s)) <? limit); reflexivity.
  - intros n.
    assert (Fields.run_validation (new_IntegerField (Some limit) None no_kwargs)
              partial (Present (VInt n))
            = convert_and_validate (new_IntegerField (Some limit) None no_kwargs)
                partial (VInt n)) as ->
        by (unfold Fields.run_validation; cbn [cls new_IntegerField Field_init];
            now apply field_run_validation_of_value).
    unfold convert_and_validate. rewrite !outcome_bind. cbn [outcome tell snd].
    rewrite (integer_field_keeps_int (new_IntegerField (Some limit) None no_kwargs)
               partial n eq_refl).
    change (outcome (ret (VInt n))) with (Return (A := value) (VInt n)).
    cbn iota. rewrite outcome_bind.
    unfold run_validators.
    change (validators (new_IntegerField (Some limit) None no_kwargs))
      with [MaxValueValidator limit].
    fold (outcome (run_validators_from 0 [MaxValueValidator limit] (VInt n) [])).
    rewrite outcome_single_validator.
    unfold MaxValueValidator, BaseValidator_call. cbn [as_int].
    destruct (n >? limit); reflexivity.
Qed.

Lemma X12_limit_violation_is_type_error_witness :
  strip "ab" <> EmptyString
  /\ outcome (Fields.run_validation
                (new_CharField false true None (Some 5) no_kwargs)
                false (Present (VStr "ab")))
     = Raise TypeError.
Proof.
  assert (H : strip "ab" <> EmptyString) by discriminate.
  split; [exact H | ].
  exact (proj1 (proj2 (X12_limit_violation_is_type_error false 5)) "ab" H).
Defined.

(** ** Lists *)



Lemma list_field_outcome
  (f : Field) (partial : bool) (child : bool -> input -> M value)
  (child_rep : value -> result value) (allow_empty : bool) (items : list value) :
  cls f = ListField child child_rep allow_empty ->
  allow_empty = true \/ items <> [] ->
  (forall item, In item items ->
                returns_or_fails (item_result (child partial) item) = true) ->
  calls (Fields.to_internal_value f partial (VList items))
  = flat_map (fun item => calls (child partial (Present item))) items
  /\ outcome (Fields.to_internal_value f partial (VList items))
     = match indexed_failures (child partial) 0 items with
       | [] => Return (VList (item_values (child partial) items))
       | errors => Raise (ValidationError (JsonDict errors))
       end.
Proof.
  intros Hcls Hempty Hok.
  assert (Fields.to_internal_value f partial (VList items)
          = run_child_validation (child partial) items) as ->.
  { unfold Fields.to_internal_value. rewrite Hcls.
    unfold ListField_to_internal_value.
    destruct Hempty as [-> | Hne]; [reflexivity | ].
    destruct items; [congruence | ]. now rewrite andb_false_r. }
  apply (list_field_keeps_positions (child partial) items 0 [] [] Hok).
  intros k [].
Qed.





(** ** [is_valid] and the properties *)

(** X15. [is_valid] on an instance that was not validated yet runs the
    validation once. When the validation returns, [is_valid] returns
    [True], [validated_data] is the result and [errors] is [None]. When
    it fails, [validated_data] is the empty mapping and [errors] the
    details of the failure; [is_valid] then returns [False], or raises
    the validation error with the same details when [raise_exc] is set,
    except that empty details count as no failure. In both cases both
    properties can be read afterwards. *)
Theorem X15_is_valid_outcomes
  (run : M value) (l : list event) (r : result value) (raise_exc : bool) :
  run = (l, r) ->
  returns_or_fails r = true ->
  calls (snd (is_valid run raise_exc fresh)) = l
  /\ validated_data (fst (is_valid run raise_exc fresh))
     = Return (match r with
               | Return v => v
               | Raise _ => VDict []
               end)
  /\ errors (fst (is_valid run raise_exc fresh))
     = Return (match r with
               | Raise (ValidationError d) => Some d
               | _ => None
               end)
  /\ outcome (snd (is_valid run raise_exc fresh))
     = match r with
       | Raise (ValidationError d) =>
           if details_truthy d
           then if raise_exc then Raise (ValidationError d) else Return false
           else Return true
       | _ => Return true
       end.
Proof.
  intros -> Hr. unfold is_valid, validate_once. cbn [_validated_data fresh].
  destruct r as [v | e].
  - cbn. now rewrite app_nil_r.
  - destruct e; try discriminate Hr. cbn.
    destruct (details_truthy d); [destruct raise_exc | ]; cbn;
      now rewrite app_nil_r.
Qed.

Lemma X15_is_valid_outcomes_witness :
  outcome (snd (is_valid
                  (validate_request (person false)
                     (Present (VDict [("name", VStr "a")])))
                  false fresh))
  = Return false
  /\ errors (fst (is_valid
                    (validate_request (person false)
                       (Present (VDict [("name", VStr "a")])))
                    false fresh))
     = Return (Some (JsonDict [(KName "age", Text required_message)])).
Proof.
  destruct (X15_is_valid_outcomes
              (validate_request (person false) (Present (VDict [("name", VStr "a")])))
              _ _ false eq_refl eq_refl) as [_ [_ [He Ho]]].
  split; [exact Ho | exact He].
Defined.

(** X16. [is_valid] is memoized: on an instance that has its
    [_validated_data], it does not run the validation again, whatever
    the validation would do now, and it leaves the instance as it is. *)
Theorem X16_is_valid_memoized
  (run run' : M value) (raise_exc : bool) (st : attributes) :
  _validated_data st <> None ->
  is_valid run raise_exc st = is_valid run' raise_exc st
  /\ fst (is_valid run raise_exc st) = st
  /\ calls (snd (is_valid run raise_exc st)) = [].
Proof.
  intros H. unfold is_valid, validate_once.
  destruct (_validated_data st); [ | congruence].
  split; [reflexivity | ]. split; [reflexivity | ].
  cbn. destruct (_errors st) as [[d | ] | ]; cbn; try reflexivity.
  destruct (details_truthy d); [destruct raise_exc | ]; reflexivity.
Qed.

Lemma X16_is_valid_memoized_witness :
  is_valid (raise TypeError) false
    {| _validated_data := Some (VDict []); _errors := Some None |}
  = ({| _validated_data := Some (VDict []); _errors := Some None |}, ret true).
Proof.
  rewrite (proj1 (X16_is_valid_memoized (raise TypeError) (ret VNone) false
                    {| _validated_data := Some (VDict []); _errors := Some None |}
                    ltac:(discriminate))).
  reflexivity.
Defined.

(** ** [to_representation] *)

Section RepresentationFacts.
Variable getattr : value -> string -> result value.

(** X17. Walking a path with [get_attribute] is walking its first part
    and then the rest from where the first part ended, with the error of
    the first part if it has one; and from [None] every walk ends in
    [None]. *)
Theorem X17_get_attribute_composes (p q : list string) (instance : value) :
  get_attribute getattr instance (p ++ q)
  = match get_attribute getattr instance p with
    | Return v => get_attribute getattr v q
    | Raise e => Raise e
    end
  /\ get_attribute getattr VNone p = Return VNone.
Proof.
  split; [ | now destruct p].
  revert instance. induction p as [ | attr rest IH]; intros instance;
    [reflexivity | ].
  cbn [List.app get_attribute].
  destruct instance as [ | b | n | s | l | d]; try reflexivity;
    try (destruct (getattr _ attr) as [v | e]; [apply IH | reflexivity]).
  - now destruct q.
  - destruct (OrderedDict.get String.eqb d attr) as [v | ]; [apply IH | reflexivity].
Qed.

Lemma set_fresh_string {V} (d : list (string * V)) (k : string) (v : V) :
  ~ In k (map fst d) -> OrderedDict.set String.eqb d k v = (d ++ [(k, v)])%list.
Proof.
  induction d as [ | [k' v'] r IH]; cbn; intros Hfresh; [reflexivity | ].
  destruct (String.eqb_spec k k') as [-> | Hk]; [tauto | ].
  rewrite IH by tauto. reflexivity.
Qed.

Lemma represented_names (r : Representer) (instance : value)
  (fs : list (string * (list string * Field))) (name : string) :
  In name (map fst (represented getattr r instance fs)) -> In name (map fst fs).
Proof.
  induction fs as [ | [n [attrs f]] rest IH]; [intros [] | ].
  unfold represented. cbn [flat_map fst snd map]. rewrite map_app, in_app_iff.
  intros [H | H]; [ | right; exact (IH H)].
  destruct (represent_field getattr r instance n attrs f) as [[v | ] | e];
    cbn in H |- *; tauto.
Qed.

Lemma represent_loop_spec (r : Representer) (instance : value) :
  forall (fs : list (string * (list string * Field)))
         (ret_tree : list (string * value)),
    NoDup (map fst ret_tree ++ map fst fs) ->
    (forall entry, In entry fs ->
       exists o, represent_field getattr r instance
                   (fst entry) (fst (snd entry)) (snd (snd entry)) = Return o) ->
    represent_loop getattr r instance fs ret_tree
    = Return (ret_tree ++ represented getattr r instance fs)%list.
Proof.
  induction fs as [ | [name [attrs f]] rest IH]; intros ret_tree Hnd Hok.
  - cbn. now rewrite app_nil_r.
  - destruct (Hok _ (or_introl eq_refl)) as [o Ho]. cbn [fst snd] in Ho.
    unfold represented. cbn [represent_loop flat_map fst snd]. rewrite Ho.
    fold (represented getattr r instance rest).
    cbn [map fst] in Hnd.
    destruct o as [attr_data | ].
    + rewrite set_fresh_string.
      * rewrite IH.
        -- now rewrite <- app_assoc.
        -- rewrite map_app. cbn [map fst]. rewrite <- app_assoc. exact Hnd.
        -- intros entry Hin. apply Hok. now right.
      * apply NoDup_remove_2 in Hnd. rewrite in_app_iff in Hnd. tauto.
    + rewrite IH; [reflexivity | | intros entry Hin; apply Hok; now right].
      now apply NoDup_remove_1 in Hnd.
Qed.

(** X18. When the fields of a serializer have different names, none of
    them raises anything but a skip and [clean] returns [None] or its
    argument, the representation of an instance is a mapping with one
    entry for every field that is not skipped, under the name of the
    field (not its source) and in the order of declaration; it has no
    other entries. *)
Theorem X18_representation_entries (r : Representer) (instance : value) :
  NoDup (map fst (rep_fields r)) ->
  (forall entry, In entry (rep_fields r) ->
     exists o, represent_field getattr r instance
                 (fst entry) (fst (snd entry)) (snd (snd entry)) = Return o) ->
  (forall ret_tree, rep_clean r ret_tree = Return VNone
                    \/ rep_clean r ret_tree = Return (VDict ret_tree)) ->
  Serializer_to_representation getattr r instance
  = Return (VDict (represented getattr r instance (rep_fields r)))
  /\ NoDup (map fst (represented getattr r instance (rep_fields r)))
  /\ (forall name v,
         In (name, v) (represented getattr r instance (rep_fields r)) <->
         exists attrs f,
           In (name, (attrs, f)) (rep_fields r)
           /\ represent_field getattr r instance name attrs f = Return (Some v)).
Proof.
  intros Hnd Hok Hclean. split; [ | split].
  - unfold Serializer_to_representation.
    rewrite (represent_loop_spec r instance (rep_fields r) [] Hnd Hok).
    cbn [List.app].
    now destruct (Hclean (represented getattr r instance (rep_fields r))) as [-> | ->].
  - clear Hok Hclean. induction (rep_fields r) as [ | [n [attrs f]] rest IH];
      [constructor | ].
    cbn [map fst] in Hnd. apply NoDup_cons_iff in Hnd as [Hn Hnd].
    unfold represented. cbn [flat_map fst snd].
    fold (represented getattr r instance rest).
    destruct (represent_field getattr r instance n attrs f) as [[v | ] | e];
      cbn [List.app]; try exact (IH Hnd).
    cbn [map fst]. constructor; [ | exact (IH Hnd)].
    intros Hin. apply Hn. exact (represented_names _ _ _ _ Hin).
  - intros name v. unfold represented. rewrite in_flat_map. split.
    + intros [[n [attrs f]] [Hin Hv]]. cbn [fst snd] in Hv.
      destruct (represent_field getattr r instance n attrs f) as [[v' | ] | e] eqn:E;
        cbn in Hv; try tauto.
      destruct Hv as [[= <- <-] | []]. now exists attrs, f.
    + intros [attrs [f [Hin Hv]]]. exists (name, (attrs, f)). split; [exact Hin | ].
      cbn [fst snd]. rewrite Hv. now left.
Qed.

(** X19. A field whose key is missing from a mapping is represented by
    its default when it has one (and is left out when the root is
    partial); without a default, a nullable field represents [None], an
    optional field is left out and a required field lets the [KeyError]
    escape. What a nullable field makes of [None] depends on its class:
    a string field the text [None], while an integer field raises
    [TypeError]. *)
Theorem X19_missing_key
  (r : Representer) (d : list (string * value)) (name key : string)
  (rest : list string) (f : Field) :
  OrderedDict.get String.eqb d key = None ->
  rep_clean_method r name = None ->
  represent_field getattr r (VDict d) name (key :: rest) f
  = match default f with
    | Some dv =>
        if rep_partial r then Return None
        else match Fields.to_representation f dv with
             | Return v => Return (Some v)
             | Raise e => Raise e
             end
    | None =>
        if allow_null f
        then match cls f with
             | CharField _ _ => Return (Some (VStr "None"))
             | IntegerField => Raise TypeError
             | _ => match Fields.to_representation f VNone with
                    | Return v => Return (Some v)
                    | Raise e => Raise e
                    end
             end
        else if required f then Raise KeyError
        else Return None
    end.
Proof.
  intros Hmiss Hclean.
  unfold represent_field, Field_get_attribute, get_default.
  cbn [get_attribute]. rewrite Hmiss, Hclean.
  destruct (default f) as [dv | ].
  - destruct (rep_partial r); [reflexivity | ].
    now destruct (Fields.to_representation f dv).
  - destruct (allow_null f).
    + unfold Fields.to_representation.
      destruct (cls f) as [ | | ab tw | | | | ]; try reflexivity.
      cbn. now destruct tw.
    + now destruct (required f).
Qed.

End RepresentationFacts.

Lemma X18_representation_entries_witness :
  Serializer_to_representation no_attribute
    {| rep_fields := [("town", (["address"; "city"], city_field));
                      ("zip", (["address"; "zip"], city_field))];
       rep_clean_method := fun _ => None;
       rep_clean := default_clean;
       rep_partial := false |}
    (VDict [("address", VDict [("city", VStr " NY ")])])
  = Return (VDict [("town", VStr "NY")]).
Proof.
  refine (proj1 (X18_representation_entries no_attribute
                   {| rep_fields := [("town", (["address"; "city"], city_field));
                                     ("zip", (["address"; "zip"], city_field))];
                      rep_clean_method := fun _ => None;
                      rep_clean := default_clean;
                      rep_partial := false |}
                   (VDict [("address", VDict [("city", VStr " NY ")])]) _ _ _)).
  - cbn. repeat constructor; cbn; intuition discriminate.
  - intros entry [<- | [<- | []]]; eexists; reflexivity.
  - intros ret_tree. now right.
Defined.

Lemma X19_missing_key_witness :
  represent_field no_attribute
    {| rep_fields := []; rep_clean_method := fun _ => None;
       rep_clean := default_clean; rep_partial := false |}
    (VDict [("name", VStr "a")]) "age" ["age"]
    (new_IntegerField None None
       {| kw_required := false; kw_allow_null := true; kw_default := None;
          kw_source := None; kw_validators := []; kw_error_messages := [] |})
  = Raise TypeError.
Proof.
  exact (X19_missing_key no_attribute
           {| rep_fields := []; rep_clean_method := fun _ => None;
              rep_clean := default_clean; rep_partial := false |}
           [("name", VStr "a")] "age" "age" []
           (new_IntegerField None None
              {| kw_required := false; kw_allow_null := true; kw_default := None;
                 kw_source := None; kw_validators := []; kw_error_messages := [] |})
           eq_refl eq_refl).
Defined.

(** ** The declared fields of a serializer class *)

Lemma rev_flat_map {A B} (g : A -> list B) (l : list A) :
  List.rev (flat_map g l) = flat_map (fun x => List.rev (g x)) (List.rev l).
Proof.
  induction l as [ | a l IH]; [reflexivity | ].
  cbn [flat_map List.rev]. rewrite rev_app_distr, IH, flat_map_app.
  cbn [flat_map]. now rewrite app_nil_r.
Qed.

Lemma get_filter_string {V} (p : string -> bool) (d : list (string * V))
  (k : string) :
  OrderedDict.get String.eqb (filter (fun kv => p (fst kv)) d) k
  = if p k then OrderedDict.get String.eqb d k else None.
Proof.
  induction d as [ | [k' v] r IH]; cbn [filter fst]; [now destruct (p k) | ].
  destruct (p k') eqn:Ek'; cbn [OrderedDict.get].
  - destruct (String.eqb_spec k k') as [-> | Hk]; [now rewrite Ek' | ].
    rewrite IH. now destruct (p k).
  - rewrite IH. destruct (String.eqb_spec k k') as [-> | Hk]; [now rewrite Ek' | ].
    reflexivity.
Qed.

Lemma NoDup_filter_keys {V} (p : string * V -> bool) (d : list (string * V)) :
  NoDup (map fst d) -> NoDup (map fst (filter p d)).
Proof.
  induction d as [ | kv r IH]; cbn [filter map]; intros Hnd; [constructor | ].
  apply NoDup_cons_iff in Hnd as [Hk Hnd].
  destruct (p kv); [ | exact (IH Hnd)].
  cbn [map]. constructor; [ | exact (IH Hnd)].
  intros Hin. apply Hk. apply in_map_iff in Hin as [x [Hx Hin]].
  apply filter_In in Hin as [Hin _]. apply in_map_iff. now exists x.
Qed.

Lemma mem_In (name : string) (names : list string) :
  mem name names = true <-> In name names.
Proof.
  unfold mem. rewrite existsb_exists. split.
  - intros [x [Hin Hx]]. apply String.eqb_eq in Hx. now subst.
  - intros Hin. exists name. split; [exact Hin | apply String.eqb_refl].
Qed.

Section DeclaredFacts.
Context {F : Type}.

Lemma own_fields_keys (attrs : list (string * attribute F)) (name : string) :
  In name (map fst (own_fields attrs)) ->
  exists f, In (name, IsField f) attrs.
Proof.
  induction attrs as [ | [k a] r IH]; cbn [own_fields flat_map fst snd];
    [intros [] | ].
  fold (own_fields r). rewrite map_app, in_app_iff. intros [H | H].
  - destruct a as [f | ]; [ | destruct H].
    destruct H as [<- | []]. exists f. now left.
  - destruct (IH H) as [f Hf]. exists f. now right.
Qed.

Lemma remaining_keys (attrs : list (string * attribute F)) (name : string) :
  In name (remaining attrs) <-> In (name, Other) attrs.
Proof.
  induction attrs as [ | [k a] r IH]; cbn [remaining flat_map fst snd];
    [tauto | ].
  fold (remaining r). rewrite in_app_iff, IH. cbn [In].
  destruct a as [f | ]; cbn [In]; split.
  - tauto.
  - intros [H | H]; [discriminate H | tauto].
  - intros [[<- | []] | H]; tauto.
  - intros [[= <-] | H]; tauto.
Qed.

Lemma own_fields_NoDup (attrs : list (string * attribute F)) :
  NoDup (map fst attrs) -> NoDup (map fst (own_fields attrs)).
Proof.
  induction attrs as [ | [k a] r IH]; cbn [own_fields flat_map fst snd map];
    intros Hnd; [constructor | ].
  fold (own_fields r). apply NoDup_cons_iff in Hnd as [Hk Hnd].
  destruct a as [f | ]; cbn [List.app map fst]; [ | exact (IH Hnd)].
  constructor; [ | exact (IH Hnd)].
  intros Hin. apply Hk. destruct (own_fields_keys r k Hin) as [f' Hf'].
  apply in_map_iff. now exists (k, IsField f').
Qed.

Lemma own_fields_not_remaining (attrs : list (string * attribute F))
  (name : string) :
  NoDup (map fst attrs) ->
  mem name (remaining attrs) = true ->
  OrderedDict.get String.eqb (own_fields attrs) name = None.
Proof.
  intros Hnd Hmem. apply get_none_not_in. intros Hin.
  apply mem_In, remaining_keys in Hmem.
  destruct (own_fields_keys attrs name Hin) as [f Hf].
  clear Hin. induction attrs as [ | [k a] r IH]; [destruct Hf | ].
  cbn [map fst] in Hnd. apply NoDup_cons_iff in Hnd as [Hk Hnd].
  destruct Hf as [[= -> ->] | Hf], Hmem as [[= E1 E2] | Hmem];
    try discriminate.
  - apply Hk. apply in_map_iff. now exists (name, Other).
  - subst. apply Hk. apply in_map_iff. now exists (name, IsField f).
  - exact (IH Hnd Hmem Hf).
Qed.

Lemma get_inherited (attrs : list (string * attribute F))
  (bases : list (option (list (string * F)))) (name : string) :
  (forall declared, In (Some declared) bases -> NoDup (map fst declared)) ->
  OrderedDict.get String.eqb
    (flat_map (fun base => List.rev (inherited attrs base)) bases) name
  = if mem name (remaining attrs) then None else inherited_field bases name.
Proof.
  induction bases as [ | [declared | ] rest IH]; intros Hnd;
    cbn [flat_map inherited_field].
  - now destruct (mem name (remaining attrs)).
  - rewrite get_app_string, IH by (intros d Hd; apply Hnd; now right).
    unfold inherited.
    rewrite get_rev_string
      by (apply NoDup_filter_keys, Hnd; now left).
    rewrite (get_filter_string (fun k => negb (mem k (remaining attrs)))).
    destruct (mem name (remaining attrs)); [reflexivity | ].
    cbn [negb]. now destruct (OrderedDict.get String.eqb declared name).
  - cbn [inherited List.rev List.app].
    apply IH. intros d Hd. apply Hnd. now right.
Qed.

(** X20. The declared fields of a class, looked up by name: a name that
    the class body gives to something that is not a field is not
    declared, even when a base declares it; otherwise the field is the
    one of the first base that declares the name, also when the class
    body declares a field of its own under that name; only a name that
    no base declares gets the field of the class body. *)
Theorem X20_declared_field_lookup
  (bases : list (option (list (string * F))))
  (attrs : list (string * attribute F)) (name : string) :
  NoDup (map fst attrs) ->
  (forall declared, In (Some declared) bases -> NoDup (map fst declared)) ->
  OrderedDict.get String.eqb (get_declared_fields bases attrs) name
  = if mem name (remaining attrs) then None
    else match inherited_field bases name with
         | Some f => Some f
         | None => OrderedDict.get String.eqb (own_fields attrs) name
         end.
Proof.
  intros Hattrs Hbases. unfold get_declared_fields, of_pairs.
  change (fold_left
            (fun d kv => OrderedDict.set String.eqb d (fst kv) (snd kv))
            (own_fields attrs ++ flat_map (inherited attrs) (List.rev bases))%list [])
    with (OrderedDict.update String.eqb []
            (own_fields attrs ++ flat_map (inherited attrs) (List.rev bases))%list).
  rewrite get_update_string, rev_app_distr, get_app_string.
  rewrite rev_flat_map, rev_involutive, (get_inherited attrs bases name Hbases).
  rewrite (get_rev_string _ _ (own_fields_NoDup attrs Hattrs)).
  destruct (mem name (remaining attrs)) eqn:Hmem.
  - rewrite (own_fields_not_remaining attrs name Hattrs Hmem). reflexivity.
  - destruct (inherited_field bases name); [reflexivity | ].
    now destruct (OrderedDict.get String.eqb (own_fields attrs) name).
Qed.

End DeclaredFacts.

(** A class that declares [name] again and sets [age] to [None], on a
    base that declares both: it keeps the [name] of the base and has no
    [age]. *)
Lemma X20_declared_field_lookup_witness :
  get_declared_fields [Some [("name", 1%nat); ("age", 2%nat)]]
    [("name", IsField 3%nat); ("age", Other)]
  = [("name", 1%nat)]
  /\ OrderedDict.get String.eqb
       (get_declared_fields [Some [("name", 1%nat); ("age", 2%nat)]]
          [("name", IsField 3%nat); ("age", Other)]) "name"
     = Some 1%nat.
Proof.
  split; [reflexivity | ].
  rewrite (X20_declared_field_lookup [Some [("name", 1%nat); ("age", 2%nat)]]
             [("name", IsField 3%nat); ("age", Other)] "name").
  - reflexivity.
  - cbn. repeat constructor; cbn; intuition discriminate.
  - intros declared [[= <-] | []]. cbn. repeat constructor; cbn; intuition discriminate.
Defined.

(** ** The error messages of a field *)

(** X21. The message of a field for a key is the one given in
    [error_messages], else the one of its class, else the one of
    [Field]; so every field has a message for [required] and for
    [null], whatever its class and arguments. *)
Theorem X21_message_precedence (class_defaults user : messages) (key : string) :
  NoDup (map fst class_defaults) ->
  NoDup (map fst user) ->
  OrderedDict.get String.eqb (collect_messages class_defaults user) key
  = match OrderedDict.get String.eqb user key with
    | Some t => Some t
    | None =>
        match OrderedDict.get String.eqb class_defaults key with
        | Some t => Some t
        | None => OrderedDict.get String.eqb Field_default_error_messages key
        end
    end
  /\ (forall (c : FieldClass) (extra : list validator) (kw : kwargs),
         kw_error_messages kw = user ->
         OrderedDict.get String.eqb
           (error_messages (Field_init c class_defaults extra kw)) "required"
         <> None
         /\ OrderedDict.get String.eqb
              (error_messages (Field_init c class_defaults extra kw)) "null"
            <> None).
Proof.
  intros Hclass Huser.
  assert (E : forall k,
             OrderedDict.get String.eqb (collect_messages class_defaults user) k
             = match OrderedDict.get String.eqb user k with
               | Some t => Some t
               | None =>
                   match OrderedDict.get String.eqb class_defaults k with
                   | Some t => Some t
                   | None => OrderedDict.get String.eqb Field_default_error_messages k
                   end
               end).
  { intros k. unfold collect_messages. rewrite !get_update_string.
    rewrite (get_rev_string user k Huser), (get_rev_string class_defaults k Hclass).
    destruct (OrderedDict.get String.eqb user k); [reflexivity | ].
    destruct (OrderedDict.get String.eqb class_defaults k); [reflexivity | ].
    rewrite get_rev_string; [ | cbn; repeat constructor; cbn; intuition discriminate].
    now destruct (OrderedDict.get String.eqb Field_default_error_messages k). }
  split; [apply E | ].
  intros c extra kw <-. cbn [error_messages Field_init]. rewrite !E.
  split.
  - destruct (OrderedDict.get String.eqb (kw_error_messages kw) "required");
      [discriminate | ].
    destruct (OrderedDict.get String.eqb class_defaults "required"); discriminate.
  - destruct (OrderedDict.get String.eqb (kw_error_messages kw) "null");
      [discriminate | ].
    destruct (OrderedDict.get String.eqb class_defaults "null"); discriminate.
Qed.

Lemma X21_message_precedence_witness :
  OrderedDict.get String.eqb
    (collect_messages IntegerField_default_error_messages
       [("invalid", [Lit "Not a number."])]) "invalid"
  = Some [Lit "Not a number."].
Proof.
  refine (proj1 (X21_message_precedence IntegerField_default_error_messages
                   [("invalid", [Lit "Not a number."])] "invalid" _ _)).
  - cbn. repeat constructor; cbn; intuition discriminate.
  - cbn. repeat constructor; cbn; intuition discriminate.
Defined.

(** ** The list field without a child *)

Lemma unvalidated_item (partial : bool) (item : value) :
  outcome (Fields.run_validation (with_source UnvalidatedField (Some EmptyString))
             partial (Present item))
  = Return item.
Proof.
  destruct item as [ | b | n | s | l | d]; reflexivity.
Qed.

Lemma unvalidated_items (child : input -> M value) (items : list value) :
  (forall item, item_result child item = Return item) ->
  forall idx, indexed_failures child idx items = []
              /\ item_values child items = items.
Proof.
  intros Hchild. induction items as [ | item rest IH]; intros idx;
    [now split | ].
  cbn [indexed_failures item_values flat_map]. fold (item_values child rest).
  rewrite Hchild. destruct (IH (S idx)) as [-> ->]. now split.
Qed.

Lemma represent_items_unchanged (items : list value) :
  represent_items
    (Fields.to_representation (with_source UnvalidatedField (Some EmptyString)))
    items
  = Return items.
Proof.
  induction items as [ | item rest IH]; [reflexivity | ].
  cbn [represent_items]. rewrite IH. now destruct item.
Qed.

(** X22. A list field that is given no child takes every list as it is:
    [run_validation] returns the list with its items unchanged, [None]
    items included, and [to_representation] returns it unchanged too.
    Only the empty list is refused, when [allow_empty] is off. *)
Theorem X22_list_field_without_child
  (allow_empty partial : bool) (items : list value) :
  allow_empty = true \/ items <> [] ->
  outcome (Fields.run_validation (plain_list_field allow_empty) partial
             (Present (VList items)))
  = Return (VList items)
  /\ Fields.to_representation (plain_list_field allow_empty) (VList items)
     = Return (VList items).
Proof.
  intros Hempty. split.
  - change (Fields.run_validation (plain_list_field allow_empty) partial
              (Present (VList items)))
      with (Field_run_validation (plain_list_field allow_empty) partial
              (Present (VList items))).
    rewrite field_run_validation_of_value by discriminate.
    unfold convert_and_validate. rewrite outcome_bind_tell, outcome_bind.
    set (child := Fields.run_validation
                    (with_source UnvalidatedField (Some EmptyString))).
    assert (Hitems : forall item, item_result (child partial) item = Return item)
      by (intros item; apply unvalidated_item).
    destruct (list_field_outcome (plain_list_field allow_empty) partial child
                (Fields.to_representation
                   (with_source UnvalidatedField (Some EmptyString)))
                allow_empty items eq_refl Hempty) as [_ Ho].
    { intros item _. unfold returns_or_fails. now rewrite Hitems. }
    rewrite Ho.
    destruct (unvalidated_items (child partial) items Hitems 0%nat) as [-> ->].
    reflexivity.
  - unfold Fields.to_representation, plain_list_field, new_ListField.
    cbn [cls Field_init]. unfold ListField_to_representation. cbn [iterate].
    now rewrite represent_items_unchanged.
Qed.

Lemma X22_list_field_without_child_witness :
  outcome (Fields.run_validation (plain_list_field false) false
             (Present (VList [VNone; VStr " a "; VList [VInt 1]])))
  = Return (VList [VNone; VStr " a "; VList [VInt 1]]).
Proof.
  refine (proj1 (X22_list_field_without_child false false
                   [VNone; VStr " a "; VList [VInt 1]] _)).
  right. discriminate.
Defined.

(** ** The keys of a choice field *)

Lemma scalar_eqb_refl (k : scalar) : scalar_eqb k k = true.
Proof.
  destruct k as [ | b | n | s]; cbn.
  - reflexivity.
  - now destruct b.
  - apply Z.eqb_refl.
  - apply String.eqb_refl.
Qed.

Lemma set_entries {V} (d : list (scalar * V)) (k k0 : scalar) (v e0 : V) :
  In (k0, e0) (OrderedDict.set scalar_eqb d k v) ->
  (e0 = v /\ scalar_eqb k k0 = true) \/ In (k0, e0) d.
Proof.
  induction d as [ | [k' v'] r IH]; cbn [OrderedDict.set].
  - intros [[= <- <-] | []]. left. split; [reflexivity | apply scalar_eqb_refl].
  - destruct (scalar_eqb k k') eqn:E; cbn [In].
    + intros [[= <- <-] | H]; [left; now split | right; now right].
    + intros [H | H]; [right; now left | ].
      destruct (IH H) as [H' | H']; [now left | right; now right].
Qed.

Lemma set_keys {V} (d : list (scalar * V)) (k k0 : scalar) (v : V) :
  In k0 (map fst (OrderedDict.set scalar_eqb d k v)) ->
  k0 = k \/ In k0 (map fst d).
Proof.
  induction d as [ | [k' v'] r IH]; cbn [OrderedDict.set].
  - intros [<- | []]. now left.
  - destruct (scalar_eqb k k'); cbn [map fst In]; [tauto | ].
    intros [H | H]; [tauto | ]. destruct (IH H); tauto.
Qed.

Section FoldSet.
Context {X V : Type} (g : X -> scalar * V)
  (h : list (scalar * V) -> X -> list (scalar * V)).
Hypothesis h_sets :
  forall ret x, h ret x = OrderedDict.set scalar_eqb ret (fst (g x)) (snd (g x)).

Lemma fold_set_entries (l : list X) :
  forall (acc : list (scalar * V)) (k0 : scalar) (e0 : V),
    In (k0, e0) (fold_left h l acc) ->
    (exists x, In x l /\ snd (g x) = e0 /\ scalar_eqb (fst (g x)) k0 = true)
    \/ In (k0, e0) acc.
Proof.
  induction l as [ | x rest IH]; intros acc k0 e0; cbn [fold_left]; [tauto | ].
  intros H. destruct (IH _ _ _ H) as [[y [Hy Hg]] | H'].
  - left. exists y. split; [now right | exact Hg].
  - rewrite h_sets in H'. destruct (set_entries _ _ _ _ _ H') as [[-> Hk] | H''].
    + left. exists x. split; [now left | now split].
    + now right.
Qed.

Lemma fold_set_keys (l : list X) :
  forall (acc : list (scalar * V)) (k0 : scalar),
    In k0 (map fst (fold_left h l acc)) ->
    (exists x, In x l /\ fst (g x) = k0) \/ In k0 (map fst acc).
Proof.
  induction l as [ | x rest IH]; intros acc k0; cbn [fold_left]; [tauto | ].
  intros H. destruct (IH _ _ H) as [[y [Hy Hg]] | H'].
  - left. exists y. split; [now right | exact Hg].
  - rewrite h_sets in H'. destruct (set_keys _ _ _ _ H') as [-> | H''].
    + left. exists x. split; [now left | reflexivity].
    + now right.
Qed.
End FoldSet.

Lemma to_choices_dict_entries (choices : list choice) (k : scalar) (e : entry) :
  In (k, e) (to_choices_dict choices) ->
  exists c, In c choices /\ snd (choice_entry c) = e
            /\ scalar_eqb (choice_key c) k = true.
Proof.
  unfold to_choices_dict. intros H.
  apply (fold_set_entries choice_entry) in H as [H | []]; [exact H | ].
  intros ret c. now destruct (choice_entry c).
Qed.

Lemma flatten_keys (d : list (scalar * entry)) :
  forall (acc : list (scalar * entry)) (k : scalar),
    In k (map fst
            (fold_left
               (fun ret kv =>
                  match snd kv with
                  | Nested d' =>
                      fold_left
                        (fun ret' sk =>
                           OrderedDict.set scalar_eqb ret' (fst sk) (snd sk))
                        d' ret
                  | Display (VDict d') =>
                      fold_left
                        (fun ret' sk =>
                           OrderedDict.set scalar_eqb ret' (SStr (fst sk))
                             (Display (snd sk)))
                        d' ret
                  | Display v => OrderedDict.set scalar_eqb ret (fst kv) (Display v)
                  end) d acc)) ->
    (exists k1 e1,
        In (k1, e1) d
        /\ match e1 with
           | Nested d' => In k (map fst d')
           | Display (VDict d') => In k (map (fun sk => SStr (fst sk)) d')
           | Display _ => k = k1
           end)
    \/ In k (map fst acc).
Proof.
  induction d as [ | [k1 e1] rest IH]; intros acc k; cbn [fold_left snd fst];
    [tauto | ].
  intros H. destruct (IH _ _ H) as [[k2 [e2 [Hin Hm]]] | H'].
  - left. exists k2, e2. split; [now right | exact Hm].
  - assert (Hhere : match e1 with
                    | Nested d' => In k (map fst d')
                    | Display (VDict d') => In k (map (fun sk => SStr (fst sk)) d')
                    | Display _ => k = k1
                    end \/ In k (map fst acc)).
    { destruct e1 as [v | d'].
      - destruct v as [ | b | n | s | l | d'];
          try (destruct (set_keys _ _ _ _ H'); tauto).
        apply (fold_set_keys (fun sk : string * value =>
                                (SStr (fst sk), Display (snd sk)))) in H'
          as [[x [Hx <-]] | H']; [ | now right | reflexivity].
        left. apply in_map_iff. now exists x.
      - apply (fold_set_keys (fun sk : scalar * entry => sk)) in H'
          as [[x [Hx <-]] | H']; [ | now right | reflexivity].
        left. apply in_map_iff. now exists x. }
    destruct Hhere as [Hm | Hacc]; [ | now right].
    left. exists k1, e1. split; [now left | exact Hm].
Qed.

(** X23. Every key of the flattened choices of a choice field equals
    ([==]) a key that one of the declared choices offers: the key of a
    single choice or of a pair, a key of the members of a group, or a
    key of a display value that is a mapping. The name of a group is
    therefore no valid choice, unless it equals one of those keys. *)
Theorem X23_declared_keys_are_offered (choices : list choice) (k : scalar) :
  In k (declared_keys choices) ->
  exists c k', In c choices /\ In k' (leaf_keys c) /\ scalar_eqb k' k = true.
Proof.
  unfold declared_keys, OrderedDict.keys, flatten_choices_dict. intros H.
  apply flatten_keys in H as [[k1 [e1 [Hin Hm]]] | []].
  apply to_choices_dict_entries in Hin as [c [Hc [He Hk]]].
  exists c. destruct c as [kc | kc v | kc sub]; cbn [choice_entry snd] in He;
    subst e1; unfold choice_key in Hk; cbn [choice_entry fst] in Hk.
  - exists kc. assert (k = k1) as -> by now destruct kc.
    split; [exact Hc | ]. split; [now left | exact Hk].
  - destruct v as [ | b | n | s | l | d'];
      try (subst k; exists kc; split; [exact Hc | ]; split; [now left | exact Hk]).
    exists k. split; [exact Hc | ]. split; [exact Hm | apply scalar_eqb_refl].
  - exists k. split; [exact Hc | ]. split; [ | apply scalar_eqb_refl].
    cbn [leaf_keys].
    apply (fold_set_keys choice_entry) in Hm as [[c' [Hc' <-]] | []].
    + apply in_map_iff. now exists c'.
    + intros ret c'. now destruct (choice_entry c').
Qed.

Lemma X23_declared_keys_are_offered_witness :
  declared_keys [Group (SStr "more") [Pair (SInt 2) (VStr "Second")];
                 Pair (SInt 1) (VStr "First")]
  = [SInt 2; SInt 1]
  /\ exists c k',
       In c [Group (SStr "more") [Pair (SInt 2) (VStr "Second")];
             Pair (SInt 1) (VStr "First")]
       /\ In k' (leaf_keys c) /\ scalar_eqb k' (SInt 2) = true.
Proof.
  split; [reflexivity | ].
  apply (X23_declared_keys_are_offered
           [Group (SStr "more") [Pair (SInt 2) (VStr "Second")];
            Pair (SInt 1) (VStr "First")] (SInt 2)).
  now left.
Defined.

(** ** The validated data of a serializer *)

Lemma part_ways_sym (p q : list string) : part_ways p q -> part_ways q p.
Proof.
  intros [prefix [a [b [p' [q' [Hp [Hq Hab]]]]]]].
  exists prefix, b, a, q', p'. repeat split; auto.
Qed.

Lemma assemble_app (e1 e2 : list (list string * value)) :
  forall tree0,
    assemble tree0 (e1 ++ e2)
    = match assemble tree0 e1 with
      | Return t => assemble t e2
      | Raise e => Raise e
      end.
Proof.
  induction e1 as [ | [keys v] rest IH]; intros tree0; [reflexivity | ].
  cbn [List.app assemble].
  destruct (set_value tree0 keys v) as [t | e]; [apply IH | reflexivity].
Qed.

Lemma field_values_In (s : Serializer) (rp : bool) (data : value)
  (bs : list BoundField) (q : list string) (v : value) :
  In (q, v) (field_values s rp data bs) ->
  exists b, In b bs /\ q = source_attrs b /\ field_result s rp data b = Return v.
Proof.
  unfold field_values. rewrite in_flat_map. intros [b [Hin Hv]].
  exists b. split; [exact Hin | ].
  destruct (field_result s rp data b) as [v' | e]; [ | destruct Hv].
  destruct Hv as [[= <- <-] | []]. now split.
Qed.

Lemma loop_returns_assemble (s : Serializer) (rp : bool) (data : value)
  (tree : list (string * value)) :
  forall (bs : list BoundField) (tree0 : list (string * value))
         (errors0 : list (key * details)),
    outcome (to_internal_value_loop s rp data bs tree0 errors0)
    = Return (VDict tree) ->
    assemble tree0 (field_values s rp data bs) = Return tree.
Proof.
  induction bs as [ | b rest IH]; intros tree0 errors0.
  - cbn. destruct errors0; cbn; [congruence | discriminate].
  - cbn [to_internal_value_loop field_values flat_map].
    fold (field_values s rp data rest). unfold field_result, outcome.
    destruct (validate_field s rp data b) as [l [v | e]]; cbn [snd List.app assemble].
    + destruct (set_value tree0 (source_attrs b) v) as [tree1 | e];
        [ | discriminate].
      unfold after. cbn [snd]. apply IH.
    + destruct e; try discriminate; unfold after; cbn [snd]; apply IH.
Qed.

Section ReadBack.
Variable getattr : value -> string -> result value.

Lemma set_value_other_path (d d' : list (string * value)) (p q : list string)
  (v : value) :
  part_ways p q ->
  set_value d p v = Return d' ->
  get_attribute getattr (VDict d') q = get_attribute getattr (VDict d) q.
Proof.
  intros [prefix [a [b [p' [q' [-> [-> Hab]]]]]]] Hset.
  destruct (prefix ++ a :: p')%list as [ | key more] eqn:E;
    [now destruct prefix | ].
  cbn [set_value] in Hset.
  exact (set_path_other_paths getattr prefix d d' key more v a b p' q'
           (eq_sym E) Hab Hset).
Qed.

Lemma assemble_keeps_path (p : list string) :
  forall (entries : list (list string * value)) (tree0 tree : list (string * value)),
    assemble tree0 entries = Return tree ->
    (forall q v, In (q, v) entries -> part_ways q p) ->
    get_attribute getattr (VDict tree) p = get_attribute getattr (VDict tree0) p.
Proof.
  induction entries as [ | [q v] rest IH]; intros tree0 tree Hasm Hpaths.
  - cbn in Hasm. congruence.
  - cbn [assemble] in Hasm.
    destruct (set_value tree0 q v) as [tree1 | e] eqn:E; [ | discriminate].
    rewrite (IH tree1 tree Hasm) by (intros q' v' Hin; apply (Hpaths q' v'); now right).
    apply (set_value_other_path tree0 tree1 q p v); [ | exact E].
    apply (Hpaths q v). now left.
Qed.

(** X24. In the validated data that a serializer returns, the value of a
    field is found under the source path of the field, whenever that path
    parts ways with the source paths of the other fields that returned a
    value: [get_attribute] along the path reads back what the field
    returned. *)
Theorem X24_validated_data_read_back
  (s : Serializer) (root_partial : bool) (data : value) (bs : list BoundField)
  (tree : list (string * value)) (b : BoundField) (v : value) :
  fields s = Return bs ->
  NoDup (map field_name bs) ->
  outcome (Serializers.to_internal_value s root_partial data)
  = Return (VDict tree) ->
  In b bs ->
  field_result s root_partial data b = Return v ->
  source_attrs b <> [] ->
  (forall b' v',
      In b' bs -> field_name b' <> field_name b ->
      field_result s root_partial data b' = Return v' ->
      part_ways (source_attrs b) (source_attrs b')) ->
  get_attribute getattr (VDict tree) (source_attrs b) = Return v.
Proof.
  intros Hfields Hnd Hout Hin Hres Hpath Hothers.
  unfold Serializers.to_internal_value in Hout. rewrite Hfields in Hout.
  unfold lift in Hout.
  rewrite (bind_return bs
             (fun bs => to_internal_value_loop s root_partial data bs [] []))
    in Hout.
  apply loop_returns_assemble in Hout.
  apply in_split in Hin as [before [later ->]].
  unfold field_values in Hout. rewrite flat_map_app in Hout.
  cbn [flat_map] in Hout. rewrite Hres in Hout.
  fold (field_values s root_partial data before) in Hout.
  fold (field_values s root_partial data later) in Hout.
  rewrite assemble_app in Hout.
  destruct (assemble [] (field_values s root_partial data before))
    as [tree_a | e]; [ | discriminate].
  cbn [List.app assemble] in Hout.
  destruct (set_value tree_a (source_attrs b) v) as [tree_b | e] eqn:Eset;
    [ | discriminate].
  rewrite (assemble_keeps_path (source_attrs b) _ tree_b tree Hout).
  - destruct (source_attrs b) as [ | key more]; [congruence | ].
    exact (set_path_read_back getattr more tree_a tree_b key v Eset).
  - intros q v' Hq. apply field_values_In in Hq as [b' [Hb' [-> Hv']]].
    apply part_ways_sym. apply (Hothers b' v'); [ | | exact Hv'].
    + apply in_or_app. right. now right.
    + rewrite map_app in Hnd. cbn [map] in Hnd. apply NoDup_remove_2 in Hnd.
      intros Heq. apply Hnd. apply in_or_app. right. rewrite <- Heq.
      now apply in_map.
Qed.

End ReadBack.

(** The city of [profile], on its valid input. *)
Lemma X24_validated_data_read_back_witness :
  get_attribute no_attribute
    (VDict [("name", VStr "Ann"); ("zip", VInt 1);
            ("address", VDict [("city", VStr "NY")])])
    ["address"; "city"]
  = Return (VStr "NY").
Proof.
  assert (Hcity : exists b, nth_error (bound_fields profile) 3 = Some b
                            /\ source_attrs b = ["address"; "city"]
                            /\ field_name b = "city")
    by (eexists; repeat split).
  destruct Hcity as [b [Hb [Hsrc Hname]]].
  rewrite <- Hsrc.
  apply (X24_validated_data_read_back no_attribute profile false
           (VDict profile_good) (bound_fields profile) _ b (VStr "NY")).
  - reflexivity.
  - cbn. repeat constructor; cbn; intuition discriminate.
  - reflexivity.
  - exact (nth_error_In _ _ Hb).
  - cbn in Hb. injection Hb as <-. reflexivity.
  - rewrite Hsrc. discriminate.
  - intros b' v' Hin Hne Hres. rewrite Hsrc.
    cbn in Hb. injection Hb as <-.
    cbn in Hin. destruct Hin as [<- | [<- | [<- | [<- | []]]]].
    + exists [], "address", "name", ["city"], []. repeat split. discriminate.
    + discriminate Hres.
    + exists [], "address", "zip", ["city"], []. repeat split. discriminate.
    + now destruct Hne.
Defined.

(** ** The property [data] *)

Lemma of_pairs_fresh {V} (l : list (string * V)) :
  forall acc : list (string * V),
    NoDup (map fst acc ++ map fst l) ->
    fold_left (fun d kv => OrderedDict.set String.eqb d (fst kv) (snd kv)) l acc
    = (acc ++ l)%list.
Proof.
  induction l as [ | [k v] rest IH]; intros acc Hnd;
    cbn [fold_left fst snd]; [now rewrite app_nil_r | ].
  cbn [map fst] in Hnd.
  rewrite set_fresh_string.
  - rewrite IH; [now rewrite <- app_assoc | ].
    rewrite map_app. cbn [map fst]. now rewrite <- app_assoc.
  - apply NoDup_remove_2 in Hnd. rewrite in_app_iff in Hnd. tauto.
Qed.

Lemma submitted_names (d : list (string * value)) (bs : list BoundField)
  (name : string) :
  In name (map fst (submitted d bs)) -> In name (map field_name bs).
Proof.
  induction bs as [ | b rest IH]; [intros [] | ].
  unfold submitted. cbn [flat_map map]. rewrite map_app, in_app_iff.
  intros [H | H]; [ | right; exact (IH H)].
  destruct (get_value (field_name b) (VDict d)); cbn in H |- *; tauto.
Qed.

Lemma submitted_NoDup (d : list (string * value)) (bs : list BoundField) :
  NoDup (map field_name bs) -> NoDup (map fst (submitted d bs)).
Proof.
  induction bs as [ | b rest IH]; intros Hnd; [constructor | ].
  cbn [map] in Hnd. apply NoDup_cons_iff in Hnd as [Hb Hnd].
  unfold submitted. cbn [flat_map]. fold (submitted d rest).
  destruct (get_value (field_name b) (VDict d)); cbn [List.app map fst];
    [exact (IH Hnd) | ].
  constructor; [ | exact (IH Hnd)].
  intros Hin. apply Hb. exact (submitted_names _ _ _ Hin).
Qed.

(** X25. On a serializer that was given request data and no instance,
    [data] raises [AssertionError] before [is_valid]. After [is_valid] it
    is the validated data when the validation returned; when the
    validation failed, it is the values of the request that belong to
    declared fields, unvalidated and in the order of declaration, or the
    empty mapping when the details of the failure are empty. Reading
    [data] again gives the same and changes nothing. *)
Theorem X25_data_after_is_valid
  (s : Serializer) (represent : value -> result value)
  (initial : string -> result value) (d : list (string * value))
  (bs : list BoundField) (run : M value) (l : list event) (r : result value)
  (raise_exc : bool) :
  fields s = Return bs ->
  NoDup (map field_name bs) ->
  run = (l, r) ->
  returns_or_fails r = true ->
  snd (data s represent initial
         {| instance := VNone; _request_data := Present (VDict d);
            validation := fresh; _data := None |})
  = Raise AssertionError
  /\ snd (data s represent initial
            {| instance := VNone; _request_data := Present (VDict d);
               validation := fst (is_valid run raise_exc fresh); _data := None |})
     = Return (match r with
               | Return v => v
               | Raise (ValidationError e) =>
                   if details_truthy e then VDict (submitted d bs) else VDict []
               | Raise _ => VNone
               end)
  /\ data s represent initial
       (fst (data s represent initial
               {| instance := VNone; _request_data := Present (VDict d);
                  validation := fst (is_valid run raise_exc fresh);
                  _data := None |}))
     = data s represent initial
         {| instance := VNone; _request_data := Present (VDict d);
            validation := fst (is_valid run raise_exc fresh); _data := None |}.
Proof.
  intros Hfields Hnd -> Hr.
  assert (Hinit : get_initial s initial (Present (VDict d))
                  = Return (VDict (submitted d bs))).
  { unfold get_initial, of_pairs. rewrite Hfields.
    rewrite (of_pairs_fresh (submitted d bs) []); [reflexivity | ].
    exact (submitted_NoDup d bs Hnd). }
  split; [reflexivity | ].
  unfold is_valid, validate_once. cbn [_validated_data fresh].
  destruct r as [v | e].
  - cbn. split; reflexivity.
  - destruct e; try discriminate Hr. unfold data, no_errors.
    cbn [fst snd _request_data _validated_data validation _data instance _errors
         negb andb].
    destruct (details_truthy d0) eqn:Ed; cbn [negb]; [rewrite Hinit | ];
      cbn [fst snd _request_data _validated_data validation _data instance _errors
           negb andb];
      split; reflexivity.
Qed.

(** [profile] on its invalid input: the blank name and the malformed zip
    come back as they were submitted. *)
Lemma X25_data_after_is_valid_witness :
  snd (data profile (fun _ => Raise TypeError) (fun _ => Return VNone)
         {| instance := VNone; _request_data := Present (VDict profile_bad);
            validation :=
              fst (is_valid (validate_request profile (Present (VDict profile_bad)))
                     false fresh);
            _data := None |})
  = Return (VDict [("name", VStr "  "); ("zip", VStr "x"); ("city", VStr "NY")]).
Proof.
  refine (proj1 (proj2 (X25_data_after_is_valid profile (fun _ => Raise TypeError)
                          (fun _ => Return VNone) profile_bad
                          (bound_fields profile)
                          (validate_request profile (Present (VDict profile_bad)))
                          _ _ false eq_refl _ eq_refl eq_refl))).
  cbn. repeat constructor; cbn; intuition discriminate.
Defined.
